(** * Neural-Animation: the physics and preset-interpolation core

    A shallow embedding of the animation controller of [src/index.ts]
    (class [NeuralNetworkAnimation]) and of its later revision with the
    preset transition engine ([startTransition], [updateTransition],
    [getEasingFunction]).

    Conventions of the embedding.
    - A JavaScript [number] is a real number ([R]); arithmetic is exact, the
      rounding of IEEE doubles is not modelled.  Counts that the program keeps
      integral ([nodeCount], [particleCount]: slider step 1, [Math.round] in
      the transition engine) are integers ([Z]).  The theorems over [R] state
      what holds of the program up to the rounding of the last bit; where a
      property of the program turns on that bit (a value reached exactly, the
      frame at which an accumulated age passes a bound), module [Binary64]
      at the end of the definitions evaluates the same expressions of the
      source in binary64.
    - A division by zero gives [Infinity] or [NaN] in JavaScript; the
      embedding makes each one explicit ([divide], [progressOf]).
    - [Math.random()] reads the next value of an oracle stream
      [rnd : nat -> R]; the cursor into the stream is part of the state.
    - [clock.getElapsedTime()] and [performance.now()] are inputs of the
      functions that read them ([time] in seconds, [now] in milliseconds).
    - The scene graph of three.js (meshes, materials, the raycaster, the DOM
      control panel) is outside the model; the fields of a mesh that the
      update functions compute (rotation, scale, opacity) are kept as plain
      record fields. *)

From Stdlib Require Import Reals Lra Lia ZArith List Bool String.
From Stdlib Require Import Strings.Byte.
From Stdlib Require Import Floats.PrimFloat.
Import ListNotations.
Open Scope R_scope.

(** A decimal literal of binary64 stands for the nearest binary64 value, as
    it does in the source. *)
Set Warnings "-inexact-float".

(** ** JavaScript numbers and [Math] *)

Definition Rlt_b (a b : R) : bool := if Rlt_dec a b then true else false.
Definition Rgt_b (a b : R) : bool := if Rgt_dec a b then true else false.
Definition Rge_b (a b : R) : bool := if Rge_dec a b then true else false.
Definition Req_b (a b : R) : bool := if Req_dec_T a b then true else false.

Module Math.

Definition abs (a : R) : R := Rabs a.
Definition min (a b : R) : R := Rmin a b.
Definition max (a b : R) : R := Rmax a b.
Definition min3 (a b c : R) : R := Rmin (Rmin a b) c.
Definition sqrt (a : R) : R := R_sqrt.sqrt a.

(** [Math.round]: the nearest integer, halves rounded up. *)
Definition round (a : R) : Z := Zfloor (a + 1 / 2).

(** [Math.pow]: an integral exponent is repeated multiplication (any base);
    any other exponent goes through [exp] and [ln] (positive base). *)
Definition pow (b e : R) : R :=
  if Req_dec_T e (IZR (Zfloor e)) then powerRZ b (Zfloor e) else Rpower b e.

End Math.

(** ** three.js vectors *)

Module THREE.

Record Vector3 : Type := mkVector3 { x : R; y : R; z : R }.

Definition add (a b : Vector3) : Vector3 :=
  mkVector3 (x a + x b) (y a + y b) (z a + z b).

Definition multiplyScalar (a : Vector3) (s : R) : Vector3 :=
  mkVector3 (x a * s) (y a * s) (z a * s).

Definition distanceTo (a b : Vector3) : R :=
  Math.sqrt ((x a - x b) * (x a - x b) + (y a - y b) * (y a - y b)
             + (z a - z b) * (z a - z b)).

Definition setX (a : Vector3) (v : R) : Vector3 := mkVector3 v (y a) (z a).
Definition setY (a : Vector3) (v : R) : Vector3 := mkVector3 (x a) v (z a).
Definition setZ (a : Vector3) (v : R) : Vector3 := mkVector3 (x a) (y a) v.

(** Modelled from the spec: [THREE.Color] and its [lerp]/[getHexString]
    belong to three.js, which is not part of the repository.  A colour is
    the three 8-bit channels of its ["#RRGGBB"] string. *)
Record Color : Type := mkColor { red : byte; green : byte; blue : byte }.

Definition channel (b : byte) : R := IZR (Z.of_N (Byte.to_N b)).

(** A blended channel written back as two hex digits: rounded, and clamped
    to [0, 255]. *)
Definition toChannel (v : R) : byte :=
  let n := Z.to_N (Z.max 0 (Z.min 255 (Math.round v))) in
  match Byte.of_N n with Some b => b | None => x00 end.

End THREE.

(** ** The data model *)

Inductive WallType : Type := floor | ceiling | left | right | back.

Module Node.
Record t : Type := mk {
  position : THREE.Vector3;
  velocity : THREE.Vector3;
  activity : R;
  mass : R;
  restitution : R;
  friction : R;
  angularVelocity : THREE.Vector3;
  lastCollisionTime : R;
  rotation : THREE.Vector3      (* mesh.rotation *)
}.
End Node.

Module Ripple.
Record t : Type := mk {
  position : THREE.Vector3;
  normal : THREE.Vector3;
  age : R;
  maxAge : R;
  maxRadius : R;
  wallType : WallType;
  scale : R;                    (* mesh.scale *)
  opacity : R                   (* material.uniforms.opacity.value *)
}.
End Ripple.

Module Particle.
Record t : Type := mk {
  startNode : nat;              (* index of the node in the pool at spawn *)
  endNode : nat;
  progress : R;
  speed : R;
  lifespan : R;
  age : R;
  opacity : R                   (* mesh.material.opacity *)
}.
End Particle.

Record PresetData : Type := mkPreset {
  name : string;
  nodeCount : Z;
  nodeSpeed : R;
  activitySpeed : R;
  connectionOpacity : R;
  spaceSize : R;
  mouseInfluenceRadius : R;
  backgroundColor : THREE.Color;
  nodeColor : THREE.Color;
  connectionColor : THREE.Color;
  showAllConnections : bool;
  particleCount : Z;
  particleSpeed : R;
  particleSize : R;
  particleColor : THREE.Color;
  showParticles : bool;
  rippleIntensity : R;
  rippleDuration : R;
  rippleSize : R;
  rippleColor : THREE.Color;
  showRipples : bool;
  wallRestitution : R;
  wallFriction : R
}.

Record Camera : Type := mkCamera { fov : R; aspect : R }.

(** The controller object ([this]).  The tunable fields ([this.nodeCount],
    ..., [this.wallFriction], with [this.currentPresetName] as [name]) are
    grouped in [params]. *)
Record Animation : Type := mkAnimation {
  params : PresetData;
  camera : Camera;
  nodes : list Node.t;
  particles : list Particle.t;
  ripples : list Ripple.t;
  isTransitioning : bool;
  transitionStartTime : R;
  transitionDuration : R;
  transitionEasing : string;
  fromPreset : option PresetData;
  toPreset : option PresetData;
  rng : nat                       (* cursor into the [Math.random] stream *)
}.

Definition set_params (p : PresetData) (a : Animation) : Animation :=
  mkAnimation p (camera a) (nodes a) (particles a) (ripples a)
    (isTransitioning a) (transitionStartTime a) (transitionDuration a)
    (transitionEasing a) (fromPreset a) (toPreset a) (rng a).

Definition set_nodes (ns : list Node.t) (a : Animation) : Animation :=
  mkAnimation (params a) (camera a) ns (particles a) (ripples a)
    (isTransitioning a) (transitionStartTime a) (transitionDuration a)
    (transitionEasing a) (fromPreset a) (toPreset a) (rng a).

Definition set_particles (ps : list Particle.t) (a : Animation) : Animation :=
  mkAnimation (params a) (camera a) (nodes a) ps (ripples a)
    (isTransitioning a) (transitionStartTime a) (transitionDuration a)
    (transitionEasing a) (fromPreset a) (toPreset a) (rng a).

Definition set_ripples (rs : list Ripple.t) (a : Animation) : Animation :=
  mkAnimation (params a) (camera a) (nodes a) (particles a) rs
    (isTransitioning a) (transitionStartTime a) (transitionDuration a)
    (transitionEasing a) (fromPreset a) (toPreset a) (rng a).

Definition set_rng (k : nat) (a : Animation) : Animation :=
  mkAnimation (params a) (camera a) (nodes a) (particles a) (ripples a)
    (isTransitioning a) (transitionStartTime a) (transitionDuration a)
    (transitionEasing a) (fromPreset a) (toPreset a) k.

(** The box volume seen by the camera at the nominal depth. *)
Definition depth : R := 20.

Definition frustumHeight (c : Camera) : R :=
  2 * tan ((fov c * PI / 180) / 2) * depth.

Definition frustumWidth (c : Camera) : R := frustumHeight c * aspect c.

Definition boundaryX (c : Camera) : R := frustumWidth c * 0.5.
Definition boundaryY (c : Camera) : R := frustumHeight c * 0.5.
Definition boundaryZ (c : Camera) : R := depth * 0.4.

Definition minTimeBetweenCollisions : R := 0.1.
Definition deltaTime : R := 1 / 60.

(** Field updates of a node ([node.f = v]). *)
Definition set_position (p : THREE.Vector3) (n : Node.t) : Node.t :=
  Node.mk p (Node.velocity n) (Node.activity n) (Node.mass n)
    (Node.restitution n) (Node.friction n) (Node.angularVelocity n)
    (Node.lastCollisionTime n) (Node.rotation n).

Definition set_velocity (v : THREE.Vector3) (n : Node.t) : Node.t :=
  Node.mk (Node.position n) v (Node.activity n) (Node.mass n)
    (Node.restitution n) (Node.friction n) (Node.angularVelocity n)
    (Node.lastCollisionTime n) (Node.rotation n).

Definition set_activity (v : R) (n : Node.t) : Node.t :=
  Node.mk (Node.position n) (Node.velocity n) v (Node.mass n)
    (Node.restitution n) (Node.friction n) (Node.angularVelocity n)
    (Node.lastCollisionTime n) (Node.rotation n).

Definition set_angularVelocity (w : THREE.Vector3) (n : Node.t) : Node.t :=
  Node.mk (Node.position n) (Node.velocity n) (Node.activity n) (Node.mass n)
    (Node.restitution n) (Node.friction n) w
    (Node.lastCollisionTime n) (Node.rotation n).

Definition set_lastCollisionTime (v : R) (n : Node.t) : Node.t :=
  Node.mk (Node.position n) (Node.velocity n) (Node.activity n) (Node.mass n)
    (Node.restitution n) (Node.friction n) (Node.angularVelocity n)
    v (Node.rotation n).

Definition set_rotation (w : THREE.Vector3) (n : Node.t) : Node.t :=
  Node.mk (Node.position n) (Node.velocity n) (Node.activity n) (Node.mass n)
    (Node.restitution n) (Node.friction n) (Node.angularVelocity n)
    (Node.lastCollisionTime n) w.

(** The state of one run of the [forEach] callback of [updateNodes]: the node
    being updated, the local flag [collisionOccurred], and the controller
    (ripple pool, random cursor). *)
Record Step : Type := mkStep {
  node : Node.t;
  collisionOccurred : bool;
  world : Animation
}.

Definition on_node (f : Node.t -> Node.t) (s : Step) : Step :=
  mkStep (f (node s)) (collisionOccurred s) (world s).

Section Controller.

(** The values [Math.random()] returns, in call order; each in [0, 1). *)
Variable rnd : nat -> R.

Definition random (a : Animation) : R * Animation :=
  (rnd (rng a), set_rng (S (rng a)) a).

(** *** Ripples: spawn *)

Definition createRipple (a : Animation) (position normal : THREE.Vector3)
    (wallType : WallType) : Ripple.t :=
  let rippleRadius := 4.0 * rippleIntensity (params a) * rippleSize (params a) in
  Ripple.mk position normal 0 (rippleDuration (params a)) rippleRadius
    wallType 1 0.6.

(** [if (this.showRipples) this.ripples.push(this.createRipple(...))] *)
Definition emitRipple (ripplePos normal : THREE.Vector3) (wallType : WallType)
    (s : Step) : Step :=
  let a := world s in
  if showRipples (params a)
  then mkStep (node s) (collisionOccurred s)
         (set_ripples (ripples a ++ [createRipple a ripplePos normal wallType]) a)
  else s.

(** *** Node motion and wall collisions *)

(** [angularVelocity.add(new THREE.Vector3(... Math.random() ...))] *)
Definition angularImpulse (impactSpeed : R) (s : Step) : Step :=
  let '(r1, a1) := random (world s) in
  let '(r2, a2) := random a1 in
  let '(r3, a3) := random a2 in
  let kick := THREE.mkVector3 ((r1 - 0.5) * impactSpeed * 0.1)
                ((r2 - 0.5) * impactSpeed * 0.1)
                ((r3 - 0.5) * impactSpeed * 0.1) in
  let n := node s in
  mkStep (set_angularVelocity (THREE.add (Node.angularVelocity n) kick) n)
    (collisionOccurred s) a3.

(** [node.lastCollisionTime = time; collisionOccurred = true] *)
Definition stamp (time : R) (s : Step) : Step :=
  mkStep (set_lastCollisionTime time (node s)) true (world s).

(** The collision response on each axis: the body of the inner [if] of the
    two walls of that axis, up to the ripple. *)
Definition bounceX (time : R) (s : Step) : Step :=
  let n := node s in
  let v := Node.velocity n in
  let a := world s in
  let impactSpeed := Math.abs (THREE.x v) in
  let v' := THREE.mkVector3
              (- THREE.x v * (Node.restitution n * wallRestitution (params a)))
              (THREE.y v * wallFriction (params a))
              (THREE.z v * wallFriction (params a)) in
  stamp time (angularImpulse impactSpeed (on_node (set_velocity v') s)).

Definition bounceY (time : R) (s : Step) : Step :=
  let n := node s in
  let v := Node.velocity n in
  let a := world s in
  let impactSpeed := Math.abs (THREE.y v) in
  let v' := THREE.mkVector3
              (THREE.x v * wallFriction (params a))
              (- THREE.y v * (Node.restitution n * wallRestitution (params a)))
              (THREE.z v * wallFriction (params a)) in
  stamp time (angularImpulse impactSpeed (on_node (set_velocity v') s)).

Definition bounceZ (time : R) (s : Step) : Step :=
  let n := node s in
  let v := Node.velocity n in
  let a := world s in
  let impactSpeed := Math.abs (THREE.z v) in
  let v' := THREE.mkVector3
              (THREE.x v * wallFriction (params a))
              (THREE.y v * wallFriction (params a))
              (- THREE.z v * (Node.restitution n * wallRestitution (params a))) in
  stamp time (angularImpulse impactSpeed (on_node (set_velocity v') s)).

(** The debounce test of the inner [if], without the velocity test. *)
Definition debounced (time : R) (s : Step) : bool :=
  Rgt_b (time - Node.lastCollisionTime (node s)) minTimeBetweenCollisions.

(** X-axis collisions (left/right walls). *)
Definition collideX (time bX : R) (s : Step) : Step :=
  if Rgt_b (THREE.x (Node.position (node s))) bX then
    let s1 := on_node (fun n => set_position (THREE.setX (Node.position n) bX) n) s in
    if Rgt_b (THREE.x (Node.velocity (node s1))) 0 && debounced time s1 then
      let s2 := bounceX time s1 in
      let p := Node.position (node s2) in
      emitRipple (THREE.mkVector3 bX (THREE.y p) (THREE.z p))
        (THREE.mkVector3 (-1) 0 0) right s2
    else s1
  else if Rlt_b (THREE.x (Node.position (node s))) (- bX) then
    let s1 := on_node (fun n => set_position (THREE.setX (Node.position n) (- bX)) n) s in
    if Rlt_b (THREE.x (Node.velocity (node s1))) 0 && debounced time s1 then
      let s2 := bounceX time s1 in
      let p := Node.position (node s2) in
      emitRipple (THREE.mkVector3 (- bX) (THREE.y p) (THREE.z p))
        (THREE.mkVector3 1 0 0) left s2
    else s1
  else s.

(** Y-axis collisions (floor/ceiling). *)
Definition collideY (time bY : R) (s : Step) : Step :=
  if Rgt_b (THREE.y (Node.position (node s))) bY then
    let s1 := on_node (fun n => set_position (THREE.setY (Node.position n) bY) n) s in
    if Rgt_b (THREE.y (Node.velocity (node s1))) 0 && debounced time s1 then
      let s2 := bounceY time s1 in
      let p := Node.position (node s2) in
      emitRipple (THREE.mkVector3 (THREE.x p) bY (THREE.z p))
        (THREE.mkVector3 0 (-1) 0) ceiling s2
    else s1
  else if Rlt_b (THREE.y (Node.position (node s))) (- bY) then
    let s1 := on_node (fun n => set_position (THREE.setY (Node.position n) (- bY)) n) s in
    if Rlt_b (THREE.y (Node.velocity (node s1))) 0 && debounced time s1 then
      let s2 := bounceY time s1 in
      let p := Node.position (node s2) in
      emitRipple (THREE.mkVector3 (THREE.x p) (- bY) (THREE.z p))
        (THREE.mkVector3 0 1 0) floor s2
    else s1
  else s.

(** Z-axis collisions (front/back walls); no ripple on the front wall. *)
Definition collideZ (time bZ : R) (s : Step) : Step :=
  if Rgt_b (THREE.z (Node.position (node s))) bZ then
    let s1 := on_node (fun n => set_position (THREE.setZ (Node.position n) bZ) n) s in
    if Rgt_b (THREE.z (Node.velocity (node s1))) 0 && debounced time s1 then
      bounceZ time s1
    else s1
  else if Rlt_b (THREE.z (Node.position (node s))) (- bZ) then
    let s1 := on_node (fun n => set_position (THREE.setZ (Node.position n) (- bZ)) n) s in
    if Rlt_b (THREE.z (Node.velocity (node s1))) 0 && debounced time s1 then
      let s2 := bounceZ time s1 in
      let p := Node.position (node s2) in
      emitRipple (THREE.mkVector3 (THREE.x p) (THREE.y p) (- bZ))
        (THREE.mkVector3 0 0 1) back s2
    else s1
  else s.

(** [position.add(velocity.clone().multiplyScalar(this.nodeSpeed))], after
    the activity oscillator. *)
Definition integrate (time : R) (index : nat) (a : Animation) (n : Node.t)
    : Node.t :=
  let n1 := set_activity
              ((sin (time * activitySpeed (params a) + INR index) + 1) * 0.5) n in
  set_position
    (THREE.add (Node.position n1)
       (THREE.multiplyScalar (Node.velocity n1) (nodeSpeed (params a)))) n1.

(** The three collision tests, in source order. *)
Definition collide (time : R) (s : Step) : Step :=
  let c := camera (world s) in
  collideZ time (boundaryZ c)
    (collideY time (boundaryY c)
       (collideX time (boundaryX c) s)).

(** Angular damping, then the rotation of the mesh: the angular velocity,
    plus the idle spin when no collision occurred in this step.  (The mouse
    influence, the scale and the colour of the mesh are rendering only.) *)
Definition spin (s : Step) : Step :=
  let n := on_node (fun n => set_angularVelocity
              (THREE.multiplyScalar (Node.angularVelocity n) 0.98) n) s in
  let w := Node.angularVelocity (node n) in
  let r1 := THREE.add (Node.rotation (node n)) w in
  let k := nodeSpeed (params (world s)) in
  let r2 := if negb (collisionOccurred s)
            then THREE.add r1 (THREE.mkVector3 (0.005 * k) (0.008 * k) (0.003 * k))
            else r1 in
  on_node (set_rotation r2) n.

(** One run of the callback of [this.nodes.forEach] in [updateNodes]. *)
Definition updateNode (time : R) (index : nat) (a : Animation) (n : Node.t)
    : Step :=
  spin (collide time (mkStep (integrate time index a n) false a)).

Fixpoint forEachNode (time : R) (index : nat) (ns : list Node.t)
    (a : Animation) : list Node.t * Animation :=
  match ns with
  | [] => ([], a)
  | n :: rest =>
      let s := updateNode time index a n in
      let '(rest', a') := forEachNode time (S index) rest (world s) in
      (node s :: rest', a')
  end.

(** [updateNodes]; the geometry of the connection lines, refreshed at the
    end from the node positions, is rendering only. *)
Definition updateNodes (time : R) (a : Animation) : Animation :=
  let '(ns, a') := forEachNode time 0 (nodes a) a in
  set_nodes ns a'.

(** *** Ripples: update *)

(** One iteration of the loop of [updateRipples]: [None] when the ripple is
    spliced out of the pool.  The age is an exact sum here; in binary64
    every addition is rounded ([Binary64.ageAfter]), which can move the
    update that retires the ripple by one. *)
Definition updateRipple (r : Ripple.t) : option Ripple.t :=
  let age := Ripple.age r + deltaTime in
  if Rge_b age (Ripple.maxAge r) then None
  else
    let progress := age / Ripple.maxAge r in
    let currentScale := Ripple.maxRadius r * progress in
    let opacity := 0.6 * (1 - progress * progress * progress) in
    Some (Ripple.mk (Ripple.position r) (Ripple.normal r) age
            (Ripple.maxAge r) (Ripple.maxRadius r) (Ripple.wallType r)
            currentScale opacity).

(** The loop runs from the last index down and splices in place, so the
    survivors keep their order. *)
Fixpoint survivors {A : Type} (f : A -> option A) (l : list A) : list A :=
  match l with
  | [] => []
  | r :: rest =>
      match f r with
      | Some r' => r' :: survivors f rest
      | None => survivors f rest
      end
  end.

Definition updateRipples (a : Animation) : Animation :=
  set_ripples (survivors updateRipple (ripples a)) a.

(** *** Particles *)

Definition createParticle (startNode endNode : nat) (a : Animation)
    : Particle.t * Animation :=
  let '(r, a1) := random a in
  (Particle.mk startNode endNode 0
     (particleSpeed (params a) * (0.5 + r * 0.5)) 3.0 0 1.0, a1).

(** One iteration of the first loop of [updateParticles]: [None] when the
    particle is spliced out of the pool.  Age and progress are exact sums
    here, as for ripples. *)
Definition updateParticle (p : Particle.t) : option Particle.t :=
  let age := Particle.age p + deltaTime in
  let progress := Particle.progress p + Particle.speed p * deltaTime in
  if Rge_b progress 1.0 || Rge_b age (Particle.lifespan p) then None
  else
    let fadeProgress := age / Particle.lifespan p in
    let opacity := 0.8 * (1 - fadeProgress * fadeProgress) in
    Some (Particle.mk (Particle.startNode p) (Particle.endNode p) progress
            (Particle.speed p) (Particle.lifespan p) age opacity).

(** The body of the inner [for (j = i + 1; ...)] loop, over the nodes after
    [nodeA]. *)
Fixpoint spawnInner (spawnProbability : R) (i : nat) (nodeA : Node.t)
    (j : nat) (rest : list Node.t) (a : Animation) : Animation :=
  match rest with
  | [] => a
  | nodeB :: rest' =>
      let activityFactor :=
        Math.max 0.3 ((Node.activity nodeA + Node.activity nodeB) * 0.5) in
      let finalProbability := spawnProbability * activityFactor in
      let '(r, a1) := random a in
      let a2 :=
        if Rlt_b r finalProbability then
          let '(d, a') := random a1 in
          let startNode := if Rlt_b d 0.5 then i else j in
          let endNode := if Nat.eqb startNode i then j else i in
          let '(p, a'') := createParticle startNode endNode a' in
          set_particles (particles a'' ++ [p]) a''
        else a1 in
      spawnInner spawnProbability i nodeA (S j) rest' a2
  end.

Fixpoint spawnOuter (spawnProbability : R) (i : nat) (ns : list Node.t)
    (a : Animation) : Animation :=
  match ns with
  | [] => a
  | nodeA :: rest =>
      spawnOuter spawnProbability (S i) rest
        (spawnInner spawnProbability i nodeA (S i) rest a)
  end.

(** A division whose divisor is checked: [None] stands for a division by
    zero (which JavaScript would carry on with, as [Infinity] or [NaN]). *)
Definition divide (a b : R) : option R :=
  if Req_dec_T b 0 then None else Some (a / b).

(** The second half of [updateParticles]: new particles from node activity. *)
Definition spawnParticles (a : Animation) : option Animation :=
  if showParticles (params a) && Nat.ltb 1 (List.length (nodes a)) then
    let n := INR (List.length (nodes a)) in
    let totalConnections := (n * (n - 1)) / 2 in
    match divide (IZR (particleCount (params a)) * deltaTime * 2)
            totalConnections with
    | Some spawnProbability => Some (spawnOuter spawnProbability 0 (nodes a) a)
    | None => None
    end
  else Some a.

Definition updateParticles (a : Animation) : option Animation :=
  spawnParticles (set_particles (survivors updateParticle (particles a)) a).

(** *** The spatial sampler *)

Definition randomPoint (width height depth : R) (a : Animation)
    : THREE.Vector3 * Animation :=
  let '(r1, a1) := random a in
  let '(r2, a2) := random a1 in
  let '(r3, a3) := random a2 in
  (THREE.mkVector3 ((r1 - 0.5) * width) ((r2 - 0.5) * height)
     ((r3 - 0.5) * depth), a3).

(** [validPosition]: no existing point is closer than [minDistance]. *)
Definition validPosition (candidate : THREE.Vector3)
    (points : list THREE.Vector3) (minDistance : R) : bool :=
  forallb (fun existingPoint =>
             negb (Rlt_b (THREE.distanceTo candidate existingPoint) minDistance))
    points.

(** [for (attempt = 0; attempt < maxAttempts && !placed; attempt++)]: the
    candidate placed, if any, within [attemptsLeft] attempts. *)
Fixpoint tryPlace (attemptsLeft : nat) (minDistance width height depth : R)
    (points : list THREE.Vector3) (a : Animation)
    : option THREE.Vector3 * Animation :=
  match attemptsLeft with
  | O => (None, a)
  | S k =>
      let '(candidate, a1) := randomPoint width height depth a in
      if validPosition candidate points minDistance then (Some candidate, a1)
      else tryPlace k minDistance width height depth points a1
  end.

Definition maxAttempts : nat := 30.

(** The body of [while (points.length < numPoints)]. *)
Definition placePoint (minDistance width height depth : R)
    (points : list THREE.Vector3) (a : Animation)
    : list THREE.Vector3 * Animation :=
  match tryPlace maxAttempts minDistance width height depth points a with
  | (Some candidate, a1) => (points ++ [candidate], a1)
  | (None, a1) =>
      let relaxedDistance := minDistance * 0.9 in
      match tryPlace maxAttempts relaxedDistance width height depth points a1 with
      | (Some candidate, a2) => (points ++ [candidate], a2)
      | (None, a2) =>
          let '(p, a3) := randomPoint width height depth a2 in
          (points ++ [p], a3)
      end
  end.

(** The [while] loop, with [fuel] bounding the number of iterations: [None]
    when the bound is reached before the loop condition fails. *)
Fixpoint samplingLoop (fuel : nat) (numPoints : Z)
    (minDistance width height depth : R)
    (points : list THREE.Vector3) (a : Animation)
    : option (list THREE.Vector3 * Animation) :=
  if (Z.of_nat (List.length points) <? numPoints)%Z then
    match fuel with
    | O => None
    | S fuel' =>
        let '(points', a') := placePoint minDistance width height depth points a in
        samplingLoop fuel' numPoints minDistance width height depth points' a'
    end
  else Some (points, a).

Definition generatePoissonDiskSampling (fuel : nat) (numPoints : Z)
    (width height depth : R) (a : Animation)
    : option (list THREE.Vector3 * Animation) :=
  let minDistance :=
    Math.min3 width height depth / Math.sqrt (IZR numPoints) * 0.8 in
  let '(points, a1) :=
    if (0 <? numPoints)%Z
    then let '(p, a1) := randomPoint width height depth a in ([p], a1)
    else ([], a) in
  samplingLoop fuel numPoints minDistance width height depth points a1.

(** *** The node pool *)

(** The object literal of [createNodes], its [Math.random()] calls in
    evaluation order. *)
Definition newNode (position : THREE.Vector3) (a : Animation)
    : Node.t * Animation :=
  let '(v1, a1) := random a in
  let '(v2, a2) := random a1 in
  let '(v3, a3) := random a2 in
  let '(act, a4) := random a3 in
  let '(m, a5) := random a4 in
  let '(r, a6) := random a5 in
  let '(f, a7) := random a6 in
  let '(w1, a8) := random a7 in
  let '(w2, a9) := random a8 in
  let '(w3, a10) := random a9 in
  (Node.mk position
     (THREE.mkVector3 ((v1 - 0.5) * 0.3) ((v2 - 0.5) * 0.3) ((v3 - 0.5) * 0.2))
     act (1.0 + m * 0.5) (0.6 + r * 0.3) (0.9 + f * 0.1)
     (THREE.mkVector3 ((w1 - 0.5) * 0.02) ((w2 - 0.5) * 0.02) ((w3 - 0.5) * 0.02))
     0 (THREE.mkVector3 0 0 0), a10).

(** [for (let i = 0; i < this.nodeCount; i++)], from index [i], [count]
    iterations left. *)
Fixpoint pushNodes (count i : nat) (positions : list THREE.Vector3)
    (width height : R) (a : Animation) : Animation :=
  match count with
  | O => a
  | S count' =>
      let '(position, a1) :=
        match nth_error positions i with
        | Some p => (p, a)
        | None => randomPoint width height (depth * 0.8) a
        end in
      let '(n, a2) := newNode position a1 in
      pushNodes count' (S i) positions width height
        (set_nodes (nodes a2 ++ [n]) a2)
  end.

(** [createNodes]; the sampling loop is given as many iterations as there
    are points to place. *)
Definition createNodes (a : Animation) : option Animation :=
  let height := frustumHeight (camera a) in
  let width := frustumWidth (camera a) in
  let count := Z.to_nat (nodeCount (params a)) in
  match generatePoissonDiskSampling count (nodeCount (params a))
          width height (depth * 0.8) a with
  | Some (positions, a1) => Some (pushNodes count 0 positions width height a1)
  | None => None
  end.

Definition recreateNodes (a : Animation) : option Animation :=
  createNodes (set_nodes [] a).

(** *** Clearing the pools *)

Definition clearAllRipples (a : Animation) : Animation := set_ripples [] a.

Definition clearAllParticles (a : Animation) : Animation := set_particles [] a.

(** [updateParticleVisibility]: the pool is cleared when particles are
    disabled (the [visible] flag of the group is rendering only). *)
Definition updateParticleVisibility (a : Animation) : Animation :=
  if showParticles (params a) then a else clearAllParticles a.

Definition updateRippleVisibility (a : Animation) : Animation :=
  if showRipples (params a) then a else clearAllRipples a.

(** *** The preset interpolation engine *)

Definition bounce (t : R) : R :=
  let n1 := 7.5625 in
  let d1 := 2.75 in
  if Rlt_b t (1 / d1) then n1 * t * t
  else if Rlt_b t (2 / d1) then
    let t := t - 1.5 / d1 in n1 * t * t + 0.75
  else if Rlt_b t (2.5 / d1) then
    let t := t - 2.25 / d1 in n1 * t * t + 0.9375
  else
    let t := t - 2.625 / d1 in n1 * t * t + 0.984375.

Definition elastic (t : R) : R :=
  let c4 := (2 * PI) / 3 in
  if Req_b t 0 then 0
  else if Req_b t 1 then 1
  else - Math.pow 2 (10 * t - 10) * sin ((t * 10 - 10.75) * c4).

Definition getEasingFunction (type : string) : R -> R :=
  if String.eqb type "linear" then fun t => t
  else if String.eqb type "ease-in" then fun t => t * t * t
  else if String.eqb type "ease-out" then fun t => 1 - Math.pow (1 - t) 3
  else if String.eqb type "ease-in-out" then
    fun t => if Rlt_b t 0.5 then 4 * t * t * t
             else 1 - Math.pow (-2 * t + 2) 3 / 2
  else if String.eqb type "bounce" then bounce
  else if String.eqb type "elastic" then elastic
  else fun t => t.

(** [lerp].  Over the reals [lerp start end 1] is [end]; in binary64 the
    sum is rounded and can miss [end] in the last bit ([Binary64.lerp]). *)
Definition lerp (start end_ t : R) : R := start + (end_ - start) * t.

Definition lerpChannel (s e : byte) (t : R) : byte :=
  THREE.toChannel (lerp (THREE.channel s) (THREE.channel e) t).

Definition lerpColor (startColor endColor : THREE.Color) (t : R)
    : THREE.Color :=
  THREE.mkColor
    (lerpChannel (THREE.red startColor) (THREE.red endColor) t)
    (lerpChannel (THREE.green startColor) (THREE.green endColor) t)
    (lerpChannel (THREE.blue startColor) (THREE.blue endColor) t).

Definition getCurrentPreset (a : Animation) : PresetData := params a.

Definition startTransition (now : R) (toPreset : PresetData) (a : Animation)
    : Animation :=
  if isTransitioning a then a
  else
    mkAnimation (params a) (camera a) (nodes a) (particles a) (ripples a)
      true now (transitionDuration a) (transitionEasing a)
      (Some (getCurrentPreset a)) (Some toPreset) (rng a).

(** The parameter bag after the interpolation of one frame. *)
Definition interpolate (current from to : PresetData) (t : R) : PresetData :=
  let toggle (f : PresetData -> bool) :=
    if Rge_b t 0.5 then f to else f from in
  {| name := name current;
     nodeCount := Math.round (lerp (IZR (nodeCount from)) (IZR (nodeCount to)) t);
     nodeSpeed := lerp (nodeSpeed from) (nodeSpeed to) t;
     activitySpeed := lerp (activitySpeed from) (activitySpeed to) t;
     connectionOpacity := lerp (connectionOpacity from) (connectionOpacity to) t;
     spaceSize := lerp (spaceSize from) (spaceSize to) t;
     mouseInfluenceRadius :=
       lerp (mouseInfluenceRadius from) (mouseInfluenceRadius to) t;
     backgroundColor := lerpColor (backgroundColor from) (backgroundColor to) t;
     nodeColor := lerpColor (nodeColor from) (nodeColor to) t;
     connectionColor := lerpColor (connectionColor from) (connectionColor to) t;
     showAllConnections := toggle showAllConnections;
     particleCount :=
       Math.round (lerp (IZR (particleCount from)) (IZR (particleCount to)) t);
     particleSpeed := lerp (particleSpeed from) (particleSpeed to) t;
     particleSize := lerp (particleSize from) (particleSize to) t;
     particleColor := lerpColor (particleColor from) (particleColor to) t;
     showParticles := toggle showParticles;
     rippleIntensity := lerp (rippleIntensity from) (rippleIntensity to) t;
     rippleDuration := lerp (rippleDuration from) (rippleDuration to) t;
     rippleSize := lerp (rippleSize from) (rippleSize to) t;
     rippleColor := lerpColor (rippleColor from) (rippleColor to) t;
     showRipples := toggle showRipples;
     wallRestitution := lerp (wallRestitution from) (wallRestitution to) t;
     wallFriction := lerp (wallFriction from) (wallFriction to) t |}.

Definition set_name (s : string) (p : PresetData) : PresetData :=
  mkPreset s (nodeCount p) (nodeSpeed p) (activitySpeed p)
    (connectionOpacity p) (spaceSize p) (mouseInfluenceRadius p)
    (backgroundColor p) (nodeColor p) (connectionColor p)
    (showAllConnections p) (particleCount p) (particleSpeed p)
    (particleSize p) (particleColor p) (showParticles p)
    (rippleIntensity p) (rippleDuration p) (rippleSize p) (rippleColor p)
    (showRipples p) (wallRestitution p) (wallFriction p).

(** [if (progress >= 1) { ... }]: the end of the transition. *)
Definition endTransition (to : PresetData) (a : Animation) : Animation :=
  mkAnimation (set_name (name to) (params a)) (camera a) (nodes a)
    (particles a) (ripples a) false (transitionStartTime a)
    (transitionDuration a) (transitionEasing a) None None (rng a).

(** [Math.min(elapsed / this.transitionDuration, 1)].  With a duration of
    zero the quotient is [Infinity] once time has passed, and the minimum is
    1; it is [NaN] at the very instant of the start and [-Infinity] before
    it, and then every interpolated number is [NaN] or infinite: no state of
    this model, [None]. *)
Definition progressOf (elapsed transitionDuration : R) : option R :=
  match divide elapsed transitionDuration with
  | Some quotient => Some (Math.min quotient 1)
  | None => if Rgt_b elapsed 0 then Some 1 else None
  end.

(** [updateTransition]: the interpolation of every parameter, the two
    visibility updates (which clear a pool whose toggle is off), the rebuild
    of the node pool when the count has changed, and the end test.  [None]
    when the progress is no real number (see [progressOf]), or if the
    rebuild of the node pool runs out of iterations.  (The refresh of
    colours, sizes and of the control panel is rendering only.) *)
Definition updateTransition (now : R) (a : Animation) : option Animation :=
  match isTransitioning a, fromPreset a, toPreset a with
  | true, Some from, Some to =>
      let elapsed := (now - transitionStartTime a) / 1000 in
      match progressOf elapsed (transitionDuration a) with
      | Some progress =>
          let easingFunc := getEasingFunction (transitionEasing a) in
          let t := easingFunc progress in
          let a1 := set_params (interpolate (params a) from to t) a in
          let a2 := updateRippleVisibility (updateParticleVisibility a1) in
          let rebuilt :=
            if Rgt_b (Math.abs (IZR (nodeCount (params a2))
                                - INR (List.length (nodes a2)))) 0
            then recreateNodes a2 else Some a2 in
          match rebuilt with
          | Some a3 =>
              Some (if Rge_b progress 1 then endTransition to a3 else a3)
          | None => None
          end
      | None => None
      end
  | _, _, _ => Some a
  end.

(** *** The frame *)

Definition animate (now time : R) (a : Animation) : option Animation :=
  match updateTransition now a with
  | Some a1 =>
      match updateParticles (updateNodes time a1) with
      | Some a2 => Some (updateRipples a2)
      | None => None
      end
  | None => None
  end.

End Controller.

(** * Vocabulary of the properties *)

(** A perspective camera: a vertical field of view strictly between 0 and
    180 degrees, and an aspect ratio that is not negative. *)
Definition valid_camera (c : Camera) : Prop :=
  0 < fov c < 180 /\ 0 <= aspect c.

(** The position lies in the box volume of the camera. *)
Definition inside_box (c : Camera) (p : THREE.Vector3) : Prop :=
  Rabs (THREE.x p) <= boundaryX c /\
  Rabs (THREE.y p) <= boundaryY c /\
  Rabs (THREE.z p) <= boundaryZ c.

(** The three axes of the box, in the order the collision tests run. *)
Inductive Axis : Type := AxisX | AxisY | AxisZ.

Definition coord (ax : Axis) (p : THREE.Vector3) : R :=
  match ax with
  | AxisX => THREE.x p
  | AxisY => THREE.y p
  | AxisZ => THREE.z p
  end.

Definition boundary (ax : Axis) (c : Camera) : R :=
  match ax with
  | AxisX => boundaryX c
  | AxisY => boundaryY c
  | AxisZ => boundaryZ c
  end.

(** [before a b]: the test of axis [a] runs before the test of axis [b]. *)
Definition before (a b : Axis) : Prop :=
  match a, b with
  | AxisX, AxisY | AxisX, AxisZ | AxisY, AxisZ => True
  | _, _ => False
  end.

(** The node has crossed a wall of axis [ax] and moves away from the box
    along that axis. *)
Definition crossesOutward (c : Camera) (ax : Axis) (n : Node.t) : Prop :=
  (coord ax (Node.position n) > boundary ax c /\ coord ax (Node.velocity n) > 0)
  \/ (coord ax (Node.position n) < - boundary ax c
      /\ coord ax (Node.velocity n) < 0).

Definition insideOn (c : Camera) (ax : Axis) (n : Node.t) : Prop :=
  - boundary ax c <= coord ax (Node.position n) <= boundary ax c.

(** The wall a node that crosses outward on [ax] has hit, when that wall
    carries ripples (the front wall does not). *)
Definition wallHit (ax : Axis) (n : Node.t) : option WallType :=
  match ax with
  | AxisX => Some (if Rgt_b (THREE.x (Node.velocity n)) 0 then right else left)
  | AxisY => Some (if Rgt_b (THREE.y (Node.velocity n)) 0 then ceiling else floor)
  | AxisZ => if Rgt_b (THREE.z (Node.velocity n)) 0 then None else Some back
  end.

(** A block that only clamped: the step differs at most in the position. *)
Definition quiet (s s' : Step) : Prop :=
  node s' = set_position (Node.position (node s')) (node s)
  /\ collisionOccurred s' = collisionOccurred s
  /\ world s' = world s.

(** The walls of the ripples in the pool, oldest first. *)
Definition rippleWalls (a : Animation) : list WallType :=
  map Ripple.wallType (ripples a).

(** The ripples a collision on a wall adds to the pool. *)
Definition ripplesFor (a : Animation) (w : option WallType) : list WallType :=
  match w with
  | Some w => if showRipples (params a) then [w] else []
  | None => []
  end.

(** * Sample data *)

(** The parameters the constructor starts with. *)
Definition Default : PresetData :=
  {| name := "Default";
     nodeCount := 12;
     nodeSpeed := 0.5;
     activitySpeed := 2.0;
     connectionOpacity := 0.3;
     spaceSize := 15;
     mouseInfluenceRadius := 5.0;
     backgroundColor := THREE.mkColor x0a x0a x1a;
     nodeColor := THREE.mkColor xff x6b x6b;
     connectionColor := THREE.mkColor x4f xc3 xf7;
     showAllConnections := true;
     particleCount := 8;
     particleSpeed := 1.0;
     particleSize := 0.2;
     particleColor := THREE.mkColor xff xff x00;
     showParticles := true;
     rippleIntensity := 0.8;
     rippleDuration := 2.0;
     rippleSize := 1.0;
     rippleColor := THREE.mkColor xff xff xff;
     showRipples := true;
     wallRestitution := 0.7;
     wallFriction := 0.95 |}.

(** The camera of [init]: 75 degrees; a window twice as wide as high. *)
Definition sampleCamera : Camera := mkCamera 75 2.

(** The controller at rest with the given node pool. *)
Definition scene (ns : list Node.t) : Animation :=
  mkAnimation Default sampleCamera ns [] [] false 0 2.0 "ease-in-out"
    None None 0.

(** A random stream that always answers one half. *)
Definition halves : nat -> R := fun _ => 0.5.

Definition still (position velocity : THREE.Vector3) : Node.t :=
  Node.mk position velocity 0 1.0 0.8 0.95 (THREE.mkVector3 0 0 0) 0
    (THREE.mkVector3 0 0 0).

(** A node about to leave through the right wall. *)
Definition wallNode : Node.t :=
  still (THREE.mkVector3 (boundaryX sampleCamera - 0.01) 0 0)
    (THREE.mkVector3 0.1 0 0.05).

(** A node about to leave through the corner of the right wall and the
    ceiling. *)
Definition cornerNode : Node.t :=
  still (THREE.mkVector3 (boundaryX sampleCamera - 0.01)
           (boundaryY sampleCamera - 0.01) 0)
    (THREE.mkVector3 0.1 0.1 0).

(** The step of [cornerNode] one second after its creation. *)
Definition cornerStep : Step :=
  updateNode halves 1 0 (scene [cornerNode]) cornerNode.

(** The easing kinds offered by the transition panel. *)
Definition supportedEasings : list string :=
  ["linear"; "ease-in"; "ease-out"; "ease-in-out"; "bounce"; "elastic"]%string.

(** The raw progress of the transition in flight at time [now]:
    [progress] in [updateTransition]. *)
Definition rawProgress (now : R) (a : Animation) : option R :=
  progressOf ((now - transitionStartTime a) / 1000) (transitionDuration a).

(** The parameters the transition interpolates with [lerp] and stores as
    they come (the two counts are rounded, the colours blended per channel,
    the toggles switched). *)
Definition scalarParameters : list (PresetData -> R) :=
  [nodeSpeed; activitySpeed; connectionOpacity; spaceSize;
   mouseInfluenceRadius; particleSpeed; particleSize; rippleIntensity;
   rippleDuration; rippleSize; wallRestitution; wallFriction].



(** [k] runs of the body of the sampling loop. *)
Fixpoint placePoints (rnd : nat -> R) (k : nat)
    (minDistance width height depth : R)
    (points : list THREE.Vector3) (a : Animation)
    : list THREE.Vector3 * Animation :=
  match k with
  | O => (points, a)
  | S k' =>
      let '(points', a') := placePoint rnd minDistance width height depth points a in
      placePoints rnd k' minDistance width height depth points' a'
  end.

(** The point lies in the box of the given full extents, centred at the
    origin. *)
Definition in_volume (width height depth : R) (p : THREE.Vector3) : Prop :=
  Rabs (THREE.x p) <= width / 2
  /\ Rabs (THREE.y p) <= height / 2
  /\ Rabs (THREE.z p) <= depth / 2.

(** [Math.random()] answers in [0, 1). *)
Definition unit_interval (rnd : nat -> R) : Prop :=
  forall i : nat, 0 <= rnd i < 1.

(** [a'] is [a] but for the random cursor. *)
Definition only_rng (a a' : Animation) : Prop := a' = set_rng (rng a') a.

(** [a'] is [a] but for the node pool and the random cursor. *)
Definition only_nodes_rng (a a' : Animation) : Prop :=
  a' = set_nodes (nodes a') (set_rng (rng a') a).

(** A target for the sample transitions. *)
Definition samplePreset : PresetData :=
  {| name := "Sample";
     nodeCount := 20;
     nodeSpeed := 1.2;
     activitySpeed := 3.0;
     connectionOpacity := 0.5;
     spaceSize := 20;
     mouseInfluenceRadius := 8.0;
     backgroundColor := THREE.mkColor x00 x10 x20;
     nodeColor := THREE.mkColor x4f xc3 xf7;
     connectionColor := THREE.mkColor xff xff xff;
     showAllConnections := false;
     particleCount := 15;
     particleSpeed := 2.0;
     particleSize := 0.3;
     particleColor := THREE.mkColor x00 xff x80;
     showParticles := false;
     rippleIntensity := 1.5;
     rippleDuration := 3.5;
     rippleSize := 2.0;
     rippleColor := THREE.mkColor x80 x80 xff;
     showRipples := false;
     wallRestitution := 0.9;
     wallFriction := 0.99 |}.

(** The controller at rest, asked at time 0 to move to [samplePreset]. *)
Definition inFlight : Animation := startTransition 0 samplePreset (scene []).

(** The same, with the elastic curve selected in the panel. *)
Definition inFlightElastic : Animation :=
  mkAnimation Default sampleCamera [] [] [] true 0 2.0 "elastic"
    (Some Default) (Some samplePreset) 0.


(** A ripple as [createRipple] returns it on the left wall, for the given
    [rippleDuration] and the default intensity and size. *)
Definition spawned (duration : R) : Ripple.t :=
  Ripple.mk (THREE.mkVector3 0 0 0) (THREE.mkVector3 1 0 0) 0 duration
    (4.0 * 0.8 * 1.0) left 1 0.6.

(** A pool with one particle on its way between two nodes. *)
Definition sampleParticle : Particle.t :=
  Particle.mk 0 1 0.5 1.0 3.0 1.0 0.7.

(** The controller with a single node and one particle left in the pool. *)
Definition lonely : Animation :=
  set_particles [sampleParticle] (scene [wallNode]).

(** * Further parts of the controller *)

(** ** Presets *)

(** [applyPreset]: every field assigned from the preset, the pools cleared,
    the node pool rebuilt. *)
Definition applyPreset (rnd : nat -> R) (preset : PresetData) (a : Animation)
    : option Animation :=
  let a1 := set_params preset a in
  let a2 := updateParticleVisibility a1 in
  let a3 := updateRippleVisibility a2 in
  let a4 := clearAllParticles a3 in
  let a5 := clearAllRipples a4 in
  recreateNodes rnd a5.

(** ** The connection graph *)

Module Line.
Record t : Type := mk {
  startPoint : THREE.Vector3;
  endPoint : THREE.Vector3;
  color : THREE.Color;
  opacity : R
}.
End Line.

(** The line [updateConnections] creates between two nodes. *)
Definition newLine (a : Animation) (nodeA nodeB : Node.t) : Line.t :=
  Line.mk (Node.position nodeA) (Node.position nodeB)
    (connectionColor (params a)) (connectionOpacity (params a)).

(** The two nested loops over [i < j]. *)
Fixpoint connectAll (a : Animation) (ns : list Node.t) : list Line.t :=
  match ns with
  | [] => []
  | nodeA :: rest => map (newLine a nodeA) rest ++ connectAll a rest
  end.

(** [updateConnections]: the children of [connectionLines] after the call. *)
Definition updateConnections (a : Animation) : list Line.t :=
  if showAllConnections (params a) then connectAll a (nodes a) else [].

(** [children[k] = f(children[k])] when [k] is in range. *)
Fixpoint replace_nth {A : Type} (k : nat) (f : A -> A) (l : list A) : list A :=
  match l, k with
  | [], _ => []
  | x :: l', O => f x :: l'
  | x :: l', S k' => x :: replace_nth k' f l'
  end.

(** The body of the [if] of [updateConnectionGeometry] for one pair. *)
Definition refreshLine (a : Animation) (nodeA nodeB : Node.t) (line : Line.t)
    : Line.t :=
  let avgActivity := (Node.activity nodeA + Node.activity nodeB) * 0.5 in
  Line.mk (Node.position nodeA) (Node.position nodeB) (Line.color line)
    (connectionOpacity (params a) * (0.3 + avgActivity * 0.7)).

Fixpoint refreshInner (a : Animation) (nodeA : Node.t) (rest : list Node.t)
    (connectionIndex : nat) (lines : list Line.t) : nat * list Line.t :=
  match rest with
  | [] => (connectionIndex, lines)
  | nodeB :: rest' =>
      refreshInner a nodeA rest' (S connectionIndex)
        (replace_nth connectionIndex (refreshLine a nodeA nodeB) lines)
  end.

Fixpoint refreshOuter (a : Animation) (ns : list Node.t)
    (connectionIndex : nat) (lines : list Line.t) : nat * list Line.t :=
  match ns with
  | [] => (connectionIndex, lines)
  | nodeA :: rest =>
      let '(k, lines') := refreshInner a nodeA rest connectionIndex lines in
      refreshOuter a rest k lines'
  end.

(** [updateConnectionGeometry], on the children of [connectionLines]. *)
Definition updateConnectionGeometry (a : Animation) (lines : list Line.t)
    : list Line.t :=
  snd (refreshOuter a (nodes a) 0 lines).

(** The unordered pairs of a list, in loop order. *)
Fixpoint pairs {A : Type} (l : list A) : list (A * A) :=
  match l with
  | [] => []
  | x :: rest => map (pair x) rest ++ pairs rest
  end.

(** ** The box environment *)

Record Wall : Type := mkWall {
  wall : WallType;
  planeWidth : R;
  planeHeight : R;
  planePosition : R
}.

(** [createBoxEnvironment]: the five planes handed to [createGridPlane]. *)
Definition createBoxEnvironment (c : Camera) : list Wall :=
  let height := frustumHeight c in
  let width := frustumWidth c in
  let boxWidth := width in
  let boxHeight := height in
  let boxDepth := depth * 0.8 in
  [ mkWall floor boxWidth boxDepth (- boxHeight / 2);
    mkWall ceiling boxWidth boxDepth (boxHeight / 2);
    mkWall left boxDepth boxHeight (- boxWidth / 2);
    mkWall right boxDepth boxHeight (boxWidth / 2);
    mkWall back boxWidth boxHeight (- boxDepth / 2) ].

(** The coordinate of the plane of a wall along its axis, as the collision
    tests of [updateNodes] place it. *)
Definition wallCoordinate (c : Camera) (w : WallType) : R :=
  match w with
  | floor => - boundaryY c
  | ceiling => boundaryY c
  | left => - boundaryX c
  | right => boundaryX c
  | back => - boundaryZ c
  end.

Definition wallAxis (w : WallType) : Axis :=
  match w with
  | floor | ceiling => AxisY
  | left | right => AxisX
  | back => AxisZ
  end.

(** The normal of a wall that points into the box. *)
Definition inwardNormal (w : WallType) : THREE.Vector3 :=
  match w with
  | floor => THREE.mkVector3 0 1 0
  | ceiling => THREE.mkVector3 0 (-1) 0
  | left => THREE.mkVector3 1 0 0
  | right => THREE.mkVector3 (-1) 0 0
  | back => THREE.mkVector3 0 0 1
  end.

(** The ripple lies on the plane of its wall and looks into the box. *)
Definition onItsWall (c : Camera) (r : Ripple.t) : Prop :=
  coord (wallAxis (Ripple.wallType r)) (Ripple.position r)
  = wallCoordinate c (Ripple.wallType r)
  /\ Ripple.normal r = inwardNormal (Ripple.wallType r).

(** ** Vocabulary of the further properties *)

(** [k] updates of one particle: [None] once it has been retired. *)
Fixpoint updateParticleN (k : nat) (p : Particle.t) : option Particle.t :=
  match k with
  | O => Some p
  | S k' =>
      match updateParticle p with
      | Some p' => updateParticleN k' p'
      | None => None
      end
  end.

(** A node as [createNodes] makes it: at rest inside the ranges of its
    random fields. *)
Definition freshNode (c : Camera) (n : Node.t) : Prop :=
  inside_box c (Node.position n)
  /\ Rabs (THREE.x (Node.velocity n)) <= 0.15
  /\ Rabs (THREE.y (Node.velocity n)) <= 0.15
  /\ Rabs (THREE.z (Node.velocity n)) <= 0.1
  /\ 0 <= Node.activity n < 1
  /\ 1 <= Node.mass n < 1.5
  /\ 0.6 <= Node.restitution n < 0.9
  /\ 0.9 <= Node.friction n < 1
  /\ Node.lastCollisionTime n = 0.

(** A ripple as a collision in the state [a] emits it. *)
Definition emittedBy (a : Animation) (r : Ripple.t) : Prop :=
  onItsWall (camera a) r
  /\ Ripple.age r = 0
  /\ Ripple.maxAge r = rippleDuration (params a)
  /\ Ripple.maxRadius r = 4.0 * rippleIntensity (params a) * rippleSize (params a).

(** A particle as the spawn loop of [updateParticles] adds it to the pool
    in the state [a]: at the start of its way between two different nodes of
    the pool, with a speed drawn between half the particle speed and the
    particle speed. *)
Definition spawnedIn (rnd : nat -> R) (a : Animation) (p : Particle.t) : Prop :=
  Particle.progress p = 0
  /\ Particle.age p = 0
  /\ Particle.lifespan p = 3.0
  /\ Particle.opacity p = 1.0
  /\ Particle.startNode p <> Particle.endNode p
  /\ (Particle.startNode p < List.length (nodes a))%nat
  /\ (Particle.endNode p < List.length (nodes a))%nat
  /\ exists k, Particle.speed p
               = particleSpeed (params a) * (0.5 + rnd k * 0.5).

(** * Binary64 evaluation

    The numbers of the program are IEEE binary64 values.  This module
    evaluates in binary64 the expressions of the source on which a property
    turns to the last bit: the interpolation at the end of a transition, the
    progress of a transition of duration zero, and the accumulation of the
    age of a ripple or of a particle. *)

Module Binary64.

Definition isNaN (a : float) : bool := negb (PrimFloat.eqb a a).

(** [Math.min] of two numbers (the sign of a zero result aside). *)
Definition min (a b : float) : float :=
  if isNaN a then a
  else if isNaN b then b
  else if PrimFloat.ltb b a then b else a.

Definition lerp (start end_ t : float) : float :=
  (start + (end_ - start) * t)%float.

(** [progress] in [updateTransition]. *)
Definition progress (now transitionStartTime transitionDuration : float)
    : float :=
  let elapsed := ((now - transitionStartTime) / 1000)%float in
  min (elapsed / transitionDuration)%float 1%float.


Definition deltaTime : float := (1 / 60)%float.

(** [age += deltaTime], once per update. *)
Fixpoint ageAfter (updates : nat) (age : float) : float :=
  match updates with
  | O => age
  | S k => ageAfter k (age + deltaTime)%float
  end.

(** [if (ripple.age >= ripple.maxAge)], [particle.age >= particle.lifespan]. *)
Definition expired (age maxAge : float) : bool := PrimFloat.leb maxAge age.

End Binary64.

(** * Properties *)

(** ** Comparisons *)

Lemma Rlt_b_spec (a b : R) : reflect (a < b) (Rlt_b a b).
Proof. unfold Rlt_b; destruct (Rlt_dec a b); constructor; assumption. Qed.

Lemma Rgt_b_spec (a b : R) : reflect (a > b) (Rgt_b a b).
Proof. unfold Rgt_b; destruct (Rgt_dec a b); constructor; assumption. Qed.

Lemma Rge_b_spec (a b : R) : reflect (a >= b) (Rge_b a b).
Proof. unfold Rge_b; destruct (Rge_dec a b); constructor; assumption. Qed.

Lemma Req_b_spec (a b : R) : reflect (a = b) (Req_b a b).
Proof. unfold Req_b; destruct (Req_dec_T a b); constructor; assumption. Qed.

Lemma Rlt_b_true (a b : R) : a < b -> Rlt_b a b = true.
Proof. intro H; destruct (Rlt_b_spec a b); [reflexivity | contradiction]. Qed.

Lemma Rlt_b_false (a b : R) : ~ a < b -> Rlt_b a b = false.
Proof. intro H; destruct (Rlt_b_spec a b); [contradiction | reflexivity]. Qed.

Lemma Rgt_b_true (a b : R) : a > b -> Rgt_b a b = true.
Proof. intro H; destruct (Rgt_b_spec a b); [reflexivity | contradiction]. Qed.

Lemma Rgt_b_false (a b : R) : ~ a > b -> Rgt_b a b = false.
Proof. intro H; destruct (Rgt_b_spec a b); [contradiction | reflexivity]. Qed.

Lemma Rge_b_true (a b : R) : a >= b -> Rge_b a b = true.
Proof. intro H; destruct (Rge_b_spec a b); [reflexivity | contradiction]. Qed.

Lemma Rge_b_false (a b : R) : ~ a >= b -> Rge_b a b = false.
Proof. intro H; destruct (Rge_b_spec a b); [contradiction | reflexivity]. Qed.

(** ** The box volume *)

Lemma frustumHeight_pos (c : Camera) : valid_camera c -> 0 < frustumHeight c.
Proof.
  intros [[Hlo Hhi] _]. unfold frustumHeight, depth.
  assert (Hpi := PI_RGT_0).
  assert (Ht : 0 < tan (fov c * PI / 180 / 2)).
  { apply tan_gt_0; nra. }
  nra.
Qed.

Lemma boundaries_nonneg (c : Camera) :
  valid_camera c -> 0 <= boundaryX c /\ 0 <= boundaryY c /\ 0 <= boundaryZ c.
Proof.
  intros Hc. assert (Hh := frustumHeight_pos c Hc). destruct Hc as [_ Ha].
  unfold boundaryX, boundaryY, boundaryZ, frustumWidth, depth.
  repeat split; nra.
Qed.

(** ** Node motion: what each block touches *)

Section NodeMotion.

Variable rnd : nat -> R.

Lemma node_emitRipple p nrm w s : node (emitRipple p nrm w s) = node s.
Proof. unfold emitRipple; destruct (showRipples _); reflexivity. Qed.

Lemma collisionOccurred_emitRipple p nrm w s :
  collisionOccurred (emitRipple p nrm w s) = collisionOccurred s.
Proof. unfold emitRipple; destruct (showRipples _); reflexivity. Qed.

Lemma camera_emitRipple p nrm w s :
  camera (world (emitRipple p nrm w s)) = camera (world s).
Proof. unfold emitRipple; destruct (showRipples _); reflexivity. Qed.

Lemma params_emitRipple p nrm w s :
  params (world (emitRipple p nrm w s)) = params (world s).
Proof. unfold emitRipple; destruct (showRipples _); reflexivity. Qed.

Lemma position_bounceX time s :
  Node.position (node (bounceX rnd time s)) = Node.position (node s).
Proof. reflexivity. Qed.

Lemma position_bounceY time s :
  Node.position (node (bounceY rnd time s)) = Node.position (node s).
Proof. reflexivity. Qed.

Lemma position_bounceZ time s :
  Node.position (node (bounceZ rnd time s)) = Node.position (node s).
Proof. reflexivity. Qed.

(** The collision test of an axis leaves the position inside the walls of
    that axis and does not move the node along the other two. *)
Lemma collideX_position time bX s :
  0 <= bX ->
  let p := Node.position (node s) in
  let p' := Node.position (node (collideX rnd time bX s)) in
  - bX <= THREE.x p' <= bX /\ THREE.y p' = THREE.y p /\ THREE.z p' = THREE.z p.
Proof.
  intros Hb; unfold collideX.
  destruct (Rgt_b_spec (THREE.x (Node.position (node s))) bX).
  - match goal with |- context [if ?c then _ else _] => destruct c end;
      rewrite ?node_emitRipple; simpl; repeat split; lra.
  - destruct (Rlt_b_spec (THREE.x (Node.position (node s))) (- bX)).
    + match goal with |- context [if ?c then _ else _] => destruct c end;
        rewrite ?node_emitRipple; simpl; repeat split; lra.
    + simpl; repeat split; lra.
Qed.

Lemma collideY_position time bY s :
  0 <= bY ->
  let p := Node.position (node s) in
  let p' := Node.position (node (collideY rnd time bY s)) in
  - bY <= THREE.y p' <= bY /\ THREE.x p' = THREE.x p /\ THREE.z p' = THREE.z p.
Proof.
  intros Hb; unfold collideY.
  destruct (Rgt_b_spec (THREE.y (Node.position (node s))) bY).
  - match goal with |- context [if ?c then _ else _] => destruct c end;
      rewrite ?node_emitRipple; simpl; repeat split; lra.
  - destruct (Rlt_b_spec (THREE.y (Node.position (node s))) (- bY)).
    + match goal with |- context [if ?c then _ else _] => destruct c end;
        rewrite ?node_emitRipple; simpl; repeat split; lra.
    + simpl; repeat split; lra.
Qed.

Lemma collideZ_position time bZ s :
  0 <= bZ ->
  let p := Node.position (node s) in
  let p' := Node.position (node (collideZ rnd time bZ s)) in
  - bZ <= THREE.z p' <= bZ /\ THREE.x p' = THREE.x p /\ THREE.y p' = THREE.y p.
Proof.
  intros Hb; unfold collideZ.
  destruct (Rgt_b_spec (THREE.z (Node.position (node s))) bZ).
  - match goal with |- context [if ?c then _ else _] => destruct c end;
      rewrite ?node_emitRipple; simpl; repeat split; lra.
  - destruct (Rlt_b_spec (THREE.z (Node.position (node s))) (- bZ)).
    + match goal with |- context [if ?c then _ else _] => destruct c end;
        rewrite ?node_emitRipple; simpl; repeat split; lra.
    + simpl; repeat split; lra.
Qed.

Lemma collideX_clamps time bX s :
  0 <= bX ->
  THREE.x (Node.position (node s)) > bX
  \/ THREE.x (Node.position (node s)) < - bX ->
  Rabs (THREE.x (Node.position (node (collideX rnd time bX s)))) = bX.
Proof.
  intros Hb Hp; unfold collideX.
  destruct (Rgt_b_spec (THREE.x (Node.position (node s))) bX).
  - match goal with |- context [if ?c then _ else _] => destruct c end;
      rewrite ?node_emitRipple; simpl; apply Rabs_pos_eq; lra.
  - destruct (Rlt_b_spec (THREE.x (Node.position (node s))) (- bX));
      [|lra].
    match goal with |- context [if ?c then _ else _] => destruct c end;
      rewrite ?node_emitRipple; simpl; rewrite Rabs_Ropp; apply Rabs_pos_eq; lra.
Qed.

Lemma collideY_clamps time bY s :
  0 <= bY ->
  THREE.y (Node.position (node s)) > bY
  \/ THREE.y (Node.position (node s)) < - bY ->
  Rabs (THREE.y (Node.position (node (collideY rnd time bY s)))) = bY.
Proof.
  intros Hb Hp; unfold collideY.
  destruct (Rgt_b_spec (THREE.y (Node.position (node s))) bY).
  - match goal with |- context [if ?c then _ else _] => destruct c end;
      rewrite ?node_emitRipple; simpl; apply Rabs_pos_eq; lra.
  - destruct (Rlt_b_spec (THREE.y (Node.position (node s))) (- bY));
      [|lra].
    match goal with |- context [if ?c then _ else _] => destruct c end;
      rewrite ?node_emitRipple; simpl; rewrite Rabs_Ropp; apply Rabs_pos_eq; lra.
Qed.

Lemma collideZ_clamps time bZ s :
  0 <= bZ ->
  THREE.z (Node.position (node s)) > bZ
  \/ THREE.z (Node.position (node s)) < - bZ ->
  Rabs (THREE.z (Node.position (node (collideZ rnd time bZ s)))) = bZ.
Proof.
  intros Hb Hp; unfold collideZ.
  destruct (Rgt_b_spec (THREE.z (Node.position (node s))) bZ).
  - match goal with |- context [if ?c then _ else _] => destruct c end;
      rewrite ?node_emitRipple; simpl; apply Rabs_pos_eq; lra.
  - destruct (Rlt_b_spec (THREE.z (Node.position (node s))) (- bZ));
      [|lra].
    match goal with |- context [if ?c then _ else _] => destruct c end;
      rewrite ?node_emitRipple; simpl; rewrite Rabs_Ropp; apply Rabs_pos_eq; lra.
Qed.

(** The blocks write to the ripple pool and draw random numbers; they leave
    the camera and the parameters alone. *)
Lemma camera_collideX time bX s :
  camera (world (collideX rnd time bX s)) = camera (world s).
Proof.
  unfold collideX.
  repeat match goal with
         | |- context [if ?c then _ else _] => destruct c
         end; rewrite ?camera_emitRipple; reflexivity.
Qed.

Lemma camera_collideY time bY s :
  camera (world (collideY rnd time bY s)) = camera (world s).
Proof.
  unfold collideY.
  repeat match goal with
         | |- context [if ?c then _ else _] => destruct c
         end; rewrite ?camera_emitRipple; reflexivity.
Qed.

Lemma camera_collideZ time bZ s :
  camera (world (collideZ rnd time bZ s)) = camera (world s).
Proof.
  unfold collideZ.
  repeat match goal with
         | |- context [if ?c then _ else _] => destruct c
         end; rewrite ?camera_emitRipple; reflexivity.
Qed.

Lemma camera_updateNode time index a n :
  camera (world (updateNode rnd time index a n)) = camera a.
Proof.
  unfold updateNode, spin, collide; simpl.
  now rewrite camera_collideZ, camera_collideY, camera_collideX.
Qed.

Lemma updateNode_inside time index a n :
  valid_camera (camera a) ->
  inside_box (camera a) (Node.position (node (updateNode rnd time index a n))).
Proof.
  intros Hc. destruct (boundaries_nonneg _ Hc) as (HX & HY & HZ).
  unfold updateNode, spin, collide. cbn [node on_node world].
  set (s0 := mkStep (integrate time index a n) false a).
  change (camera a) with (camera (world s0)) in HX, HY, HZ |- *.
  set (c := camera (world s0)) in *.
  set (sx := collideX rnd time (boundaryX c) s0).
  set (sy := collideY rnd time (boundaryY c) sx).
  destruct (collideX_position time (boundaryX c) s0 HX) as (Hx & _ & _).
  destruct (collideY_position time (boundaryY c) sx HY) as (Hy & Hyx & _).
  destruct (collideZ_position time (boundaryZ c) sy HZ) as (Hz & Hzx & Hzy).
  fold sx in Hx, Hyx. fold sy in Hy, Hyx, Hzx, Hzy.
  unfold inside_box; cbn [Node.position set_rotation set_angularVelocity].
  rewrite Hzx, Hzy, Hyx.
  repeat split; apply Rabs_le; lra.
Qed.

Lemma forEachNode_inside time ns : forall index a,
  valid_camera (camera a) ->
  Forall (fun n => inside_box (camera a) (Node.position n))
    (fst (forEachNode rnd time index ns a)) /\
  camera (snd (forEachNode rnd time index ns a)) = camera a.
Proof.
  induction ns as [|n rest IH]; intros index a Hc; cbn [forEachNode].
  - split; [constructor | reflexivity].
  - pose proof (camera_updateNode time index a n) as Hcam.
    specialize (IH (S index) (world (updateNode rnd time index a n))).
    rewrite Hcam in IH. specialize (IH Hc).
    destruct (forEachNode rnd time (S index) rest
                (world (updateNode rnd time index a n))) as [rest' a'].
    cbn [fst snd] in *. destruct IH as [IH1 IH2]. split; [|assumption].
    constructor; [apply updateNode_inside; assumption | assumption].
Qed.

End NodeMotion.

(** ** Node motion: when a collision response fires *)

Section CollisionResponse.

Variable rnd : nat -> R.

Lemma rippleWalls_emitRipple p nrm w s :
  rippleWalls (world (emitRipple p nrm w s))
  = rippleWalls (world s) ++ ripplesFor (world s) (Some w).
Proof.
  unfold emitRipple, rippleWalls, ripplesFor.
  destruct (showRipples _); simpl.
  - now rewrite map_app.
  - now rewrite app_nil_r.
Qed.

(** A response stamps the node, and the stamp fails the debounce test for
    the rest of the step. *)
Lemma debounced_after time s :
  Node.lastCollisionTime (node s) = time -> debounced time s = false.
Proof.
  intros H; unfold debounced, minTimeBetweenCollisions.
  rewrite H. apply Rgt_b_false; lra.
Qed.

Lemma debounced_iff time s :
  debounced time s = true
  <-> time - Node.lastCollisionTime (node s) > minTimeBetweenCollisions.
Proof.
  unfold debounced. destruct (Rgt_b_spec (time - Node.lastCollisionTime (node s))
                                minTimeBetweenCollisions); split; intros; auto; discriminate.
Qed.

Lemma quiet_node s s' :
  quiet s s' ->
  Node.velocity (node s') = Node.velocity (node s)
  /\ Node.lastCollisionTime (node s') = Node.lastCollisionTime (node s)
  /\ Node.restitution (node s') = Node.restitution (node s).
Proof. intros (Hn & _ & _); rewrite Hn; repeat split. Qed.

(** A step whose debounce test fails stays so through a block that only
    clamps. *)
Lemma quiet_debounced time s s' :
  quiet s s' -> debounced time s' = debounced time s.
Proof.
  intros (Hn & _ & _). unfold debounced. rewrite Hn. reflexivity.
Qed.

Lemma quiet_refl s : quiet s s.
Proof. unfold quiet; destruct s as [[] ? ?]; repeat split. Qed.

Lemma quiet_trans s1 s2 s3 : quiet s1 s2 -> quiet s2 s3 -> quiet s1 s3.
Proof.
  intros (Hn & Hc & Hw) (Hn' & Hc' & Hw'); repeat split; try congruence.
  rewrite Hn', Hn. reflexivity.
Qed.

Lemma quiet_clamp f s :
  quiet s (on_node (fun n => set_position (f (Node.position n)) n) s).
Proof. unfold quiet; repeat split. Qed.

(** *** The X axis *)

Lemma collideX_blocked time bX s :
  debounced time s = false -> quiet s (collideX rnd time bX s).
Proof.
  intros Hd; unfold collideX.
  change (debounced time (on_node _ s)) with (debounced time s).
  rewrite Hd, !andb_false_r.
  destruct (Rgt_b _ bX).
  - apply quiet_clamp with (f := fun p => THREE.setX p bX).
  - destruct (Rlt_b _ (- bX)); [|apply quiet_refl].
    apply quiet_clamp with (f := fun p => THREE.setX p (- bX)).
Qed.

Lemma collideX_calm time bX s :
  0 <= bX ->
  ~ (THREE.x (Node.position (node s)) > bX /\ THREE.x (Node.velocity (node s)) > 0) ->
  ~ (THREE.x (Node.position (node s)) < - bX /\ THREE.x (Node.velocity (node s)) < 0) ->
  quiet s (collideX rnd time bX s).
Proof.
  intros Hb H1 H2; unfold collideX.
  destruct (Rgt_b_spec (THREE.x (Node.position (node s))) bX) as [Hp|Hp].
  - cbn [on_node node Node.velocity set_position].
    rewrite (Rgt_b_false (THREE.x (Node.velocity (node s))) 0) by tauto.
    apply quiet_clamp with (f := fun p => THREE.setX p bX).
  - destruct (Rlt_b_spec (THREE.x (Node.position (node s))) (- bX)) as [Hq|Hq];
      [|apply quiet_refl].
    cbn [on_node node Node.velocity set_position].
    rewrite (Rlt_b_false (THREE.x (Node.velocity (node s))) 0) by tauto.
    apply quiet_clamp with (f := fun p => THREE.setX p (- bX)).
Qed.

Lemma collideX_fires time bX s :
  0 <= bX ->
  (THREE.x (Node.position (node s)) > bX /\ THREE.x (Node.velocity (node s)) > 0)
  \/ (THREE.x (Node.position (node s)) < - bX
      /\ THREE.x (Node.velocity (node s)) < 0) ->
  debounced time s = true ->
  let s' := collideX rnd time bX s in
  let v := Node.velocity (node s) in
  let k := Node.restitution (node s) * wallRestitution (params (world s)) in
  let f := wallFriction (params (world s)) in
  Node.velocity (node s') = THREE.mkVector3 (- THREE.x v * k) (THREE.y v * f) (THREE.z v * f)
  /\ Node.lastCollisionTime (node s') = time
  /\ collisionOccurred s' = true
  /\ Rabs (THREE.x (Node.position (node s'))) = bX
  /\ rippleWalls (world s')
     = rippleWalls (world s) ++ ripplesFor (world s) (wallHit AxisX (node s))
  /\ params (world s') = params (world s).
Proof.
  intros Hb Hx Hd; unfold collideX.
  change (debounced time (on_node _ s)) with (debounced time s).
  rewrite Hd.
  destruct Hx as [[Hp Hv]|[Hp Hv]].
  - rewrite (Rgt_b_true _ _ Hp).
    cbn [on_node node Node.velocity set_position].
    rewrite (Rgt_b_true _ _ Hv).
    cbn [andb].
    rewrite node_emitRipple, rippleWalls_emitRipple, params_emitRipple,
      collisionOccurred_emitRipple.
    unfold wallHit; rewrite (Rgt_b_true _ _ Hv).
    cbn. repeat split. apply Rabs_pos_eq; lra.
  - rewrite (Rgt_b_false (THREE.x (Node.position (node s))) bX) by lra.
    rewrite (Rlt_b_true _ _ Hp).
    cbn [on_node node Node.velocity set_position].
    rewrite (Rlt_b_true _ _ Hv).
    cbn [andb].
    rewrite node_emitRipple, rippleWalls_emitRipple, params_emitRipple,
      collisionOccurred_emitRipple.
    unfold wallHit; rewrite (Rgt_b_false (THREE.x (Node.velocity (node s))) 0) by lra.
    cbn. repeat split. rewrite Rabs_Ropp. apply Rabs_pos_eq; lra.
Qed.

(** *** The Y axis *)

Lemma collideY_blocked time bY s :
  debounced time s = false -> quiet s (collideY rnd time bY s).
Proof.
  intros Hd; unfold collideY.
  change (debounced time (on_node _ s)) with (debounced time s).
  rewrite Hd, !andb_false_r.
  destruct (Rgt_b _ bY).
  - apply quiet_clamp with (f := fun p => THREE.setY p bY).
  - destruct (Rlt_b _ (- bY)); [|apply quiet_refl].
    apply quiet_clamp with (f := fun p => THREE.setY p (- bY)).
Qed.

Lemma collideY_calm time bY s :
  0 <= bY ->
  ~ (THREE.y (Node.position (node s)) > bY /\ THREE.y (Node.velocity (node s)) > 0) ->
  ~ (THREE.y (Node.position (node s)) < - bY /\ THREE.y (Node.velocity (node s)) < 0) ->
  quiet s (collideY rnd time bY s).
Proof.
  intros Hb H1 H2; unfold collideY.
  destruct (Rgt_b_spec (THREE.y (Node.position (node s))) bY) as [Hp|Hp].
  - cbn [on_node node Node.velocity set_position].
    rewrite (Rgt_b_false (THREE.y (Node.velocity (node s))) 0) by tauto.
    apply quiet_clamp with (f := fun p => THREE.setY p bY).
  - destruct (Rlt_b_spec (THREE.y (Node.position (node s))) (- bY)) as [Hq|Hq];
      [|apply quiet_refl].
    cbn [on_node node Node.velocity set_position].
    rewrite (Rlt_b_false (THREE.y (Node.velocity (node s))) 0) by tauto.
    apply quiet_clamp with (f := fun p => THREE.setY p (- bY)).
Qed.

Lemma collideY_fires time bY s :
  0 <= bY ->
  (THREE.y (Node.position (node s)) > bY /\ THREE.y (Node.velocity (node s)) > 0)
  \/ (THREE.y (Node.position (node s)) < - bY
      /\ THREE.y (Node.velocity (node s)) < 0) ->
  debounced time s = true ->
  let s' := collideY rnd time bY s in
  let v := Node.velocity (node s) in
  let k := Node.restitution (node s) * wallRestitution (params (world s)) in
  let f := wallFriction (params (world s)) in
  Node.velocity (node s') = THREE.mkVector3 (THREE.x v * f) (- THREE.y v * k) (THREE.z v * f)
  /\ Node.lastCollisionTime (node s') = time
  /\ collisionOccurred s' = true
  /\ Rabs (THREE.y (Node.position (node s'))) = bY
  /\ rippleWalls (world s')
     = rippleWalls (world s) ++ ripplesFor (world s) (wallHit AxisY (node s))
  /\ params (world s') = params (world s).
Proof.
  intros Hb Hx Hd; unfold collideY.
  change (debounced time (on_node _ s)) with (debounced time s).
  rewrite Hd.
  destruct Hx as [[Hp Hv]|[Hp Hv]].
  - rewrite (Rgt_b_true _ _ Hp).
    cbn [on_node node Node.velocity set_position].
    rewrite (Rgt_b_true _ _ Hv).
    cbn [andb].
    rewrite node_emitRipple, rippleWalls_emitRipple, params_emitRipple,
      collisionOccurred_emitRipple.
    unfold wallHit; rewrite (Rgt_b_true _ _ Hv).
    cbn. repeat split. apply Rabs_pos_eq; lra.
  - rewrite (Rgt_b_false (THREE.y (Node.position (node s))) bY) by lra.
    rewrite (Rlt_b_true _ _ Hp).
    cbn [on_node node Node.velocity set_position].
    rewrite (Rlt_b_true _ _ Hv).
    cbn [andb].
    rewrite node_emitRipple, rippleWalls_emitRipple, params_emitRipple,
      collisionOccurred_emitRipple.
    unfold wallHit; rewrite (Rgt_b_false (THREE.y (Node.velocity (node s))) 0) by lra.
    cbn. repeat split. rewrite Rabs_Ropp. apply Rabs_pos_eq; lra.
Qed.

(** *** The Z axis *)

Lemma collideZ_blocked time bZ s :
  debounced time s = false -> quiet s (collideZ rnd time bZ s).
Proof.
  intros Hd; unfold collideZ.
  change (debounced time (on_node _ s)) with (debounced time s).
  rewrite Hd, !andb_false_r.
  destruct (Rgt_b _ bZ).
  - apply quiet_clamp with (f := fun p => THREE.setZ p bZ).
  - destruct (Rlt_b _ (- bZ)); [|apply quiet_refl].
    apply quiet_clamp with (f := fun p => THREE.setZ p (- bZ)).
Qed.

Lemma collideZ_calm time bZ s :
  0 <= bZ ->
  ~ (THREE.z (Node.position (node s)) > bZ /\ THREE.z (Node.velocity (node s)) > 0) ->
  ~ (THREE.z (Node.position (node s)) < - bZ /\ THREE.z (Node.velocity (node s)) < 0) ->
  quiet s (collideZ rnd time bZ s).
Proof.
  intros Hb H1 H2; unfold collideZ.
  destruct (Rgt_b_spec (THREE.z (Node.position (node s))) bZ) as [Hp|Hp].
  - cbn [on_node node Node.velocity set_position].
    rewrite (Rgt_b_false (THREE.z (Node.velocity (node s))) 0) by tauto.
    apply quiet_clamp with (f := fun p => THREE.setZ p bZ).
  - destruct (Rlt_b_spec (THREE.z (Node.position (node s))) (- bZ)) as [Hq|Hq];
      [|apply quiet_refl].
    cbn [on_node node Node.velocity set_position].
    rewrite (Rlt_b_false (THREE.z (Node.velocity (node s))) 0) by tauto.
    apply quiet_clamp with (f := fun p => THREE.setZ p (- bZ)).
Qed.

Lemma collideZ_fires time bZ s :
  0 <= bZ ->
  (THREE.z (Node.position (node s)) > bZ /\ THREE.z (Node.velocity (node s)) > 0)
  \/ (THREE.z (Node.position (node s)) < - bZ
      /\ THREE.z (Node.velocity (node s)) < 0) ->
  debounced time s = true ->
  let s' := collideZ rnd time bZ s in
  let v := Node.velocity (node s) in
  let k := Node.restitution (node s) * wallRestitution (params (world s)) in
  let f := wallFriction (params (world s)) in
  Node.velocity (node s') = THREE.mkVector3 (THREE.x v * f) (THREE.y v * f) (- THREE.z v * k)
  /\ Node.lastCollisionTime (node s') = time
  /\ collisionOccurred s' = true
  /\ Rabs (THREE.z (Node.position (node s'))) = bZ
  /\ rippleWalls (world s')
     = rippleWalls (world s) ++ ripplesFor (world s) (wallHit AxisZ (node s))
  /\ params (world s') = params (world s).
Proof.
  intros Hb Hx Hd; unfold collideZ.
  change (debounced time (on_node _ s)) with (debounced time s).
  rewrite Hd.
  destruct Hx as [[Hp Hv]|[Hp Hv]].
  - rewrite (Rgt_b_true _ _ Hp).
    cbn [on_node node Node.velocity set_position].
    rewrite (Rgt_b_true _ _ Hv).
    cbn [andb].
    unfold wallHit; rewrite (Rgt_b_true _ _ Hv).
    cbn. rewrite app_nil_r. repeat split. apply Rabs_pos_eq; lra.
  - rewrite (Rgt_b_false (THREE.z (Node.position (node s))) bZ) by lra.
    rewrite (Rlt_b_true _ _ Hp).
    cbn [on_node node Node.velocity set_position].
    rewrite (Rlt_b_true _ _ Hv).
    cbn [andb].
    rewrite node_emitRipple, rippleWalls_emitRipple, params_emitRipple,
      collisionOccurred_emitRipple.
    unfold wallHit; rewrite (Rgt_b_false (THREE.z (Node.velocity (node s))) 0) by lra.
    cbn. repeat split. rewrite Rabs_Ropp. apply Rabs_pos_eq; lra.
Qed.

(** *** The three tests together *)

(** The first axis, in test order, on which the node crosses outward gets
    the collision response; its stamp blocks the tests that follow. *)
Lemma collide_first time s ax :
  let c := camera (world s) in
  valid_camera c ->
  (forall ax', before ax' ax -> ~ crossesOutward c ax' (node s)) ->
  crossesOutward c ax (node s) ->
  debounced time s = true ->
  let s' := collide rnd time s in
  let v := Node.velocity (node s) in
  let k := Node.restitution (node s) * wallRestitution (params (world s)) in
  let f := wallFriction (params (world s)) in
  coord ax (Node.velocity (node s')) = - coord ax v * k
  /\ (forall ax', ax' <> ax ->
      coord ax' (Node.velocity (node s')) = coord ax' v * f)
  /\ Node.lastCollisionTime (node s') = time
  /\ collisionOccurred s' = true
  /\ rippleWalls (world s')
     = rippleWalls (world s) ++ ripplesFor (world s) (wallHit ax (node s))
  /\ params (world s') = params (world s).
Proof.
  intros c Hc Hfirst Hcross Hd.
  destruct (boundaries_nonneg c Hc) as (HX & HY & HZ).
  unfold collide; fold c.
  destruct ax; unfold crossesOutward in Hcross; cbn [coord boundary] in Hcross.
  - (* X fires; Y and Z are blocked *)
    pose proof (collideX_fires time (boundaryX c) s HX Hcross Hd)
      as (Hv & Ht & Hco & _ & Hr & Hp).
    set (sX := collideX rnd time (boundaryX c) s) in *.
    assert (HdX : debounced time sX = false) by (apply debounced_after; exact Ht).
    pose proof (collideY_blocked time (boundaryY c) sX HdX) as QY.
    set (sY := collideY rnd time (boundaryY c) sX) in *.
    assert (HdY : debounced time sY = false)
      by (rewrite (quiet_debounced _ _ _ QY); exact HdX).
    pose proof (collideZ_blocked time (boundaryZ c) sY HdY) as QZ.
    set (sZ := collideZ rnd time (boundaryZ c) sY) in *.
    destruct (quiet_trans _ _ _ QY QZ) as (Hn & Hco' & Hw).
    cbv zeta. rewrite Hn, Hco', Hw, Hr, Hp, Hco.
    cbn [Node.velocity Node.lastCollisionTime set_position]. rewrite Hv, Ht.
    repeat split. intros [] Hne; cbn [coord THREE.x THREE.y THREE.z];
      congruence.
  - (* X only clamps; Y fires; Z is blocked *)
    assert (QX : quiet s (collideX rnd time (boundaryX c) s)).
    { apply collideX_calm; [exact HX | |];
        intros H; apply (Hfirst AxisX I); [left | right]; exact H. }
    destruct (collideX_position rnd time (boundaryX c) s HX) as (_ & Hy & _).
    set (sX := collideX rnd time (boundaryX c) s) in *.
    destruct (quiet_node _ _ QX) as (HvX & HtX & HrX).
    destruct QX as (HnX & HcX & HwX).
    assert (HdX : debounced time sX = true)
      by (unfold debounced; rewrite HtX; exact Hd).
    assert (Hcross' :
      (THREE.y (Node.position (node sX)) > boundaryY c
       /\ THREE.y (Node.velocity (node sX)) > 0)
      \/ (THREE.y (Node.position (node sX)) < - boundaryY c
          /\ THREE.y (Node.velocity (node sX)) < 0))
      by (rewrite Hy, HvX; exact Hcross).
    pose proof (collideY_fires time (boundaryY c) sX HY Hcross' HdX)
      as (Hv & Ht & Hco & _ & Hr & Hp).
    set (sY := collideY rnd time (boundaryY c) sX) in *.
    assert (HdY : debounced time sY = false) by (apply debounced_after; exact Ht).
    destruct (collideZ_blocked time (boundaryZ c) sY HdY) as (Hn & Hco' & Hw).
    set (sZ := collideZ rnd time (boundaryZ c) sY) in *.
    cbv zeta. rewrite Hn, Hco', Hw, Hr, Hp, Hco.
    cbn [Node.velocity Node.lastCollisionTime set_position]. rewrite Hv, Ht.
    rewrite HvX, HrX, HwX.
    unfold wallHit; rewrite HvX.
    repeat split. intros [] Hne; cbn [coord THREE.x THREE.y THREE.z];
      congruence.
  - (* X and Y only clamp; Z fires *)
    assert (QX : quiet s (collideX rnd time (boundaryX c) s)).
    { apply collideX_calm; [exact HX | |];
        intros H; apply (Hfirst AxisX I); [left | right]; exact H. }
    destruct (collideX_position rnd time (boundaryX c) s HX) as (_ & Hy & Hz).
    set (sX := collideX rnd time (boundaryX c) s) in *.
    destruct (quiet_node _ _ QX) as (HvX & HtX & HrX).
    assert (QY : quiet sX (collideY rnd time (boundaryY c) sX)).
    { apply collideY_calm; [exact HY | |]; rewrite Hy, HvX;
        intros H; apply (Hfirst AxisY I); [left | right]; exact H. }
    destruct (collideY_position rnd time (boundaryY c) sX HY) as (_ & _ & Hz').
    set (sY := collideY rnd time (boundaryY c) sX) in *.
    destruct (quiet_node _ _ QY) as (HvY & HtY & HrY).
    destruct QX as (HnX & HcX & HwX). destruct QY as (HnY & HcY & HwY).
    assert (HdY : debounced time sY = true)
      by (unfold debounced; rewrite HtY, HtX; exact Hd).
    assert (Hcross' :
      (THREE.z (Node.position (node sY)) > boundaryZ c
       /\ THREE.z (Node.velocity (node sY)) > 0)
      \/ (THREE.z (Node.position (node sY)) < - boundaryZ c
          /\ THREE.z (Node.velocity (node sY)) < 0))
      by (rewrite Hz', Hz, HvY, HvX; exact Hcross).
    pose proof (collideZ_fires time (boundaryZ c) sY HZ Hcross' HdY)
      as (Hv & Ht & Hco & _ & Hr & Hp).
    set (sZ := collideZ rnd time (boundaryZ c) sY) in *.
    cbv zeta. rewrite Hr, Hp, Hco, Hv, Ht.
    rewrite HvY, HrY, HwY, HvX, HrX, HwX.
    unfold wallHit; rewrite HvY, HvX.
    repeat split. intros [] Hne; cbn [coord THREE.x THREE.y THREE.z];
      congruence.
Qed.

(** Whatever the responses do, a node outside the walls of an axis ends the
    step on the wall. *)
Lemma collide_clamps time s ax :
  let c := camera (world s) in
  valid_camera c ->
  coord ax (Node.position (node s)) > boundary ax c
  \/ coord ax (Node.position (node s)) < - boundary ax c ->
  Rabs (coord ax (Node.position (node (collide rnd time s)))) = boundary ax c.
Proof.
  intros c Hc Hout.
  destruct (boundaries_nonneg c Hc) as (HX & HY & HZ).
  unfold collide; fold c.
  set (sX := collideX rnd time (boundaryX c) s).
  set (sY := collideY rnd time (boundaryY c) sX).
  destruct (collideX_position rnd time (boundaryX c) s HX) as (_ & Hxy & Hxz).
  destruct (collideY_position rnd time (boundaryY c) sX HY) as (_ & Hyx & Hyz).
  destruct (collideZ_position rnd time (boundaryZ c) sY HZ) as (_ & Hzx & Hzy).
  fold sX in Hxy, Hxz, Hyx, Hyz. fold sY in Hyx, Hyz, Hzx, Hzy.
  destruct ax; cbn [coord boundary] in *.
  - rewrite Hzx, Hyx. apply collideX_clamps; assumption.
  - rewrite Hzy. apply collideY_clamps; [assumption|]. rewrite Hxy; assumption.
  - apply collideZ_clamps; [assumption|]. rewrite Hyz, Hxz; assumption.
Qed.

End CollisionResponse.

(** ** Node motion: containment and the wall response *)

Lemma valid_sampleCamera : valid_camera sampleCamera.
Proof. unfold valid_camera, sampleCamera; simpl; lra. Qed.

Lemma updateNode_collide rnd time index a n :
  let s := collide rnd time (mkStep (integrate time index a n) false a) in
  let s' := updateNode rnd time index a n in
  Node.position (node s') = Node.position (node s)
  /\ Node.velocity (node s') = Node.velocity (node s)
  /\ Node.lastCollisionTime (node s') = Node.lastCollisionTime (node s)
  /\ world s' = world s.
Proof. repeat split. Qed.

(** C1. Boundary containment: after the motion and collision step of a
    frame, every node of the pool lies within the half-extents of the box
    that the step computed from the camera (which the step leaves as it
    was), whatever the collision time stamps of the nodes are. *)
Theorem boundary_containment (rnd : nat -> R) (time : R) (a : Animation) :
  valid_camera (camera a) ->
  camera (updateNodes rnd time a) = camera a
  /\ Forall (fun n =>
               Rabs (THREE.x (Node.position n)) <= boundaryX (camera a)
               /\ Rabs (THREE.y (Node.position n)) <= boundaryY (camera a)
               /\ Rabs (THREE.z (Node.position n)) <= boundaryZ (camera a))
       (nodes (updateNodes rnd time a)).
Proof.
  intros Hc. unfold updateNodes.
  destruct (forEachNode_inside rnd time (nodes a) 0%nat a Hc) as [HF Hcam].
  destruct (forEachNode rnd time 0 (nodes a) a) as [ns a'].
  cbn [fst snd] in *. split; [exact Hcam | exact HF].
Qed.

Lemma boundary_containment_witness :
  valid_camera (camera (scene [cornerNode]))
  /\ Forall (fun n =>
               Rabs (THREE.x (Node.position n)) <= boundaryX sampleCamera
               /\ Rabs (THREE.y (Node.position n)) <= boundaryY sampleCamera
               /\ Rabs (THREE.z (Node.position n)) <= boundaryZ sampleCamera)
       (nodes (updateNodes halves 1 (scene [cornerNode]))).
Proof.
  split.
  - exact valid_sampleCamera.
  - exact (proj2 (boundary_containment halves 1 (scene [cornerNode])
                    valid_sampleCamera)).
Defined.

(** C2. Wall-collision response: a node that, after the position update,
    has crossed a wall of one axis while moving outward along it, lies
    within the walls of the other two axes, and whose last collision is more
    than 0.1 s old, leaves the step with that velocity component reflected
    and scaled by its restitution and the wall restitution, and with the
    other two components multiplied by the wall friction. *)
Theorem wall_collision_response (rnd : nat -> R) (time : R) (index : nat)
    (a : Animation) (n : Node.t) (ax : Axis) :
  valid_camera (camera a) ->
  crossesOutward (camera a) ax (integrate time index a n) ->
  (forall ax', ax' <> ax -> insideOn (camera a) ax' (integrate time index a n)) ->
  time - Node.lastCollisionTime n > minTimeBetweenCollisions ->
  let n' := node (updateNode rnd time index a n) in
  coord ax (Node.velocity n')
  = - coord ax (Node.velocity n) * Node.restitution n * wallRestitution (params a)
  /\ (forall ax', ax' <> ax ->
      coord ax' (Node.velocity n') = coord ax' (Node.velocity n) * wallFriction (params a))
  /\ Node.lastCollisionTime n' = time.
Proof.
  intros Hc Hcross Hin Hd n'.
  set (s := mkStep (integrate time index a n) false a).
  assert (Hfirst : forall ax', before ax' ax -> ~ crossesOutward (camera a) ax' (node s)).
  { intros ax' Hb [[Hp _]|[Hp _]];
      assert (Hne : ax' <> ax) by (intros ->; destruct ax; exact Hb);
      destruct (Hin ax' Hne) as [Hlo Hhi]; cbn [node s] in Hp; lra. }
  assert (Hd' : debounced time s = true) by (apply debounced_iff; exact Hd).
  destruct (collide_first rnd time s ax Hc Hfirst Hcross Hd')
    as (Hv & Hrest & Ht & _).
  destruct (updateNode_collide rnd time index a n) as (_ & Hvel & Hlast & _).
  fold s in Hvel, Hlast. subst n'. rewrite Hvel, Hlast.
  cbn [node s world] in Hv, Hrest.
  repeat split; [rewrite Hv; cbn; ring | exact Hrest | exact Ht].
Qed.

Lemma wallNode_crosses :
  crossesOutward sampleCamera AxisX (integrate 1 0 (scene [wallNode]) wallNode).
Proof. left; cbn; split; lra. Qed.

Lemma wallNode_inside (ax : Axis) :
  ax <> AxisX ->
  insideOn sampleCamera ax (integrate 1 0 (scene [wallNode]) wallNode).
Proof.
  destruct (boundaries_nonneg sampleCamera valid_sampleCamera) as (HX & HY & HZ).
  destruct ax; intros Hne; [congruence | |]; unfold insideOn;
    cbn [coord boundary]; cbn -[boundaryY boundaryZ];
    unfold boundaryZ, depth in *; split; lra.
Qed.

Lemma fresh_debounced (p v : THREE.Vector3) :
  1 - Node.lastCollisionTime (still p v) > minTimeBetweenCollisions.
Proof. unfold minTimeBetweenCollisions; cbn; lra. Qed.

Lemma wall_collision_response_witness :
  crossesOutward sampleCamera AxisX (integrate 1 0 (scene [wallNode]) wallNode)
  /\ 1 - Node.lastCollisionTime wallNode > minTimeBetweenCollisions
  /\ THREE.x (Node.velocity (node (updateNode halves 1 0 (scene [wallNode]) wallNode)))
     = - (0.1) * 0.8 * 0.7
  /\ THREE.y (Node.velocity (node (updateNode halves 1 0 (scene [wallNode]) wallNode)))
     = 0 * 0.95
  /\ THREE.z (Node.velocity (node (updateNode halves 1 0 (scene [wallNode]) wallNode)))
     = 0.05 * 0.95.
Proof.
  destruct (wall_collision_response halves 1 0 (scene [wallNode]) wallNode AxisX
              valid_sampleCamera wallNode_crosses wallNode_inside
              (fresh_debounced _ _)) as (Hx & Hrest & _).
  split; [exact wallNode_crosses|].
  split; [exact (fresh_debounced _ _)|].
  split; [exact Hx|].
  split.
  - exact (Hrest AxisY ltac:(discriminate)).
  - exact (Hrest AxisZ ltac:(discriminate)).
Defined.

(** ** Two walls in one step *)

Lemma cornerNode_crosses_X :
  crossesOutward sampleCamera AxisX (integrate 1 0 (scene [cornerNode]) cornerNode).
Proof. left; cbn; split; lra. Qed.

Lemma cornerNode_crosses_Y :
  crossesOutward sampleCamera AxisY (integrate 1 0 (scene [cornerNode]) cornerNode).
Proof. left; cbn; split; lra. Qed.

Lemma corner_debounced :
  debounced 1 (mkStep (integrate 1 0 (scene [cornerNode]) cornerNode) false
                 (scene [cornerNode])) = true.
Proof. apply debounced_iff; unfold minTimeBetweenCollisions; cbn; lra. Qed.

Lemma nothing_before_X (c : Camera) (n : Node.t) (ax : Axis) :
  before ax AxisX -> ~ crossesOutward c ax n.
Proof. destruct ax; intros []. Qed.

(** The claim of C3 fails at the corner: the node crosses the right wall and
    the ceiling, moving outward through both, one second after its creation
    and with ripples enabled; the step answers the right wall only.  The
    pool gets the ripple of the right wall and none for the ceiling, and the
    vertical velocity is the old one times the wall friction: still upward,
    not reflected. *)
Lemma corner_hit_answers_one_wall :
  crossesOutward sampleCamera AxisX (integrate 1 0 (scene [cornerNode]) cornerNode)
  /\ crossesOutward sampleCamera AxisY (integrate 1 0 (scene [cornerNode]) cornerNode)
  /\ 1 - Node.lastCollisionTime cornerNode > minTimeBetweenCollisions
  /\ showRipples (params (scene [cornerNode])) = true
  /\ rippleWalls (world cornerStep) = [right]
  /\ ~ In ceiling (rippleWalls (world cornerStep))
  /\ THREE.y (Node.velocity (node cornerStep)) = 0.1 * 0.95
  /\ THREE.y (Node.velocity (node cornerStep)) > 0.
Proof.
  pose proof (collide_first halves 1
                (mkStep (integrate 1 0 (scene [cornerNode]) cornerNode) false
                   (scene [cornerNode]))
                AxisX valid_sampleCamera (nothing_before_X _ _)
                cornerNode_crosses_X
                corner_debounced)
    as (_ & Hrest & _ & _ & Hr & _).
  specialize (Hrest AxisY ltac:(discriminate)).
  change (THREE.y (Node.velocity (node cornerStep)) = 0.1 * 0.95) in Hrest.
  assert (Hw : rippleWalls (world cornerStep) = [right]).
  { change (rippleWalls (world cornerStep)
            = [] ++ [if Rgt_b 0.1 0 then right else left]) in Hr.
    rewrite Hr, Rgt_b_true by lra. reflexivity. }
  split; [exact cornerNode_crosses_X|].
  split; [exact cornerNode_crosses_Y|].
  split; [exact (fresh_debounced _ _)|].
  split; [reflexivity|].
  split; [exact Hw|].
  split; [rewrite Hw; intros [H|[]]; discriminate|].
  split; [exact Hrest | rewrite Hrest; lra].
Qed.

(** C3 (amended). When a node crosses the walls of two axes in one step,
    moving outward through both, with its last collision more than 0.1 s
    old, both positions are clamped to their wall, but only the first of the
    crossed axes in test order (X, Y, Z) gets the collision response: its
    velocity component is reflected, the node is stamped with the time of
    the step, and the pool grows by the ripple of that wall alone (if
    ripples are enabled and the wall is not the front wall).  The stamp
    fails the debounce test of the later axis, whose velocity component is
    only multiplied by the wall friction. *)
Theorem corner_collision_first_axis_only (rnd : nat -> R) (time : R)
    (index : nat) (a : Animation) (n : Node.t) (ax1 ax2 : Axis) :
  valid_camera (camera a) ->
  before ax1 ax2 ->
  (forall ax, before ax ax1 ->
     ~ crossesOutward (camera a) ax (integrate time index a n)) ->
  crossesOutward (camera a) ax1 (integrate time index a n) ->
  crossesOutward (camera a) ax2 (integrate time index a n) ->
  time - Node.lastCollisionTime n > minTimeBetweenCollisions ->
  let s' := updateNode rnd time index a n in
  Rabs (coord ax1 (Node.position (node s'))) = boundary ax1 (camera a)
  /\ Rabs (coord ax2 (Node.position (node s'))) = boundary ax2 (camera a)
  /\ coord ax1 (Node.velocity (node s'))
     = - coord ax1 (Node.velocity n) * Node.restitution n * wallRestitution (params a)
  /\ coord ax2 (Node.velocity (node s'))
     = coord ax2 (Node.velocity n) * wallFriction (params a)
  /\ Node.lastCollisionTime (node s') = time
  /\ rippleWalls (world s')
     = rippleWalls a ++ ripplesFor a (wallHit ax1 (integrate time index a n)).
Proof.
  intros Hc Hb Hfirst H1 H2 Hd s'.
  set (s := mkStep (integrate time index a n) false a).
  assert (Hd' : debounced time s = true) by (apply debounced_iff; exact Hd).
  destruct (collide_first rnd time s ax1 Hc Hfirst H1 Hd')
    as (Hv & Hrest & Ht & _ & Hr & _).
  assert (Hne : ax2 <> ax1) by (intros ->; destruct ax1; exact Hb).
  assert (Hout : forall ax, crossesOutward (camera a) ax (node s) ->
            coord ax (Node.position (node s)) > boundary ax (camera a)
            \/ coord ax (Node.position (node s)) < - boundary ax (camera a))
    by (intros ax [[H _]|[H _]]; [left | right]; exact H).
  pose proof (collide_clamps rnd time s ax1 Hc (Hout ax1 H1)) as Hp1.
  pose proof (collide_clamps rnd time s ax2 Hc (Hout ax2 H2)) as Hp2.
  destruct (updateNode_collide rnd time index a n) as (Hpos & Hvel & Hlast & Hw).
  fold s in Hpos, Hvel, Hlast, Hw. subst s'. rewrite Hpos, Hvel, Hlast, Hw.
  cbn [node s world] in Hv, Hrest, Hr, Hp1, Hp2.
  repeat split;
    [exact Hp1 | exact Hp2 | rewrite Hv; cbn; ring | exact (Hrest ax2 Hne)
    | exact Ht | exact Hr].
Qed.

Lemma corner_collision_first_axis_only_witness :
  crossesOutward sampleCamera AxisX (integrate 1 0 (scene [cornerNode]) cornerNode)
  /\ crossesOutward sampleCamera AxisY (integrate 1 0 (scene [cornerNode]) cornerNode)
  /\ Rabs (THREE.x (Node.position (node (updateNode halves 1 0 (scene [cornerNode]) cornerNode))))
     = boundaryX sampleCamera
  /\ Rabs (THREE.y (Node.position (node (updateNode halves 1 0 (scene [cornerNode]) cornerNode))))
     = boundaryY sampleCamera
  /\ THREE.x (Node.velocity (node (updateNode halves 1 0 (scene [cornerNode]) cornerNode)))
     = - (0.1) * 0.8 * 0.7
  /\ THREE.y (Node.velocity (node (updateNode halves 1 0 (scene [cornerNode]) cornerNode)))
     = 0.1 * 0.95.
Proof.
  destruct (corner_collision_first_axis_only halves 1 0 (scene [cornerNode])
              cornerNode AxisX AxisY valid_sampleCamera I
              (nothing_before_X _ _) cornerNode_crosses_X cornerNode_crosses_Y
              (fresh_debounced _ _)) as (Hp1 & Hp2 & Hv1 & Hv2 & _).
  split; [exact cornerNode_crosses_X|].
  split; [exact cornerNode_crosses_Y|].
  split; [exact Hp1|].
  split; [exact Hp2|].
  split; [exact Hv1 | exact Hv2].
Defined.

(** ** Easing curves *)

Lemma Math_pow_int (b : R) (k : Z) : Math.pow b (IZR k) = powerRZ b k.
Proof.
  unfold Math.pow. rewrite ZfloorZ.
  destruct (Req_dec_T (IZR k) (IZR k)); [reflexivity | contradiction].
Qed.

Lemma Math_pow_3 (b : R) : Math.pow b 3 = b * b * b.
Proof. rewrite (Math_pow_int b 3). simpl. ring. Qed.

Lemma bounce_0 : bounce 0 = 0.
Proof. unfold bounce. rewrite Rlt_b_true by lra. lra. Qed.

Lemma bounce_1 : bounce 1 = 1.
Proof. unfold bounce. rewrite !Rlt_b_false by lra. lra. Qed.

Lemma Req_b_true (a b : R) : a = b -> Req_b a b = true.
Proof. intro H; destruct (Req_b_spec a b); [reflexivity | contradiction]. Qed.

Lemma Req_b_false (a b : R) : a <> b -> Req_b a b = false.
Proof. intro H; destruct (Req_b_spec a b); [contradiction | reflexivity]. Qed.

Lemma elastic_0 : elastic 0 = 0.
Proof. unfold elastic. now rewrite Req_b_true. Qed.

Lemma elastic_1 : elastic 1 = 1.
Proof.
  unfold elastic. rewrite Req_b_false by lra. now rewrite Req_b_true.
Qed.

(** Whatever the name, the curve returned starts at 0 and ends at 1 (an
    unknown name falls back to the linear curve). *)
Lemma curve_endpoints (type : string) :
  getEasingFunction type 0 = 0 /\ getEasingFunction type 1 = 1.
Proof.
  unfold getEasingFunction.
  repeat match goal with
         | |- context [String.eqb ?a ?b] => destruct (String.eqb a b)
         end;
    rewrite ?Math_pow_3, ?bounce_0, ?bounce_1, ?elastic_0, ?elastic_1;
    try (rewrite (Rlt_b_true 0 0.5) by lra);
    try (rewrite (Rlt_b_false 1 0.5) by lra);
    rewrite ?Math_pow_3; split; lra.
Qed.

(** C6. Easing endpoint identities: each of the six supported easing curves
    (linear, ease-in, ease-out, ease-in-out, bounce, elastic) maps 0 to 0
    and 1 to 1. *)
Theorem easing_endpoints :
  Forall (fun type => getEasingFunction type 0 = 0
                      /\ getEasingFunction type 1 = 1)
    supportedEasings.
Proof.
  unfold supportedEasings.
  repeat (constructor; [apply curve_endpoints|]). constructor.
Qed.

(** The elastic curve at 0.85: the sine is at its maximum, and the curve is
    minus the square root of one eighth. *)
Lemma elastic_085 : elastic 0.85 = - Rpower 2 (- (3 / 2)).
Proof.
  unfold elastic. rewrite !Req_b_false by lra.
  replace (10 * 0.85 - 10) with (- (3 / 2)) by lra.
  replace ((0.85 * 10 - 10.75) * (2 * PI / 3)) with (- (3 * (PI / 2))) by lra.
  rewrite sin_neg, sin_3PI2.
  unfold Math.pow.
  assert (Hf : Zfloor (- (3 / 2)) = (-2)%Z) by (apply Zfloor_eq; lra).
  rewrite Hf.
  destruct (Req_dec_T (- (3 / 2)) (-2)) as [E|_]; [lra | ring].
Qed.

Lemma Rpower_2_m32 :
  0.35 < Rpower 2 (- (3 / 2)) < 0.36.
Proof.
  set (u := Rpower 2 (- (3 / 2))).
  assert (Hpos : 0 < u) by apply exp_pos.
  assert (Hsq : u * u = / 8).
  { unfold u. rewrite <- Rpower_plus.
    replace (- (3 / 2) + - (3 / 2)) with (- INR 3) by (simpl; lra).
    rewrite Rpower_Ropp, Rpower_pow by lra. f_equal. simpl; lra. }
  assert (H8 : / 8 = 0.125) by lra.
  rewrite H8 in Hsq. split; nra.
Qed.

Lemma elastic_085_bounds : - 0.36 < elastic 0.85 < - 0.35.
Proof. rewrite elastic_085. pose proof Rpower_2_m32. lra. Qed.

Lemma lerp_1 (s e : R) : lerp s e 1 = e.
Proof. unfold lerp; ring. Qed.

Lemma lerp_below (s e t : R) : s < e -> t < 0 -> lerp s e t < s.
Proof. unfold lerp; intros; nra. Qed.

(** ** The spatial sampler *)

Section Sampler.

Variable rnd : nat -> R.

Lemma only_rng_refl a : only_rng a a.
Proof. destruct a; reflexivity. Qed.

Lemma only_rng_trans a b c : only_rng a b -> only_rng b c -> only_rng a c.
Proof.
  unfold only_rng; intros Hb Hc. rewrite Hc at 1. rewrite Hb at 1.
  destruct a; reflexivity.
Qed.

Lemma only_rng_random a : only_rng a (snd (random rnd a)).
Proof. destruct a; reflexivity. Qed.

Lemma only_rng_randomPoint w h d a :
  only_rng a (snd (randomPoint rnd w h d a)).
Proof. destruct a; reflexivity. Qed.

Lemma randomPoint_in_volume w h d a :
  unit_interval rnd -> 0 <= w -> 0 <= h -> 0 <= d ->
  in_volume w h d (fst (randomPoint rnd w h d a)).
Proof.
  intros Hu Hw Hh Hd. unfold randomPoint, random, in_volume; cbn.
  pose proof (Hu (rng a)). pose proof (Hu (S (rng a))).
  pose proof (Hu (S (S (rng a)))).
  repeat split; apply Rabs_le; nra.
Qed.

Lemma tryPlace_spec k dist w h d points : forall a,
  only_rng a (snd (tryPlace rnd k dist w h d points a))
  /\ (unit_interval rnd -> 0 <= w -> 0 <= h -> 0 <= d ->
      forall c, fst (tryPlace rnd k dist w h d points a) = Some c ->
                in_volume w h d c).
Proof.
  induction k as [|k IH]; intros a; cbn [tryPlace].
  - split; [apply only_rng_refl | discriminate].
  - pose proof (only_rng_randomPoint w h d a) as Hr.
    pose proof (randomPoint_in_volume w h d a) as Hv.
    destruct (randomPoint rnd w h d a) as [candidate a1]; cbn [fst snd] in *.
    destruct (validPosition candidate points dist).
    + split; [exact Hr|]. intros Hu Hw Hh Hd c [= <-]. now apply Hv.
    + destruct (IH a1) as [IH1 IH2]. split; [|exact IH2].
      eapply only_rng_trans; eassumption.
Qed.

(** The body of the loop places exactly one more point: the first valid
    candidate at the target separation, else at the relaxed one, else a
    random point without any test. *)
Lemma placePoint_spec dist w h d points a :
  exists p,
    fst (placePoint rnd dist w h d points a) = points ++ [p]
    /\ only_rng a (snd (placePoint rnd dist w h d points a))
    /\ (unit_interval rnd -> 0 <= w -> 0 <= h -> 0 <= d -> in_volume w h d p).
Proof.
  unfold placePoint.
  destruct (tryPlace_spec maxAttempts dist w h d points a) as [R1 V1].
  destruct (tryPlace rnd maxAttempts dist w h d points a) as [[c|] a1];
    cbn [fst snd] in *.
  - exists c. split; [reflexivity|]. split; [exact R1|].
    intros; apply V1; auto.
  - destruct (tryPlace_spec maxAttempts (dist * 0.9) w h d points a1) as [R2 V2].
    destruct (tryPlace rnd maxAttempts (dist * 0.9) w h d points a1)
      as [[c|] a2]; cbn [fst snd] in *.
    + exists c. split; [reflexivity|].
      split; [eapply only_rng_trans; eassumption|].
      intros; apply V2; auto.
    + pose proof (only_rng_randomPoint w h d a2) as R3.
      pose proof (randomPoint_in_volume w h d a2) as V3.
      destruct (randomPoint rnd w h d a2) as [p a3]; cbn [fst snd] in *.
      exists p. split; [reflexivity|]. split; [|exact V3].
      eapply only_rng_trans; [|eassumption].
      eapply only_rng_trans; eassumption.
Qed.

Lemma placePoints_spec k dist w h d : forall points a,
  List.length (fst (placePoints rnd k dist w h d points a))
  = (List.length points + k)%nat
  /\ only_rng a (snd (placePoints rnd k dist w h d points a))
  /\ (unit_interval rnd -> 0 <= w -> 0 <= h -> 0 <= d ->
      Forall (in_volume w h d) points ->
      Forall (in_volume w h d) (fst (placePoints rnd k dist w h d points a))).
Proof.
  induction k as [|k IH]; intros points a; cbn [placePoints].
  - cbn [fst snd]. split; [lia|]. split; [apply only_rng_refl | auto].
  - destruct (placePoint_spec dist w h d points a) as (p & Hp & Hr & Hv).
    destruct (placePoint rnd dist w h d points a) as [points' a'];
      cbn [fst snd] in *. subst points'.
    destruct (IH (points ++ [p]) a') as (IH1 & IH2 & IH3).
    split; [|split].
    + rewrite IH1, length_app; cbn; lia.
    + eapply only_rng_trans; eassumption.
    + intros Hu Hw Hh Hd HF. apply IH3; auto.
      apply Forall_app; split; [exact HF|]. constructor; [auto | constructor].
Qed.

Lemma samplingLoop_unfold fuel n dist w h d points a :
  samplingLoop rnd fuel n dist w h d points a
  = if (Z.of_nat (List.length points) <? n)%Z then
      match fuel with
      | O => None
      | S fuel' =>
          let '(points', a') := placePoint rnd dist w h d points a in
          samplingLoop rnd fuel' n dist w h d points' a'
      end
    else Some (points, a).
Proof. destruct fuel; reflexivity. Qed.

(** The loop runs as many times as there are points missing; given that
    many iterations it returns, and more change nothing. *)
Lemma samplingLoop_enough n dist w h d k : forall fuel points a,
  k = Z.to_nat (n - Z.of_nat (List.length points)) ->
  (k <= fuel)%nat ->
  samplingLoop rnd fuel n dist w h d points a
  = Some (placePoints rnd k dist w h d points a).
Proof.
  induction k as [|k IH]; intros fuel points a Hk Hfuel;
    rewrite samplingLoop_unfold.
  - assert (H : (Z.of_nat (List.length points) <? n)%Z = false)
      by (apply Z.ltb_ge; lia).
    rewrite H. reflexivity.
  - assert (H : (Z.of_nat (List.length points) <? n)%Z = true)
      by (apply Z.ltb_lt; lia).
    rewrite H. destruct fuel as [|fuel]; [lia|]. cbn [placePoints].
    destruct (placePoint_spec dist w h d points a) as (p & Hp & _).
    destruct (placePoint rnd dist w h d points a) as [points' a'];
      cbn [fst] in Hp. subst points'.
    apply IH; [rewrite length_app; cbn; lia | lia].
Qed.

Lemma generatePoissonDiskSampling_total n w h d a :
  exists points a',
    (forall fuel, (Z.to_nat n <= fuel)%nat ->
       generatePoissonDiskSampling rnd fuel n w h d a = Some (points, a'))
    /\ List.length points = Z.to_nat n
    /\ only_rng a a'
    /\ (unit_interval rnd -> 0 <= w -> 0 <= h -> 0 <= d ->
        Forall (in_volume w h d) points).
Proof.
  unfold generatePoissonDiskSampling.
  set (dist := Math.min3 w h d / Math.sqrt (IZR n) * 0.8).
  destruct (Z.ltb_spec 0 n) as [Hn|Hn].
  - pose proof (only_rng_randomPoint w h d a) as Hr.
    pose proof (randomPoint_in_volume w h d a) as Hv.
    destruct (randomPoint rnd w h d a) as [p a1]; cbn [fst snd] in *.
    destruct (placePoints_spec (Z.to_nat (n - 1)) dist w h d [p] a1)
      as (Hlen & Hr' & Hv').
    exists (fst (placePoints rnd (Z.to_nat (n - 1)) dist w h d [p] a1)),
           (snd (placePoints rnd (Z.to_nat (n - 1)) dist w h d [p] a1)).
    split; [|split; [|split]].
    + intros fuel Hfuel.
      rewrite (samplingLoop_enough n dist w h d (Z.to_nat (n - 1)))
        by (cbn [List.length]; lia).
      now rewrite <- surjective_pairing.
    + rewrite Hlen; cbn [List.length]; lia.
    + eapply only_rng_trans; eassumption.
    + intros Hu Hw Hh Hd. apply Hv'; auto.
  - exists [], a. split; [|split; [|split]].
    + intros fuel Hfuel.
      now rewrite (samplingLoop_enough n dist w h d 0)
        by (cbn [List.length]; lia).
    + cbn [List.length]; lia.
    + apply only_rng_refl.
    + constructor.
Qed.

End Sampler.

(** C8. Spatial sampler totality: for every count of points that is not
    negative and positive extents, the sampling loop stops (as many
    iterations as there are points suffice, and more do not change the
    result) and yields exactly that many positions, each within half the
    extent from the origin on every axis; each run of the loop body places
    one point, at the latest by the unconditional fallback. *)
Theorem sampler_total (rnd : nat -> R) (n : Z) (width height depth : R)
    (a : Animation) :
  unit_interval rnd ->
  (0 <= n)%Z -> 0 < width -> 0 < height -> 0 < depth ->
  exists points a',
    (forall fuel, (Z.to_nat n <= fuel)%nat ->
       generatePoissonDiskSampling rnd fuel n width height depth a
       = Some (points, a'))
    /\ Z.of_nat (List.length points) = n
    /\ Forall (in_volume width height depth) points.
Proof.
  intros Hu Hn Hw Hh Hd.
  destruct (generatePoissonDiskSampling_total rnd n width height depth a)
    as (points & a' & Hrun & Hlen & _ & Hin).
  exists points, a'. split; [exact Hrun|]. split; [lia|].
  apply Hin; auto; lra.
Qed.

Lemma unit_interval_halves : unit_interval halves.
Proof. intros i; unfold halves; lra. Qed.

Lemma sampler_total_witness :
  exists points a',
    (forall fuel, (Z.to_nat 3 <= fuel)%nat ->
       generatePoissonDiskSampling halves fuel 3 20 20 16 (scene [])
       = Some (points, a'))
    /\ Z.of_nat (List.length points) = 3%Z
    /\ Forall (in_volume 20 20 16) points.
Proof.
  apply (sampler_total halves 3 20 20 16 (scene []) unit_interval_halves);
    [lia | lra | lra | lra].
Defined.

(** ** The node pool *)

Section NodePool.

Variable rnd : nat -> R.

Lemma only_nodes_rng_refl a : only_nodes_rng a a.
Proof. destruct a; reflexivity. Qed.

Lemma only_nodes_rng_trans a b c :
  only_nodes_rng a b -> only_nodes_rng b c -> only_nodes_rng a c.
Proof.
  unfold only_nodes_rng; intros Hb Hc. rewrite Hc at 1. rewrite Hb at 1.
  destruct a; reflexivity.
Qed.

Lemma only_rng_nodes a b : only_rng a b -> only_nodes_rng a b.
Proof.
  destruct a, b; unfold only_rng, only_nodes_rng, set_rng, set_nodes;
    cbn; intros [= -> -> -> -> -> -> -> -> -> -> ->]; reflexivity.
Qed.

Lemma only_nodes_rng_set_nodes ns a : only_nodes_rng a (set_nodes ns a).
Proof. destruct a; reflexivity. Qed.

Lemma only_rng_newNode p a : only_rng a (snd (newNode rnd p a)).
Proof. destruct a; reflexivity. Qed.

Lemma only_nodes_rng_pushNodes count positions w h : forall i a,
  only_nodes_rng a (pushNodes rnd count i positions w h a).
Proof.
  induction count as [|count IH]; intros i a; cbn [pushNodes].
  - apply only_nodes_rng_refl.
  - assert (H1 : only_rng a (snd (match nth_error positions i with
                                   | Some p => (p, a)
                                   | None => randomPoint rnd w h (depth * 0.8) a
                                   end))).
    { destruct (nth_error positions i);
        [apply only_rng_refl | apply only_rng_randomPoint]. }
    destruct (match nth_error positions i with
              | Some p => (p, a)
              | None => randomPoint rnd w h (depth * 0.8) a
              end) as [position a1]; cbn [snd] in H1.
    pose proof (only_rng_newNode position a1) as H2.
    destruct (newNode rnd position a1) as [n a2]; cbn [snd] in H2.
    eapply only_nodes_rng_trans; [|apply IH].
    eapply only_nodes_rng_trans; [apply only_rng_nodes; exact H1|].
    eapply only_nodes_rng_trans; [apply only_rng_nodes; exact H2|].
    apply only_nodes_rng_set_nodes.
Qed.

(** The rebuild of the pool always returns: the sampling loop is given
    enough iterations. *)
Lemma createNodes_total a :
  exists a', createNodes rnd a = Some a' /\ only_nodes_rng a a'.
Proof.
  unfold createNodes.
  destruct (generatePoissonDiskSampling_total rnd (nodeCount (params a))
              (frustumWidth (camera a)) (frustumHeight (camera a))
              (depth * 0.8) a) as (positions & a1 & Hrun & _ & Hr & _).
  rewrite (Hrun _ (Nat.le_refl _)).
  eexists; split; [reflexivity|].
  eapply only_nodes_rng_trans; [apply only_rng_nodes; exact Hr|].
  apply only_nodes_rng_pushNodes.
Qed.

Lemma recreateNodes_total a :
  exists a', recreateNodes rnd a = Some a' /\ only_nodes_rng a a'.
Proof.
  unfold recreateNodes.
  destruct (createNodes_total (set_nodes [] a)) as (a' & H & Hr).
  exists a'; split; [exact H|].
  eapply only_nodes_rng_trans; [apply only_nodes_rng_set_nodes | exact Hr].
Qed.

End NodePool.

(** ** The preset interpolation engine *)

Lemma Math_round_IZR (k : Z) : Math.round (IZR k) = k.
Proof. unfold Math.round. apply Zfloor_eq; lra. Qed.

Lemma toChannel_channel (b : byte) : THREE.toChannel (THREE.channel b) = b.
Proof.
  unfold THREE.toChannel, THREE.channel. rewrite Math_round_IZR.
  pose proof (Byte.to_N_bounded b) as Hb.
  rewrite Z.min_r by lia. rewrite Z.max_r by lia.
  rewrite N2Z.id, Byte.of_to_N. reflexivity.
Qed.

Lemma lerpColor_1 (c1 c2 : THREE.Color) : lerpColor c1 c2 1 = c2.
Proof.
  unfold lerpColor, lerpChannel. rewrite !lerp_1, !toChannel_channel.
  destruct c2; reflexivity.
Qed.

(** With the eased progress at 1 the interpolation yields the target: no
    residue of the source is left in any parameter. *)
Lemma interpolate_1 (current from to : PresetData) :
  interpolate current from to 1 = set_name (name current) to.
Proof.
  unfold interpolate, set_name.
  rewrite !lerp_1, !lerpColor_1, !Math_round_IZR, Rge_b_true by lra.
  reflexivity.
Qed.

Lemma interpolate_scalar (current from to : PresetData) (t : R)
    (f : PresetData -> R) :
  In f scalarParameters ->
  f (interpolate current from to t) = lerp (f from) (f to) t.
Proof.
  unfold scalarParameters; cbn [In].
  intros H; repeat (destruct H as [<-|H]; [reflexivity|]); contradiction.
Qed.

Lemma only_nodes_rng_fields a a' :
  only_nodes_rng a a' ->
  params a' = params a
  /\ isTransitioning a' = isTransitioning a
  /\ transitionStartTime a' = transitionStartTime a
  /\ transitionDuration a' = transitionDuration a
  /\ transitionEasing a' = transitionEasing a
  /\ fromPreset a' = fromPreset a
  /\ toPreset a' = toPreset a.
Proof. intros ->; repeat split. Qed.

Lemma visibility_fields (a : Animation) :
  let a' := updateRippleVisibility (updateParticleVisibility a) in
  params a' = params a
  /\ nodes a' = nodes a
  /\ camera a' = camera a
  /\ rng a' = rng a
  /\ isTransitioning a' = isTransitioning a
  /\ transitionStartTime a' = transitionStartTime a
  /\ transitionDuration a' = transitionDuration a
  /\ transitionEasing a' = transitionEasing a
  /\ fromPreset a' = fromPreset a
  /\ toPreset a' = toPreset a
  /\ particles a' = (if showParticles (params a) then particles a else [])
  /\ ripples a' = (if showRipples (params a) then ripples a else []).
Proof.
  unfold updateRippleVisibility, updateParticleVisibility.
  destruct (showParticles (params a)) eqn:Hp;
    cbn [params clearAllParticles set_particles];
    destruct (showRipples (params a)) eqn:Hr; cbn; rewrite ?Hp, ?Hr;
    repeat split.
Qed.

Lemma endTransition_fields to a :
  params (endTransition to a) = set_name (name to) (params a)
  /\ particles (endTransition to a) = particles a
  /\ ripples (endTransition to a) = ripples a
  /\ nodes (endTransition to a) = nodes a.
Proof. repeat split. Qed.

Lemma set_name_fields s p :
  showParticles (set_name s p) = showParticles p
  /\ showRipples (set_name s p) = showRipples p
  /\ nodeCount (set_name s p) = nodeCount p
  /\ particleCount (set_name s p) = particleCount p
  /\ forall f, In f scalarParameters -> f (set_name s p) = f p.
Proof.
  repeat split. unfold scalarParameters; cbn [In].
  intros f H; repeat (destruct H as [<-|H]; [reflexivity|]); contradiction.
Qed.


(** *** The raw progress *)

Lemma rawProgress_nonzero now a :
  transitionDuration a <> 0 ->
  rawProgress now a
  = Some (Math.min ((now - transitionStartTime a) / 1000
                    / transitionDuration a) 1).
Proof.
  intros H. unfold rawProgress, progressOf, divide.
  destruct (Req_dec_T (transitionDuration a) 0); [contradiction | reflexivity].
Qed.

(** A transition of duration zero is over as soon as time has passed. *)
Lemma rawProgress_zero_duration now a :
  transitionDuration a = 0 ->
  transitionStartTime a < now ->
  rawProgress now a = Some 1.
Proof.
  intros H Hn. unfold rawProgress, progressOf, divide.
  destruct (Req_dec_T (transitionDuration a) 0); [|contradiction].
  rewrite Rgt_b_true by lra. reflexivity.
Qed.

(** In binary64: with a duration of zero the quotient is [Infinity] once
    time has passed, and the progress 1; at the instant of the start it is
    [NaN]. *)
Lemma zero_duration_progress :
  Binary64.progress 16 0 0 = 1%float
  /\ Binary64.isNaN (Binary64.progress 0 0 0) = true.
Proof. split; vm_compute; reflexivity. Qed.

Lemma rawProgress_le_1 now a p : rawProgress now a = Some p -> p <= 1.
Proof.
  unfold rawProgress, progressOf, divide.
  destruct (Req_dec_T (transitionDuration a) 0).
  - destruct (Rgt_b _ 0); [intros [= <-]; lra | discriminate].
  - intros [= <-]. apply Rmin_r.
Qed.

(** The frame of a transition in flight, one case for each of the two
    tests at its end. *)
Lemma updateTransition_inFlight rnd now a from to p :
  isTransitioning a = true ->
  fromPreset a = Some from ->
  toPreset a = Some to ->
  rawProgress now a = Some p ->
  exists a3,
    only_nodes_rng
      (updateRippleVisibility
         (updateParticleVisibility
            (set_params (interpolate (params a) from to
                           (getEasingFunction (transitionEasing a) p)) a)))
      a3
    /\ updateTransition rnd now a
       = Some (if Rge_b p 1 then endTransition to a3 else a3).
Proof.
  intros Ht Hf Hto Hp. unfold updateTransition. rewrite Ht, Hf, Hto.
  unfold rawProgress in Hp. rewrite Hp.
  set (a2 := updateRippleVisibility _).
  destruct (Rgt_b _ 0).
  - destruct (recreateNodes_total rnd a2) as (a3 & -> & Hr).
    exists a3; split; [exact Hr | reflexivity].
  - exists a2; split; [apply only_nodes_rng_refl | reflexivity].
Qed.

(** The same, field by field: the state before the end test. *)
Lemma updateTransition_step rnd now a from to p :
  isTransitioning a = true ->
  fromPreset a = Some from ->
  toPreset a = Some to ->
  rawProgress now a = Some p ->
  exists a3,
    updateTransition rnd now a
    = Some (if Rge_b p 1 then endTransition to a3 else a3)
    /\ params a3
       = interpolate (params a) from to
           (getEasingFunction (transitionEasing a) p)
    /\ particles a3 = (if showParticles (params a3) then particles a else [])
    /\ ripples a3 = (if showRipples (params a3) then ripples a else [])
    /\ camera a3 = camera a
    /\ isTransitioning a3 = true
    /\ transitionStartTime a3 = transitionStartTime a
    /\ fromPreset a3 = Some from
    /\ toPreset a3 = Some to.
Proof.
  intros Ht Hf Hto Hp.
  destruct (updateTransition_inFlight rnd now a from to p Ht Hf Hto Hp)
    as (a3 & Hr & Hrun).
  exists a3. split; [exact Hrun|].
  set (a1 := set_params _ a) in Hr.
  destruct (visibility_fields a1)
    as (Vp & _ & Vc & _ & Vt & Vs & _ & _ & Vf & Vto & Vpa & Vri).
  cbv zeta in Vp, Vc, Vt, Vs, Vf, Vto, Vpa, Vri.
  red in Hr. rewrite Hr.
  cbn [params particles ripples camera isTransitioning transitionStartTime
       fromPreset toPreset set_nodes set_rng].
  rewrite Vp, Vc, Vt, Vs, Vf, Vto, Vpa, Vri.
  subst a1. cbn [params particles ripples camera isTransitioning
                 transitionStartTime fromPreset toPreset set_params].
  repeat split; assumption.
Qed.



Lemma inFlight_done : rawProgress 2000 inFlight = Some 1.
Proof.
  rewrite rawProgress_nonzero by (cbn; lra). f_equal.
  unfold Math.min; cbn.
  replace ((2000 - 0) / 1000 / 2.0) with 1 by lra.
  apply Rmin_left; lra.
Qed.


(** C5. At most one transition in flight: a request to start a transition
    while one is in flight leaves the controller as it was; the stored
    source and target, the start time, the duration and the easing are
    those of the transition in flight, and nothing is queued. *)
Theorem startTransition_ignored_in_flight (now : R) (toPreset : PresetData)
    (a : Animation) :
  isTransitioning a = true ->
  startTransition now toPreset a = a.
Proof. intros H; unfold startTransition; rewrite H; reflexivity. Qed.

Lemma startTransition_ignored_in_flight_witness :
  isTransitioning inFlight = true
  /\ startTransition 500 Default inFlight = inFlight.
Proof.
  split; [reflexivity|].
  exact (startTransition_ignored_in_flight 500 Default inFlight eq_refl).
Defined.

Lemma rawProgress_at (a : Animation) (p : R) :
  0 < transitionDuration a -> p <= 1 ->
  rawProgress (transitionStartTime a + 1000 * p * transitionDuration a) a
  = Some p.
Proof.
  intros Hd Hp. rewrite rawProgress_nonzero by lra. f_equal.
  unfold Math.min.
  replace ((transitionStartTime a + 1000 * p * transitionDuration a
            - transitionStartTime a) / 1000 / transitionDuration a)
    with p by (field; lra).
  apply Rmin_left; exact Hp.
Qed.

(** C10. The eased progress is applied as it comes: the elastic curve is
    negative inside the interval (about -0.35 at 0.85), so an elastic
    transition has a frame, strictly between its start and its end, at
    which every interpolated numeric parameter whose source value is below
    its target value lies strictly below the source value, outside the
    interval spanned by the two presets. *)
Theorem elastic_transition_undershoots (rnd : nat -> R) (a : Animation)
    (from to : PresetData) :
  isTransitioning a = true ->
  fromPreset a = Some from ->
  toPreset a = Some to ->
  transitionEasing a = "elastic"%string ->
  0 < transitionDuration a ->
  - 0.36 < getEasingFunction "elastic" 0.85 < - 0.35
  /\ exists now a',
       rawProgress now a = Some 0.85
       /\ updateTransition rnd now a = Some a'
       /\ isTransitioning a' = true
       /\ forall f, In f scalarParameters ->
                    f from < f to ->
                    f (params a') = lerp (f from) (f to) (elastic 0.85)
                    /\ f (params a') < f from.
Proof.
  intros Ht Hf Hto He Hd.
  split; [exact elastic_085_bounds|].
  exists (transitionStartTime a + 1000 * 0.85 * transitionDuration a).
  assert (Hp : rawProgress
                 (transitionStartTime a + 1000 * 0.85 * transitionDuration a) a
               = Some 0.85) by (apply rawProgress_at; lra).
  destruct (updateTransition_step rnd _ a from to 0.85 Ht Hf Hto Hp)
    as (a3 & Hrun & Hpar & _ & _ & _ & Htr & _).
  rewrite Rge_b_false in Hrun by lra.
  rewrite He in Hpar. change (getEasingFunction "elastic" 0.85)
    with (elastic 0.85) in Hpar.
  exists a3. split; [exact Hp|].
  split; [exact Hrun|]. split; [exact Htr|].
  intros f Hin Hlt. rewrite Hpar.
  rewrite (interpolate_scalar _ _ _ _ f Hin).
  split; [reflexivity|].
  apply lerp_below; [exact Hlt|]. pose proof elastic_085_bounds; lra.
Qed.

Lemma elastic_transition_undershoots_witness :
  - 0.36 < getEasingFunction "elastic" 0.85 < - 0.35
  /\ exists now a',
       rawProgress now inFlightElastic = Some 0.85
       /\ updateTransition halves now inFlightElastic = Some a'
       /\ isTransitioning a' = true
       /\ forall f, In f scalarParameters ->
                    f Default < f samplePreset ->
                    f (params a') = lerp (f Default) (f samplePreset) (elastic 0.85)
                    /\ f (params a') < f Default.
Proof.
  apply (elastic_transition_undershoots halves inFlightElastic Default
           samplePreset eq_refl eq_refl eq_refl eq_refl).
  cbn; lra.
Defined.

(** ** Ripples *)


Lemma updateRipple_Some (r r' : Ripple.t) :
  updateRipple r = Some r' ->
  Ripple.age r' = Ripple.age r + deltaTime
  /\ Ripple.age r' < Ripple.maxAge r
  /\ Ripple.maxAge r' = Ripple.maxAge r
  /\ Ripple.opacity r'
     = 0.6 * (1 - (Ripple.age r' / Ripple.maxAge r') ^ 3).
Proof.
  unfold updateRipple.
  destruct (Rge_b_spec (Ripple.age r + deltaTime) (Ripple.maxAge r));
    [discriminate|].
  intros [= <-]; cbn. repeat split; [lra | ring].
Qed.

Lemma deltaTime_pos : 0 < deltaTime.
Proof. unfold deltaTime; lra. Qed.




Lemma cube_increasing (p q : R) : 0 <= p -> p < q -> p ^ 3 < q ^ 3.
Proof.
  intros Hp Hq.
  assert (H : q ^ 3 - p ^ 3 = (q - p) * (q * q + p * q + p * p)) by ring.
  assert (0 < q * q + p * q + p * p) by nra.
  assert (0 < (q - p) * (q * q + p * q + p * p)) by (apply Rmult_lt_0_compat; lra).
  lra.
Qed.





(** In binary64 the age is a sum of rounded steps and misses whole
    durations too: at the default duration of 2 s the ripple is still in the
    pool after 120 updates, at age 1.9999999999999978, and the 121st update
    retires it, past the duration. *)
Lemma ripple_age_misses_whole_duration :
  Binary64.ageAfter 120 0 = 1.9999999999999978%float
  /\ Binary64.expired (Binary64.ageAfter 120 0) 2 = false
  /\ Binary64.expired (Binary64.ageAfter 121 0) 2 = true
  /\ PrimFloat.eqb (Binary64.ageAfter 121 0) 2 = false.
Proof. repeat split; vm_compute; reflexivity. Qed.



(** ** Particles *)

Section Particles.

Variable rnd : nat -> R.

(** Where the division is evaluated there are at least two nodes, hence
    at least one pair: the divisor is never zero. *)
Lemma spawnParticles_total a : exists a', spawnParticles rnd a = Some a'.
Proof.
  unfold spawnParticles.
  destruct (showParticles (params a) && Nat.ltb 1 (List.length (nodes a)))
    eqn:G; [|eexists; reflexivity].
  apply andb_true_iff in G. destruct G as [_ G]. apply Nat.ltb_lt in G.
  unfold divide.
  destruct (Req_dec_T _ 0) as [E|_]; [|eexists; reflexivity].
  exfalso. apply le_INR in G. change (INR 2) with (1 + 1) in G.
  set (n := INR (List.length (nodes a))) in *. nra.
Qed.

Lemma updateParticles_total a : exists a', updateParticles rnd a = Some a'.
Proof. unfold updateParticles. apply spawnParticles_total. Qed.

Lemma spawnParticles_skipped a :
  (List.length (nodes a) < 2)%nat -> spawnParticles rnd a = Some a.
Proof.
  intros H. unfold spawnParticles.
  assert (G : Nat.ltb 1 (List.length (nodes a)) = false)
    by (apply Nat.ltb_ge; lia).
  rewrite G, andb_false_r. reflexivity.
Qed.

Lemma survivors_length {A : Type} (f : A -> option A) (l : list A) :
  (List.length (survivors f l) <= List.length l)%nat.
Proof.
  induction l as [|x l IH]; cbn; [lia|].
  destruct (f x); cbn; lia.
Qed.

End Particles.

(** C9. Degenerate node counts are safe: with fewer than two nodes the
    frame skips the spawn branch, so the division by the number of pairs
    is not evaluated (the update returns, with no division by zero), no
    random number is drawn and the pool holds nothing but the survivors of
    the particles it held before; and in no state at all is the division
    evaluated with a zero divisor. *)
Theorem degenerate_node_counts_safe (rnd : nat -> R) (a : Animation) :
  (List.length (nodes a) < 2)%nat ->
  updateParticles rnd a
  = Some (set_particles (survivors updateParticle (particles a)) a)
  /\ (forall a', updateParticles rnd a = Some a' ->
        (List.length (particles a') <= List.length (particles a))%nat
        /\ rng a' = rng a)
  /\ (forall b, exists b', updateParticles rnd b = Some b').
Proof.
  intros H.
  assert (E : updateParticles rnd a
              = Some (set_particles (survivors updateParticle (particles a)) a)).
  { unfold updateParticles. apply spawnParticles_skipped. exact H. }
  split; [exact E|]. split; [|apply updateParticles_total].
  intros a' E'. rewrite E in E'. injection E' as <-.
  split; [apply survivors_length | reflexivity].
Qed.

Lemma degenerate_node_counts_safe_witness :
  (List.length (nodes lonely) < 2)%nat
  /\ updateParticles halves lonely
     = Some (set_particles (survivors updateParticle (particles lonely)) lonely).
Proof.
  split; [cbn; lia|].
  exact (proj1 (degenerate_node_counts_safe halves lonely
                  ltac:(cbn; lia))).
Defined.

(** ** The frame *)

Section Frame.

Variable rnd : nat -> R.

Lemma updateTransition_total now a :
  transitionDuration a <> 0 ->
  exists a', updateTransition rnd now a = Some a' /\ camera a' = camera a.
Proof.
  intros Hd.
  destruct (isTransitioning a) eqn:Ht;
    [|exists a; unfold updateTransition; rewrite Ht; split; reflexivity].
  destruct (fromPreset a) as [from|] eqn:Hf;
    [|exists a; unfold updateTransition; rewrite Ht, Hf; split; reflexivity].
  destruct (toPreset a) as [to|] eqn:Hto;
    [|exists a; unfold updateTransition; rewrite Ht, Hf, Hto; split; reflexivity].
  destruct (updateTransition_step rnd now a from to _ Ht Hf Hto
              (rawProgress_nonzero now a Hd))
    as (a3 & Hrun & _ & _ & _ & Hc & _).
  rewrite Hrun. eexists; split; [reflexivity|].
  destruct (Rge_b _ 1); exact Hc.
Qed.

(** The spawn loops add particles and draw random numbers; the node pool
    and the camera are not theirs to change. *)
Lemma spawnInner_frame p i nodeA : forall rest j a,
  nodes (spawnInner rnd p i nodeA j rest a) = nodes a
  /\ camera (spawnInner rnd p i nodeA j rest a) = camera a.
Proof.
  induction rest as [|nodeB rest IH]; intros j a; cbn [spawnInner].
  - split; reflexivity.
  - unfold random, createParticle; cbn zeta iota beta.
    match goal with
    | |- context [spawnInner rnd p i nodeA (S j) rest ?a2] =>
        destruct (IH (S j) a2) as [H1 H2]; rewrite H1, H2
    end.
    destruct (Rlt_b _ _); split; reflexivity.
Qed.

Lemma spawnOuter_frame p : forall ns i a,
  nodes (spawnOuter rnd p i ns a) = nodes a
  /\ camera (spawnOuter rnd p i ns a) = camera a.
Proof.
  induction ns as [|nodeA rest IH]; intros i a; cbn [spawnOuter].
  - split; reflexivity.
  - destruct (IH (S i) (spawnInner rnd p i nodeA (S i) rest a)) as [H1 H2].
    destruct (spawnInner_frame p i nodeA rest (S i) a) as [H3 H4].
    split; congruence.
Qed.

Lemma updateParticles_frame a a' :
  updateParticles rnd a = Some a' ->
  nodes a' = nodes a /\ camera a' = camera a.
Proof.
  unfold updateParticles.
  set (b := set_particles (survivors updateParticle (particles a)) a).
  change (nodes a) with (nodes b). change (camera a) with (camera b).
  unfold spawnParticles.
  destruct (_ && _); [|intros [= <-]; split; reflexivity].
  destruct (divide _ _) as [p|]; [|discriminate].
  intros [= <-]. apply spawnOuter_frame.
Qed.

(** A frame always completes, and leaves every node inside the box. *)
Lemma animate_total now time a :
  transitionDuration a <> 0 ->
  valid_camera (camera a) ->
  exists a',
    animate rnd now time a = Some a'
    /\ camera a' = camera a
    /\ Forall (fun n => inside_box (camera a) (Node.position n)) (nodes a').
Proof.
  intros Hd Hc. unfold animate.
  destruct (updateTransition_total now a Hd) as (a1 & -> & Hc1).
  destruct (updateParticles_total rnd (updateNodes rnd time a1)) as (a2 & E).
  rewrite E. destruct (updateParticles_frame _ _ E) as [Hn Hc2].
  exists (updateRipples a2). split; [reflexivity|].
  rewrite <- Hc1 in Hc |- *.
  unfold updateNodes in Hn, Hc2.
  destruct (forEachNode_inside rnd time (nodes a1) 0%nat a1 Hc) as [HF Hcam].
  destruct (forEachNode rnd time 0 (nodes a1) a1) as [ns a'].
  cbn [fst snd] in *. cbn [updateRipples set_ripples nodes camera].
  cbn [set_nodes nodes camera] in Hn, Hc2.
  split; [congruence|]. rewrite Hn. exact HF.
Qed.

End Frame.

(** * Further properties *)

(** ** Node motion: steps without a response *)

Section QuietSteps.

Variable rnd : nat -> R.

Lemma collideX_inside time bX s :
  - bX <= THREE.x (Node.position (node s)) <= bX ->
  collideX rnd time bX s = s.
Proof.
  intros H; unfold collideX.
  rewrite Rgt_b_false, Rlt_b_false by lra. reflexivity.
Qed.

Lemma collideY_inside time bY s :
  - bY <= THREE.y (Node.position (node s)) <= bY ->
  collideY rnd time bY s = s.
Proof.
  intros H; unfold collideY.
  rewrite Rgt_b_false, Rlt_b_false by lra. reflexivity.
Qed.

Lemma collideZ_inside time bZ s :
  - bZ <= THREE.z (Node.position (node s)) <= bZ ->
  collideZ rnd time bZ s = s.
Proof.
  intros H; unfold collideZ.
  rewrite Rgt_b_false, Rlt_b_false by lra. reflexivity.
Qed.

(** The three tests leave the coordinate of an axis alone when the node is
    within the walls of that axis. *)
Lemma collide_inside time s ax :
  let c := camera (world s) in
  valid_camera c ->
  insideOn c ax (node s) ->
  coord ax (Node.position (node (collide rnd time s)))
  = coord ax (Node.position (node s)).
Proof.
  intros c Hc Hin.
  destruct (boundaries_nonneg c Hc) as (HX & HY & HZ).
  unfold collide; fold c.
  set (sX := collideX rnd time (boundaryX c) s).
  set (sY := collideY rnd time (boundaryY c) sX).
  destruct (collideX_position rnd time (boundaryX c) s HX) as (_ & Hxy & Hxz).
  destruct (collideY_position rnd time (boundaryY c) sX HY) as (_ & Hyx & Hyz).
  destruct (collideZ_position rnd time (boundaryZ c) sY HZ) as (_ & Hzx & Hzy).
  fold sX in Hxy, Hxz, Hyx, Hyz. fold sY in Hyx, Hyz, Hzx, Hzy.
  unfold insideOn in Hin.
  destruct ax; cbn [coord boundary] in *.
  - rewrite Hzx, Hyx. unfold sX. now rewrite collideX_inside.
  - rewrite Hzy. unfold sY. rewrite collideY_inside; [exact Hxy|].
    rewrite Hxy; exact Hin.
  - rewrite collideZ_inside; [now rewrite Hyz, Hxz|].
    fold sY. rewrite Hyz, Hxz; exact Hin.
Qed.

Lemma collide_blocked time s :
  debounced time s = false -> quiet s (collide rnd time s).
Proof.
  intros Hd. unfold collide.
  pose proof (collideX_blocked rnd time (boundaryX (camera (world s))) s Hd) as QX.
  set (sX := collideX rnd time _ s) in *.
  assert (HdX : debounced time sX = false)
    by (rewrite (quiet_debounced _ _ _ QX); exact Hd).
  pose proof (collideY_blocked rnd time (boundaryY (camera (world s))) sX HdX) as QY.
  set (sY := collideY rnd time _ sX) in *.
  assert (HdY : debounced time sY = false)
    by (rewrite (quiet_debounced _ _ _ QY); exact HdX).
  pose proof (collideZ_blocked rnd time (boundaryZ (camera (world s))) sY HdY) as QZ.
  eapply quiet_trans; [exact QX|]. eapply quiet_trans; eassumption.
Qed.

Lemma collide_calm time s :
  let c := camera (world s) in
  valid_camera c ->
  (forall ax, ~ crossesOutward c ax (node s)) ->
  quiet s (collide rnd time s).
Proof.
  intros c Hc Hno.
  destruct (boundaries_nonneg c Hc) as (HX & HY & HZ).
  unfold collide; fold c.
  assert (QX : quiet s (collideX rnd time (boundaryX c) s)).
  { apply collideX_calm; [exact HX | |];
      intros H; apply (Hno AxisX); [left | right]; exact H. }
  destruct (collideX_position rnd time (boundaryX c) s HX) as (_ & Hy & Hz).
  set (sX := collideX rnd time (boundaryX c) s) in *.
  destruct (quiet_node _ _ QX) as (HvX & _).
  assert (QY : quiet sX (collideY rnd time (boundaryY c) sX)).
  { apply collideY_calm; [exact HY | |]; rewrite Hy, HvX;
      intros H; apply (Hno AxisY); [left | right]; exact H. }
  destruct (collideY_position rnd time (boundaryY c) sX HY) as (_ & _ & Hz').
  set (sY := collideY rnd time (boundaryY c) sX) in *.
  destruct (quiet_node _ _ QY) as (HvY & _).
  assert (QZ : quiet sY (collideZ rnd time (boundaryZ c) sY)).
  { apply collideZ_calm; [exact HZ | |]; rewrite Hz', Hz, HvY, HvX;
      intros H; apply (Hno AxisZ); [left | right]; exact H. }
  eapply quiet_trans; [exact QX|]. eapply quiet_trans; eassumption.
Qed.

Lemma crossesOutward_dec c ax n :
  {crossesOutward c ax n} + {~ crossesOutward c ax n}.
Proof.
  unfold crossesOutward.
  destruct (Rgt_dec (coord ax (Node.position n)) (boundary ax c));
    destruct (Rgt_dec (coord ax (Node.velocity n)) 0);
    destruct (Rlt_dec (coord ax (Node.position n)) (- boundary ax c));
    destruct (Rlt_dec (coord ax (Node.velocity n)) 0);
    try (left; tauto); right; tauto.
Qed.

(** What a step does to the velocity, the stamp and the pools: nothing, or
    the response of the first axis crossed outward. *)
Lemma collide_cases time s :
  let c := camera (world s) in
  valid_camera c ->
  quiet s (collide rnd time s)
  \/ exists ax,
       crossesOutward c ax (node s)
       /\ debounced time s = true
       /\ coord ax (Node.velocity (node (collide rnd time s)))
          = - coord ax (Node.velocity (node s))
            * (Node.restitution (node s) * wallRestitution (params (world s)))
       /\ (forall ax', ax' <> ax ->
           coord ax' (Node.velocity (node (collide rnd time s)))
           = coord ax' (Node.velocity (node s)) * wallFriction (params (world s)))
       /\ Node.lastCollisionTime (node (collide rnd time s)) = time.
Proof.
  intros c Hc.
  destruct (debounced time s) eqn:Hd; [|left; apply collide_blocked; exact Hd].
  destruct (crossesOutward_dec c AxisX (node s)) as [HX|HX].
  { right; exists AxisX.
    destruct (collide_first rnd time s AxisX Hc) as (H1 & H2 & H3 & _); auto.
    intros ax' Hb; destruct ax'; destruct Hb. }
  destruct (crossesOutward_dec c AxisY (node s)) as [HY|HY].
  { right; exists AxisY.
    destruct (collide_first rnd time s AxisY Hc) as (H1 & H2 & H3 & _); auto.
    intros ax' Hb; destruct ax'; try destruct Hb; exact HX. }
  destruct (crossesOutward_dec c AxisZ (node s)) as [HZ|HZ].
  { right; exists AxisZ.
    destruct (collide_first rnd time s AxisZ Hc) as (H1 & H2 & H3 & _); auto.
    intros ax' Hb; destruct ax'; try destruct Hb; assumption. }
  left; apply collide_calm; [exact Hc|]. intros []; assumption.
Qed.

End QuietSteps.

(** X1. A node that, after the position update, has not crossed any wall
    while moving outward through it (in free flight, at rest on a wall, or
    moving back in) gets no collision response: its velocity and collision
    stamp are unchanged, no ripple is added, no random number is drawn and
    the step counts as collision-free; along every axis on which it lies
    within the walls, its position is the old one plus velocity times
    nodeSpeed. *)
Theorem no_response_without_outward_crossing (rnd : nat -> R) (time : R)
    (index : nat) (a : Animation) (n : Node.t) :
  valid_camera (camera a) ->
  (forall ax, ~ crossesOutward (camera a) ax (integrate time index a n)) ->
  Node.velocity (node (updateNode rnd time index a n)) = Node.velocity n
  /\ Node.lastCollisionTime (node (updateNode rnd time index a n))
     = Node.lastCollisionTime n
  /\ world (updateNode rnd time index a n) = a
  /\ collisionOccurred (updateNode rnd time index a n) = false
  /\ (forall ax, insideOn (camera a) ax (integrate time index a n) ->
        coord ax (Node.position (node (updateNode rnd time index a n)))
        = coord ax (Node.position n)
          + coord ax (Node.velocity n) * nodeSpeed (params a)).
Proof.
  intros Hc Hno.
  set (s := mkStep (integrate time index a n) false a).
  destruct (collide_calm rnd time s Hc Hno) as (Hn & Hco & Hw).
  destruct (updateNode_collide rnd time index a n) as (Hpos & Hvel & Hlast & Hwo).
  fold s in Hpos, Hvel, Hlast, Hwo.
  rewrite Hvel, Hlast, Hwo, Hpos, Hw.
  split; [rewrite Hn; reflexivity|]. split; [rewrite Hn; reflexivity|].
  split; [reflexivity|]. split; [exact Hco|].
  intros ax Hin. rewrite (collide_inside rnd time s ax Hc Hin).
  destruct ax; reflexivity.
Qed.

Lemma wallNode_later_calm (ax : Axis) :
  ~ crossesOutward sampleCamera ax
      (integrate 1 0 (scene [wallNode])
         (still (THREE.mkVector3 (-0.1) 0 (-0.1)) (THREE.mkVector3 0.1 0 0.05))).
Proof.
  destruct (boundaries_nonneg sampleCamera valid_sampleCamera) as (HX & HY & HZ).
  unfold boundaryZ, depth in HZ.
  intros [[Hp Hv]|[Hp Hv]]; destruct ax; cbn [coord boundary] in *;
    cbn -[boundaryX boundaryY boundaryZ] in Hp, Hv;
    unfold boundaryZ, depth in *; lra.
Qed.

Lemma no_response_without_outward_crossing_witness :
  Node.velocity
    (node (updateNode halves 1 0 (scene [wallNode])
             (still (THREE.mkVector3 (-0.1) 0 (-0.1)) (THREE.mkVector3 0.1 0 0.05))))
  = THREE.mkVector3 0.1 0 0.05
  /\ world (updateNode halves 1 0 (scene [wallNode])
             (still (THREE.mkVector3 (-0.1) 0 (-0.1)) (THREE.mkVector3 0.1 0 0.05)))
     = scene [wallNode].
Proof.
  destruct (no_response_without_outward_crossing halves 1 0 (scene [wallNode])
              (still (THREE.mkVector3 (-0.1) 0 (-0.1)) (THREE.mkVector3 0.1 0 0.05))
              valid_sampleCamera wallNode_later_calm) as (Hv & _ & Hw & _).
  split; [exact Hv | exact Hw].
Defined.

(** X2. Collision debounce: a node whose last collision is at most 0.1 s
    old gets no collision response in the step, whatever walls it has
    crossed: velocity and stamp are unchanged, no ripple is added and no
    random number is drawn; its position is still clamped into the box. *)
Theorem debounce_blocks_response (rnd : nat -> R) (time : R) (index : nat)
    (a : Animation) (n : Node.t) :
  valid_camera (camera a) ->
  time - Node.lastCollisionTime n <= minTimeBetweenCollisions ->
  Node.velocity (node (updateNode rnd time index a n)) = Node.velocity n
  /\ Node.lastCollisionTime (node (updateNode rnd time index a n))
     = Node.lastCollisionTime n
  /\ world (updateNode rnd time index a n) = a
  /\ inside_box (camera a) (Node.position (node (updateNode rnd time index a n))).
Proof.
  intros Hc Hd.
  set (s := mkStep (integrate time index a n) false a).
  assert (Hb : debounced time s = false).
  { unfold debounced; cbn [node s integrate set_position set_activity
                            Node.lastCollisionTime].
    apply Rgt_b_false; lra. }
  destruct (collide_blocked rnd time s Hb) as (Hn & Hco & Hw).
  destruct (updateNode_collide rnd time index a n) as (Hpos & Hvel & Hlast & Hwo).
  fold s in Hpos, Hvel, Hlast, Hwo.
  rewrite Hvel, Hlast, Hwo, Hw.
  split; [rewrite Hn; reflexivity|]. split; [rewrite Hn; reflexivity|].
  split; [reflexivity|]. apply updateNode_inside; exact Hc.
Qed.

Lemma debounce_blocks_response_witness :
  1 - Node.lastCollisionTime (set_lastCollisionTime 0.95 cornerNode)
  <= minTimeBetweenCollisions
  /\ Node.velocity
       (node (updateNode halves 1 0 (scene [cornerNode])
                (set_lastCollisionTime 0.95 cornerNode)))
     = THREE.mkVector3 0.1 0.1 0
  /\ world (updateNode halves 1 0 (scene [cornerNode])
              (set_lastCollisionTime 0.95 cornerNode))
     = scene [cornerNode].
Proof.
  assert (H : 1 - Node.lastCollisionTime (set_lastCollisionTime 0.95 cornerNode)
              <= minTimeBetweenCollisions)
    by (unfold minTimeBetweenCollisions; cbn; lra).
  destruct (debounce_blocks_response halves 1 0 (scene [cornerNode])
              (set_lastCollisionTime 0.95 cornerNode) valid_sampleCamera H)
    as (Hv & _ & Hw & _).
  split; [exact H|]. split; [exact Hv | exact Hw].
Defined.

(** X3. Walls never add speed: when the product of the node's restitution
    and the wall restitution, and the wall friction, lie between 0 and 1 (as
    the ranges of [createNodes] and of the sliders have them), no component
    of the velocity is larger in magnitude after the step than before. *)
Theorem step_never_speeds_up (rnd : nat -> R) (time : R) (index : nat)
    (a : Animation) (n : Node.t) (ax : Axis) :
  valid_camera (camera a) ->
  0 <= Node.restitution n * wallRestitution (params a) <= 1 ->
  0 <= wallFriction (params a) <= 1 ->
  Rabs (coord ax (Node.velocity (node (updateNode rnd time index a n))))
  <= Rabs (coord ax (Node.velocity n)).
Proof.
  intros Hc Hk Hf.
  set (s := mkStep (integrate time index a n) false a).
  destruct (updateNode_collide rnd time index a n) as (_ & Hvel & _).
  fold s in Hvel. rewrite Hvel.
  destruct (collide_cases rnd time s Hc) as [(Hn & _)|(ax0 & _ & _ & H1 & H2 & _)].
  - rewrite Hn. apply Rle_refl.
  - cbn [node s world] in H1, H2.
    change (Node.velocity (integrate time index a n)) with (Node.velocity n) in *.
    change (Node.restitution (integrate time index a n))
      with (Node.restitution n) in *.
    assert (Hscale : forall v k, 0 <= k <= 1 -> Rabs (v * k) <= Rabs v).
    { intros v k Hk'. rewrite Rabs_mult, (Rabs_pos_eq k) by lra.
      pose proof (Rabs_pos v). nra. }
    assert (Hax : ax = ax0 \/ ax <> ax0)
      by (destruct ax, ax0; (left; reflexivity) || (right; discriminate)).
    destruct Hax as [->|Hne].
    + rewrite H1, <- Ropp_mult_distr_l, Rabs_Ropp. apply Hscale; exact Hk.
    + rewrite (H2 ax Hne). apply Hscale; exact Hf.
Qed.

Lemma step_never_speeds_up_witness :
  Rabs (coord AxisX
          (Node.velocity (node (updateNode halves 1 0 (scene [wallNode]) wallNode))))
  <= Rabs (coord AxisX (Node.velocity wallNode)).
Proof.
  apply (step_never_speeds_up halves 1 0 (scene [wallNode]) wallNode AxisX
           valid_sampleCamera); cbn; lra.
Defined.

(** ** Node motion: the ripples of a step *)

Section RipplePool.

Variable rnd : nat -> R.

Lemma collideX_pool time s :
  let c := camera (world s) in
  let s' := collideX rnd time (boundaryX c) s in
  exists extra,
    ripples (world s') = ripples (world s) ++ extra
    /\ Forall (emittedBy (world s)) extra
    /\ params (world s') = params (world s)
    /\ camera (world s') = camera (world s)
    /\ (extra = []
        \/ (exists r, extra = [r])
           /\ showRipples (params (world s)) = true
           /\ Node.lastCollisionTime (node s') = time).
Proof.
  intros c. unfold collideX.
  assert (Hnone : forall s0 : Step, world s0 = world s ->
            exists extra,
              ripples (world s0) = ripples (world s) ++ extra
              /\ Forall (emittedBy (world s)) extra
              /\ params (world s0) = params (world s)
              /\ camera (world s0) = camera (world s)
              /\ (extra = []
                  \/ (exists r, extra = [r])
                     /\ showRipples (params (world s)) = true
                     /\ Node.lastCollisionTime (node s0) = time)).
  { intros s0 ->. exists []. rewrite app_nil_r. repeat split; auto. }
  destruct (Rgt_b _ (boundaryX c)).
  - destruct (_ && _); [|apply Hnone; reflexivity].
    unfold emitRipple. cbn [world bounceX stamp angularImpulse random on_node
                             node collisionOccurred].
    cbn [params set_rng]. destruct (showRipples (params (world s))) eqn:Hs.
    + eexists [_]. cbn. split; [reflexivity|].
      split; [constructor; [|constructor]; repeat split|].
      split; [reflexivity|]. split; [reflexivity|].
      right. split; [eexists; reflexivity|]. split; reflexivity.
    + exists []. cbn. rewrite app_nil_r. repeat split; auto.
  - destruct (Rlt_b _ (- boundaryX c)); [|apply Hnone; reflexivity].
    destruct (_ && _); [|apply Hnone; reflexivity].
    unfold emitRipple. cbn [world bounceX stamp angularImpulse random on_node
                             node collisionOccurred].
    cbn [params set_rng]. destruct (showRipples (params (world s))) eqn:Hs.
    + eexists [_]. cbn. split; [reflexivity|].
      split; [constructor; [|constructor]; repeat split|].
      split; [reflexivity|]. split; [reflexivity|].
      right. split; [eexists; reflexivity|]. split; reflexivity.
    + exists []. cbn. rewrite app_nil_r. repeat split; auto.
Qed.

Lemma collideY_pool time s :
  let c := camera (world s) in
  let s' := collideY rnd time (boundaryY c) s in
  exists extra,
    ripples (world s') = ripples (world s) ++ extra
    /\ Forall (emittedBy (world s)) extra
    /\ params (world s') = params (world s)
    /\ camera (world s') = camera (world s)
    /\ (extra = []
        \/ (exists r, extra = [r])
           /\ showRipples (params (world s)) = true
           /\ Node.lastCollisionTime (node s') = time).
Proof.
  intros c. unfold collideY.
  assert (Hnone : forall s0 : Step, world s0 = world s ->
            exists extra,
              ripples (world s0) = ripples (world s) ++ extra
              /\ Forall (emittedBy (world s)) extra
              /\ params (world s0) = params (world s)
              /\ camera (world s0) = camera (world s)
              /\ (extra = []
                  \/ (exists r, extra = [r])
                     /\ showRipples (params (world s)) = true
                     /\ Node.lastCollisionTime (node s0) = time)).
  { intros s0 ->. exists []. rewrite app_nil_r. repeat split; auto. }
  destruct (Rgt_b _ (boundaryY c)).
  - destruct (_ && _); [|apply Hnone; reflexivity].
    unfold emitRipple. cbn [world bounceY stamp angularImpulse random on_node
                             node collisionOccurred].
    cbn [params set_rng]. destruct (showRipples (params (world s))) eqn:Hs.
    + eexists [_]. cbn. split; [reflexivity|].
      split; [constructor; [|constructor]; repeat split|].
      split; [reflexivity|]. split; [reflexivity|].
      right. split; [eexists; reflexivity|]. split; reflexivity.
    + exists []. cbn. rewrite app_nil_r. repeat split; auto.
  - destruct (Rlt_b _ (- boundaryY c)); [|apply Hnone; reflexivity].
    destruct (_ && _); [|apply Hnone; reflexivity].
    unfold emitRipple. cbn [world bounceY stamp angularImpulse random on_node
                             node collisionOccurred].
    cbn [params set_rng]. destruct (showRipples (params (world s))) eqn:Hs.
    + eexists [_]. cbn. split; [reflexivity|].
      split; [constructor; [|constructor]; repeat split|].
      split; [reflexivity|]. split; [reflexivity|].
      right. split; [eexists; reflexivity|]. split; reflexivity.
    + exists []. cbn. rewrite app_nil_r. repeat split; auto.
Qed.

Lemma collideZ_pool time s :
  let c := camera (world s) in
  let s' := collideZ rnd time (boundaryZ c) s in
  exists extra,
    ripples (world s') = ripples (world s) ++ extra
    /\ Forall (emittedBy (world s)) extra
    /\ params (world s') = params (world s)
    /\ camera (world s') = camera (world s)
    /\ (extra = []
        \/ (exists r, extra = [r])
           /\ showRipples (params (world s)) = true
           /\ Node.lastCollisionTime (node s') = time).
Proof.
  intros c. unfold collideZ.
  assert (Hnone : forall s0 : Step, world s0 = world s ->
            exists extra,
              ripples (world s0) = ripples (world s) ++ extra
              /\ Forall (emittedBy (world s)) extra
              /\ params (world s0) = params (world s)
              /\ camera (world s0) = camera (world s)
              /\ (extra = []
                  \/ (exists r, extra = [r])
                     /\ showRipples (params (world s)) = true
                     /\ Node.lastCollisionTime (node s0) = time)).
  { intros s0 ->. exists []. rewrite app_nil_r. repeat split; auto. }
  destruct (Rgt_b _ (boundaryZ c)).
  - destruct (_ && _); [|apply Hnone; reflexivity].
    exists []. cbn. rewrite app_nil_r. repeat split; auto.
  - destruct (Rlt_b _ (- boundaryZ c)); [|apply Hnone; reflexivity].
    destruct (_ && _); [|apply Hnone; reflexivity].
    unfold emitRipple. cbn [world bounceZ stamp angularImpulse random on_node
                             node collisionOccurred].
    cbn [params set_rng]. destruct (showRipples (params (world s))) eqn:Hs.
    + eexists [_]. cbn. split; [reflexivity|].
      split; [constructor; [|constructor]; repeat split|].
      split; [reflexivity|]. split; [reflexivity|].
      right. split; [eexists; reflexivity|]. split; reflexivity.
    + exists []. cbn. rewrite app_nil_r. repeat split; auto.
Qed.

Lemma emittedBy_same a b r :
  params b = params a -> camera b = camera a -> emittedBy a r -> emittedBy b r.
Proof. unfold emittedBy; intros -> ->; exact (fun H => H). Qed.

Lemma quiet_no_ripple s s' extra :
  quiet s s' -> ripples (world s') = ripples (world s) ++ extra -> extra = [].
Proof.
  intros (_ & _ & Hw) H. rewrite Hw in H.
  rewrite <- (app_nil_r (ripples (world s))) in H at 1.
  apply app_inv_head in H. congruence.
Qed.

(** The three tests add at most one ripple to the pool. *)
Lemma collide_pool time s :
  exists extra,
    ripples (world (collide rnd time s)) = ripples (world s) ++ extra
    /\ Forall (emittedBy (world s)) extra
    /\ (List.length extra <= 1)%nat
    /\ (showRipples (params (world s)) = false -> extra = [])
    /\ params (world (collide rnd time s)) = params (world s)
    /\ camera (world (collide rnd time s)) = camera (world s).
Proof.
  unfold collide. set (c := camera (world s)).
  destruct (collideX_pool time s) as (e1 & R1 & F1 & P1 & C1 & L1).
  fold c in R1, P1, C1, L1.
  set (sX := collideX rnd time (boundaryX c) s) in *.
  destruct (collideY_pool time sX) as (e2 & R2 & F2 & P2 & C2 & L2).
  rewrite C1 in R2, P2, C2, L2. fold c in R2, P2, C2, L2.
  set (sY := collideY rnd time (boundaryY c) sX) in *.
  destruct (collideZ_pool time sY) as (e3 & R3 & F3 & P3 & C3 & L3).
  rewrite C2 in R3, P3, C3, L3. fold c in R3, P3, C3, L3.
  set (sZ := collideZ rnd time (boundaryZ c) sY) in *.
  assert (F2' : Forall (emittedBy (world s)) e2).
  { eapply Forall_impl; [|exact F2]. intros r.
    apply emittedBy_same; symmetry; [exact P1 | exact C1]. }
  assert (F3' : Forall (emittedBy (world s)) e3).
  { eapply Forall_impl; [|exact F3]. intros r.
    apply emittedBy_same; symmetry; [rewrite P2; exact P1 | exact C2]. }
  assert (B2 : Node.lastCollisionTime (node sX) = time -> e2 = [] /\ e3 = []).
  { intros Ht. pose proof (debounced_after time sX Ht) as HdX.
    pose proof (collideY_blocked rnd time (boundaryY c) sX HdX) as QY.
    fold sY in QY.
    assert (HdY : debounced time sY = false)
      by (rewrite (quiet_debounced _ _ _ QY); exact HdX).
    pose proof (collideZ_blocked rnd time (boundaryZ c) sY HdY) as QZ.
    fold sZ in QZ.
    split; [exact (quiet_no_ripple _ _ _ QY R2)
           | exact (quiet_no_ripple _ _ _ QZ R3)]. }
  assert (B3 : Node.lastCollisionTime (node sY) = time -> e3 = []).
  { intros Ht. pose proof (debounced_after time sY Ht) as HdY.
    pose proof (collideZ_blocked rnd time (boundaryZ c) sY HdY) as QZ.
    fold sZ in QZ. exact (quiet_no_ripple _ _ _ QZ R3). }
  exists (e1 ++ e2 ++ e3).
  split; [rewrite R3, R2, R1, <- !app_assoc; reflexivity|].
  split; [repeat (apply Forall_app; split); assumption|].
  split.
  { destruct L1 as [->|((r1 & ->) & _ & Ht1)].
    - destruct L2 as [->|((r2 & ->) & _ & Ht2)].
      + destruct L3 as [->|((r3 & ->) & _)]; cbn; lia.
      + rewrite (B3 Ht2); cbn; lia.
    - destruct (B2 Ht1) as [-> ->]; cbn; lia. }
  split; [|split; [rewrite P3, P2; exact P1 | exact C3]].
  intros Hs.
  destruct L1 as [->|(_ & Hs1 & _)]; [|congruence].
  destruct L2 as [->|(_ & Hs2 & _)]; [|rewrite P1 in Hs2; congruence].
  destruct L3 as [->|(_ & Hs3 & _)];
    [reflexivity | rewrite P2, P1 in Hs3; congruence].
Qed.

Lemma forEachNode_pool time ns : forall index a,
  exists extra,
    ripples (snd (forEachNode rnd time index ns a)) = ripples a ++ extra
    /\ Forall (emittedBy a) extra
    /\ (List.length extra <= List.length ns)%nat
    /\ (showRipples (params a) = false -> extra = [])
    /\ params (snd (forEachNode rnd time index ns a)) = params a
    /\ camera (snd (forEachNode rnd time index ns a)) = camera a.
Proof.
  induction ns as [|n rest IH]; intros index a; cbn [forEachNode].
  - exists []. cbn. rewrite app_nil_r. repeat split; auto.
  - destruct (collide_pool time (mkStep (integrate time index a n) false a))
      as (e1 & R1 & F1 & L1 & S1 & P1 & C1).
    cbn [world] in R1, F1, S1, P1, C1.
    change (world (collide rnd time (mkStep (integrate time index a n) false a)))
      with (world (updateNode rnd time index a n)) in R1, P1, C1.
    destruct (IH (S index) (world (updateNode rnd time index a n)))
      as (e2 & R2 & F2 & L2 & S2 & P2 & C2).
    destruct (forEachNode rnd time (S index) rest
                (world (updateNode rnd time index a n))) as [rest' a'].
    cbn [snd] in *.
    exists (e1 ++ e2).
    split; [rewrite R2, R1, app_assoc; reflexivity|].
    split.
    { apply Forall_app; split; [exact F1|].
      eapply Forall_impl; [|exact F2]. intros r.
      apply emittedBy_same; congruence. }
    split; [rewrite length_app; cbn; lia|].
    split; [|split; congruence].
    intros Hs. rewrite (S1 Hs), S2; [reflexivity | congruence].
Qed.

End RipplePool.

(** X4. The ripples of a frame: [updateNodes] keeps the ripples of the pool
    in order and appends at most one ripple per node, none at all when
    ripples are disabled; each new ripple has age 0, the ripple duration and
    the radius 4 * rippleIntensity * rippleSize of that moment, lies on the
    plane of its wall and carries the normal that points into the box. *)
Theorem updateNodes_ripples (rnd : nat -> R) (time : R) (a : Animation) :
  exists extra,
    ripples (updateNodes rnd time a) = ripples a ++ extra
    /\ (List.length extra <= List.length (nodes a))%nat
    /\ (showRipples (params a) = false -> extra = [])
    /\ Forall (fun r =>
                 coord (wallAxis (Ripple.wallType r)) (Ripple.position r)
                 = wallCoordinate (camera a) (Ripple.wallType r)
                 /\ Ripple.normal r = inwardNormal (Ripple.wallType r)
                 /\ Ripple.age r = 0
                 /\ Ripple.maxAge r = rippleDuration (params a)
                 /\ Ripple.maxRadius r
                    = 4.0 * rippleIntensity (params a) * rippleSize (params a))
         extra.
Proof.
  unfold updateNodes.
  destruct (forEachNode_pool rnd time (nodes a) 0%nat a)
    as (extra & R & F & L & S & _).
  destruct (forEachNode rnd time 0 (nodes a) a) as [ns a']. cbn [snd] in *.
  exists extra. cbn [ripples set_nodes].
  split; [exact R|]. split; [exact L|]. split; [exact S|].
  eapply Forall_impl; [|exact F].
  intros r ((H1 & H2) & H3 & H4 & H5). auto.
Qed.

(** ** The activity oscillator *)

Lemma activity_collideX rnd time b s :
  Node.activity (node (collideX rnd time b s)) = Node.activity (node s).
Proof.
  unfold collideX.
  repeat match goal with
         | |- context [if ?c then _ else _] => destruct c
         end; rewrite ?node_emitRipple; reflexivity.
Qed.

Lemma activity_collideY rnd time b s :
  Node.activity (node (collideY rnd time b s)) = Node.activity (node s).
Proof.
  unfold collideY.
  repeat match goal with
         | |- context [if ?c then _ else _] => destruct c
         end; rewrite ?node_emitRipple; reflexivity.
Qed.

Lemma activity_collideZ rnd time b s :
  Node.activity (node (collideZ rnd time b s)) = Node.activity (node s).
Proof.
  unfold collideZ.
  repeat match goal with
         | |- context [if ?c then _ else _] => destruct c
         end; rewrite ?node_emitRipple; reflexivity.
Qed.

Lemma activity_collide rnd time s :
  Node.activity (node (collide rnd time s)) = Node.activity (node s).
Proof.
  unfold collide.
  now rewrite activity_collideZ, activity_collideY, activity_collideX.
Qed.

Lemma forEachNode_activity rnd time ns : forall index a i n',
  nth_error (fst (forEachNode rnd time index ns a)) i = Some n' ->
  Node.activity n'
  = (sin (time * activitySpeed (params a) + INR (index + i)) + 1) * 0.5.
Proof.
  induction ns as [|n rest IH]; intros index a i n'; cbn [forEachNode].
  - destruct i; discriminate.
  - destruct (forEachNode_pool rnd time [n] index a) as (_ & _ & _ & _ & _ & P & _).
    cbn [forEachNode snd] in P.
    specialize (IH (S index) (world (updateNode rnd time index a n))).
    destruct (forEachNode rnd time (S index) rest
                (world (updateNode rnd time index a n))) as [rest' a'].
    cbn [fst snd] in *. destruct i as [|i]; cbn [nth_error].
    + intros [= <-]. unfold updateNode, spin.
      cbn [node on_node Node.activity set_rotation set_angularVelocity].
      rewrite activity_collide. cbn. now rewrite Nat.add_0_r.
    + intros H. rewrite (IH i n' H), P.
      now replace (S index + i)%nat with (index + S i)%nat by lia.
Qed.

(** X5. Activity: [updateNodes] keeps the number of nodes and sets the
    activity of the node at index [i] to (sin(time * activitySpeed + i) + 1)
    / 2, a value between 0 and 1, whatever happens to the node in the
    collision tests. *)
Theorem updateNodes_activity (rnd : nat -> R) (time : R) (a : Animation) :
  List.length (nodes (updateNodes rnd time a)) = List.length (nodes a)
  /\ forall i n',
       nth_error (nodes (updateNodes rnd time a)) i = Some n' ->
       Node.activity n'
       = (sin (time * activitySpeed (params a) + INR i) + 1) * 0.5
       /\ 0 <= Node.activity n' <= 1.
Proof.
  unfold updateNodes.
  pose proof (forEachNode_activity rnd time (nodes a) 0 a) as Hact.
  assert (Hlen : forall ns index b,
            List.length (fst (forEachNode rnd time index ns b)) = List.length ns).
  { induction ns as [|n rest IH]; intros index b; cbn [forEachNode];
      [reflexivity|].
    specialize (IH (S index) (world (updateNode rnd time index b n))).
    destruct (forEachNode rnd time (S index) rest _) as [rest' b'].
    cbn [fst] in *. cbn. now rewrite IH. }
  specialize (Hlen (nodes a) 0%nat a).
  destruct (forEachNode rnd time 0 (nodes a) a) as [ns a'].
  cbn [fst nodes set_nodes] in *. split; [exact Hlen|].
  intros i n' H. specialize (Hact i n' H). cbn [Nat.add] in Hact.
  split; [exact Hact|]. rewrite Hact.
  pose proof (SIN_bound (time * activitySpeed (params a) + INR i)). lra.
Qed.

(** ** The box environment *)

(** X6. The rendered box and the collision box agree: the five planes of
    [createBoxEnvironment] (floor, ceiling, left, right, back; no front
    wall) are placed exactly at the coordinates at which [updateNodes]
    clamps the nodes and emits the ripples of those walls, and the floor and
    ceiling, the side walls and the back wall are as wide and as high as
    the box. *)
Theorem box_environment_matches_collisions (c : Camera) :
  map wall (createBoxEnvironment c) = [floor; ceiling; left; right; back]
  /\ Forall (fun w =>
               planePosition w = wallCoordinate c (wall w)
               /\ planeWidth w
                  = match wallAxis (wall w) with
                    | AxisX => 2 * boundaryZ c
                    | _ => 2 * boundaryX c
                    end
               /\ planeHeight w
                  = match wallAxis (wall w) with
                    | AxisY => 2 * boundaryZ c
                    | _ => 2 * boundaryY c
                    end)
       (createBoxEnvironment c).
Proof.
  split; [reflexivity|].
  unfold createBoxEnvironment.
  repeat (apply Forall_cons; [cbn [wall planePosition planeWidth planeHeight
                                   wallAxis wallCoordinate];
                              unfold boundaryX, boundaryY, boundaryZ, depth;
                              repeat split; lra|]).
  apply Forall_nil.
Qed.

(** ** The pools: ripples *)

Lemma survivors_Forall {A : Type} (f : A -> option A) (P : A -> Prop)
    (l : list A) :
  (forall x y, In x l -> f x = Some y -> P y) ->
  Forall P (survivors f l).
Proof.
  induction l as [|x l IH]; intros H; cbn [survivors]; [constructor|].
  destruct (f x) as [y|] eqn:E.
  - constructor; [apply (H x y); [left; reflexivity | exact E]|].
    apply IH. intros x' y' Hin. apply H. right; exact Hin.
  - apply IH. intros x' y' Hin. apply H. right; exact Hin.
Qed.

(** X7. The ripple pool after [updateRipples]: the pool does not grow, and
    for ripples that entered the update with an age that is not negative,
    every ripple left has an age strictly between 0 and its captured
    duration, a scale equal to its maximal radius times age / duration
    (below the maximal radius in magnitude), and an opacity
    0.6 * (1 - (age / duration)^3) strictly between 0 and 0.6. *)
Theorem updateRipples_pool (a : Animation) :
  Forall (fun r => 0 <= Ripple.age r) (ripples a) ->
  (List.length (ripples (updateRipples a)) <= List.length (ripples a))%nat
  /\ Forall (fun r =>
               0 < Ripple.age r < Ripple.maxAge r
               /\ Ripple.scale r
                  = Ripple.maxRadius r * (Ripple.age r / Ripple.maxAge r)
               /\ Rabs (Ripple.scale r) <= Rabs (Ripple.maxRadius r)
               /\ Ripple.opacity r
                  = 0.6 * (1 - (Ripple.age r / Ripple.maxAge r) ^ 3)
               /\ 0 < Ripple.opacity r < 0.6)
       (ripples (updateRipples a)).
Proof.
  intros Hage. unfold updateRipples; cbn [ripples set_ripples].
  split; [apply survivors_length|].
  apply survivors_Forall. intros r r' Hin E.
  rewrite Forall_forall in Hage. specialize (Hage r Hin).
  pose proof deltaTime_pos as Hdt.
  destruct (updateRipple_Some _ _ E) as (Ha & Hlt & Hm & Hop).
  assert (Hscale : Ripple.scale r'
                   = Ripple.maxRadius r' * (Ripple.age r' / Ripple.maxAge r')).
  { unfold updateRipple in E. destruct (Rge_b _ _); [discriminate|].
    injection E as <-. reflexivity. }
  rewrite Hm in *.
  set (p := Ripple.age r' / Ripple.maxAge r) in *.
  assert (Hm0 : 0 < Ripple.maxAge r) by lra.
  assert (Hp : 0 < p < 1).
  { unfold p. split.
    - apply Rdiv_lt_0_compat; lra.
    - apply (Rmult_lt_reg_r (Ripple.maxAge r)); [exact Hm0|].
      unfold Rdiv. rewrite Rmult_assoc, Rinv_l by lra. lra. }
  assert (Hp3 : 0 < p ^ 3 < 1).
  { split; [apply pow_lt; lra|].
    assert (H1 := cube_increasing p 1 ltac:(lra) ltac:(lra)). lra. }
  split; [lra|]. split; [exact Hscale|].
  split.
  { rewrite Hscale, Rabs_mult, (Rabs_pos_eq p) by lra.
    pose proof (Rabs_pos (Ripple.maxRadius r')). nra. }
  split; [exact Hop|]. rewrite Hop. lra.
Qed.

Lemma updateRipples_pool_witness :
  Forall (fun r =>
            0 < Ripple.age r < Ripple.maxAge r
            /\ Ripple.scale r
               = Ripple.maxRadius r * (Ripple.age r / Ripple.maxAge r)
            /\ Rabs (Ripple.scale r) <= Rabs (Ripple.maxRadius r)
            /\ Ripple.opacity r
               = 0.6 * (1 - (Ripple.age r / Ripple.maxAge r) ^ 3)
            /\ 0 < Ripple.opacity r < 0.6)
    (ripples (updateRipples (set_ripples [spawned 2.0] (scene [])))).
Proof.
  apply (updateRipples_pool (set_ripples [spawned 2.0] (scene []))).
  apply Forall_cons; [cbn; lra | apply Forall_nil].
Defined.

(** ** The pools: particles *)

Lemma updateParticle_Some (p p' : Particle.t) :
  updateParticle p = Some p' ->
  Particle.age p' = Particle.age p + deltaTime
  /\ Particle.progress p'
     = Particle.progress p + Particle.speed p * deltaTime
  /\ Particle.progress p' < 1
  /\ Particle.age p' < Particle.lifespan p
  /\ Particle.lifespan p' = Particle.lifespan p
  /\ Particle.speed p' = Particle.speed p
  /\ Particle.startNode p' = Particle.startNode p
  /\ Particle.endNode p' = Particle.endNode p
  /\ Particle.opacity p'
     = 0.8 * (1 - (Particle.age p' / Particle.lifespan p') ^ 2).
Proof.
  unfold updateParticle.
  destruct (Rge_b_spec (Particle.progress p + Particle.speed p * deltaTime) 1.0);
    [discriminate|].
  destruct (Rge_b_spec (Particle.age p + deltaTime) (Particle.lifespan p));
    [discriminate|].
  cbn [orb]. intros [= <-]; cbn. repeat split; [lra | lra | ring].
Qed.

Lemma updateParticle_None (p : Particle.t) :
  updateParticle p = None
  <-> Particle.progress p + Particle.speed p * deltaTime >= 1
      \/ Particle.age p + deltaTime >= Particle.lifespan p.
Proof.
  unfold updateParticle.
  destruct (Rge_b_spec (Particle.progress p + Particle.speed p * deltaTime) 1.0);
    destruct (Rge_b_spec (Particle.age p + deltaTime) (Particle.lifespan p));
    cbn [orb]; split; intros H; try discriminate; try reflexivity;
    try (left; lra); try (right; lra).
  destruct H; lra.
Qed.

Lemma updateParticleN_alive (k : nat) : forall p,
  0 <= Particle.speed p ->
  Particle.progress p + INR k * (Particle.speed p * deltaTime) < 1 ->
  Particle.age p + INR k * deltaTime < Particle.lifespan p ->
  exists p',
    updateParticleN k p = Some p'
    /\ Particle.progress p'
       = Particle.progress p + INR k * (Particle.speed p * deltaTime)
    /\ Particle.age p' = Particle.age p + INR k * deltaTime
    /\ Particle.lifespan p' = Particle.lifespan p
    /\ Particle.speed p' = Particle.speed p.
Proof.
  pose proof deltaTime_pos as Hdt.
  induction k as [|k IH]; intros p Hs Hp Ha.
  - exists p; cbn; repeat split; lra.
  - rewrite S_INR in Hp, Ha. pose proof (pos_INR k) as Hk.
    assert (Hsd : 0 <= Particle.speed p * deltaTime)
      by (apply Rmult_le_pos; lra).
    assert (Hks : 0 <= INR k * (Particle.speed p * deltaTime))
      by (apply Rmult_le_pos; lra).
    assert (Hkd : 0 <= INR k * deltaTime) by (apply Rmult_le_pos; lra).
    cbn [updateParticleN].
    destruct (updateParticle p) as [p1|] eqn:E.
    + destruct (updateParticle_Some _ _ E)
        as (Ha1 & Hp1 & _ & _ & Hl1 & Hs1 & _).
      destruct (IH p1) as (p' & Hrun & Hp' & Ha' & Hl' & Hs');
        [rewrite Hs1; exact Hs | rewrite Hp1, Hs1; lra
        | rewrite Ha1, Hl1; lra|].
      exists p'. rewrite S_INR.
      repeat split; [exact Hrun | rewrite Hp', Hp1, Hs1; ring
                    | rewrite Ha', Ha1; ring | congruence | congruence].
    + apply updateParticle_None in E. destruct E; lra.
Qed.





(** In binary64 the age of a particle, a sum of 180 rounded steps, is
    still below its lifespan of 3 s: the particle is retired by the 181st
    update. *)
Lemma particle_age_misses_lifespan :
  Binary64.ageAfter 180 0 = 2.9999999999999942%float
  /\ Binary64.expired (Binary64.ageAfter 180 0) 3 = false
  /\ Binary64.expired (Binary64.ageAfter 181 0) 3 = true.
Proof. repeat split; vm_compute; reflexivity. Qed.



Section Spawn.

Variable rnd : nat -> R.

Lemma spawnedIn_same a b p :
  params b = params a -> nodes b = nodes a ->
  spawnedIn rnd a p -> spawnedIn rnd b p.
Proof. unfold spawnedIn; intros -> ->; exact (fun H => H). Qed.

Lemma spawnInner_spec prob i nodeA : forall rest j a,
  (i < j)%nat ->
  (j + List.length rest <= List.length (nodes a))%nat ->
  exists extra,
    particles (spawnInner rnd prob i nodeA j rest a) = particles a ++ extra
    /\ Forall (spawnedIn rnd a) extra
    /\ (List.length extra <= List.length rest)%nat
    /\ params (spawnInner rnd prob i nodeA j rest a) = params a
    /\ ripples (spawnInner rnd prob i nodeA j rest a) = ripples a.
Proof.
  induction rest as [|nodeB rest IH]; intros j a Hij Hn; cbn [spawnInner].
  - exists []. rewrite app_nil_r. repeat split; auto.
  - cbn [List.length] in Hn.
    unfold createParticle, random; cbn zeta iota beta.
    match goal with
    | |- context [spawnInner rnd prob i nodeA (S j) rest ?t] =>
        set (a2 := t);
        destruct (IH (S j) a2) as (extra & R & F & L & P & Rp)
    end.
    { lia. }
    { subst a2. destruct (Rlt_b _ _); cbn [nodes set_particles set_rng]; lia. }
    assert (Hframe : params a2 = params a /\ nodes a2 = nodes a
                     /\ ripples a2 = ripples a).
    { subst a2. destruct (Rlt_b _ _); repeat split. }
    destruct Hframe as (Hp2 & Hn2 & Hr2).
    assert (F' : Forall (spawnedIn rnd a) extra).
    { eapply Forall_impl; [|exact F]. intros q.
      apply spawnedIn_same; congruence. }
    rewrite R, P, Rp, Hp2, Hr2.
    subst a2. destruct (Rlt_b (rnd (rng a)) _).
    + cbn [particles set_particles set_rng]. rewrite <- app_assoc.
      eexists (_ :: extra). split; [reflexivity|].
      split; [|split; [cbn; lia | split; reflexivity]].
      constructor; [|exact F'].
      unfold spawnedIn; cbn [Particle.progress Particle.age Particle.lifespan
                              Particle.opacity Particle.startNode
                              Particle.endNode Particle.speed params set_rng
                              rng].
      split; [reflexivity|]. split; [reflexivity|]. split; [reflexivity|].
      split; [reflexivity|].
      split; [|split; [|split; [|eexists; reflexivity]]];
        destruct (Rlt_b _ 0.5); rewrite ?Nat.eqb_refl;
        try (replace (Nat.eqb j i) with false
              by (symmetry; apply Nat.eqb_neq; lia)); lia.
    + exists extra. cbn [particles set_rng].
      split; [reflexivity|]. split; [exact F'|].
      split; [cbn; lia | split; reflexivity].
Qed.

Lemma spawnOuter_spec prob : forall ns i a,
  (i + List.length ns <= List.length (nodes a))%nat ->
  exists extra,
    particles (spawnOuter rnd prob i ns a) = particles a ++ extra
    /\ Forall (spawnedIn rnd a) extra
    /\ params (spawnOuter rnd prob i ns a) = params a
    /\ ripples (spawnOuter rnd prob i ns a) = ripples a.
Proof.
  induction ns as [|nodeA rest IH]; intros i a Hn; cbn [spawnOuter].
  - exists []. rewrite app_nil_r. repeat split; auto.
  - cbn [List.length] in Hn.
    destruct (spawnInner_spec prob i nodeA rest (S i) a) as (e1 & R1 & F1 & _ & P1 & Rp1);
      [lia | lia|].
    destruct (spawnInner_frame rnd prob i nodeA rest (S i) a) as [Hn1 _].
    destruct (IH (S i) (spawnInner rnd prob i nodeA (S i) rest a))
      as (e2 & R2 & F2 & P2 & Rp2); [rewrite Hn1; lia|].
    exists (e1 ++ e2).
    split; [rewrite R2, R1, app_assoc; reflexivity|].
    split; [|split; congruence].
    apply Forall_app; split; [exact F1|].
    eapply Forall_impl; [|exact F2]. intros q.
    apply spawnedIn_same; congruence.
Qed.

End Spawn.

(** X9. The particle pool after [updateParticles]: it holds the survivors
    of the old pool, in order, followed by the particles spawned in this
    frame; each spawned particle starts at progress 0 and age 0 with a
    lifespan of 3 s and full opacity, between two different nodes of the
    pool, at a speed particleSpeed * (0.5 + r / 2) for a random draw [r];
    every particle of the new pool has progress below 1 and an age below
    its lifespan. *)
Theorem updateParticles_pool (rnd : nat -> R) (a a' : Animation) :
  updateParticles rnd a = Some a' ->
  (exists extra,
     particles a' = survivors updateParticle (particles a) ++ extra
     /\ Forall (spawnedIn rnd a) extra)
  /\ Forall (fun p => Particle.progress p < 1
                      /\ Particle.age p < Particle.lifespan p)
       (particles a')
  /\ ripples a' = ripples a
  /\ params a' = params a.
Proof.
  unfold updateParticles.
  set (b := set_particles (survivors updateParticle (particles a)) a).
  intros E.
  assert (Hex : exists extra,
            particles a' = particles b ++ extra
            /\ Forall (spawnedIn rnd b) extra
            /\ ripples a' = ripples b /\ params a' = params b).
  { unfold spawnParticles in E.
    destruct (_ && _).
    - destruct (divide _ _) as [prob|]; [|discriminate].
      injection E as <-.
      destruct (spawnOuter_spec rnd prob (nodes b) 0 b) as (extra & R & F & P & Rp);
        [cbn; lia|].
      exists extra; auto.
    - injection E as <-. exists []. rewrite app_nil_r. repeat split; auto. }
  destruct Hex as (extra & R & F & Rp & P).
  split; [exists extra; split; [exact R | exact F]|].
  split; [|split; [exact Rp | exact P]].
  rewrite R. apply Forall_app; split.
  - apply survivors_Forall. intros p p' _ Ep.
    destruct (updateParticle_Some _ _ Ep) as (_ & _ & H1 & H2 & H3 & _).
    rewrite H3. split; assumption.
  - eapply Forall_impl; [|exact F].
    intros p (H1 & H2 & H3 & _). rewrite H1, H2, H3. split; lra.
Qed.

Lemma lonely_update :
  updateParticles halves lonely
  = Some (set_particles (survivors updateParticle (particles lonely)) lonely).
Proof.
  unfold updateParticles. apply spawnParticles_skipped. cbn; lia.
Qed.

Lemma updateParticles_pool_witness :
  Forall (fun p => Particle.progress p < 1
                   /\ Particle.age p < Particle.lifespan p)
    (particles (set_particles (survivors updateParticle (particles lonely)) lonely)).
Proof.
  exact (proj1 (proj2 (updateParticles_pool halves lonely _ lonely_update))).
Defined.

Section NoSpawn.

Variable rnd : nat -> R.
Hypothesis rnd_nonneg : forall k, 0 <= rnd k.

Lemma spawnInner_none prob i nodeA : forall rest j a,
  prob <= 0 ->
  particles (spawnInner rnd prob i nodeA j rest a) = particles a.
Proof.
  induction rest as [|nodeB rest IH]; intros j a Hp; cbn [spawnInner];
    [reflexivity|].
  unfold createParticle, random; cbn zeta iota beta.
  assert (Hf : 0.3 <= Math.max 0.3
                 ((Node.activity nodeA + Node.activity nodeB) * 0.5))
    by apply Rmax_l.
  rewrite Rlt_b_false by (pose proof (rnd_nonneg (rng a)); nra).
  rewrite IH by exact Hp. reflexivity.
Qed.

Lemma spawnOuter_none prob : forall ns i a,
  prob <= 0 ->
  particles (spawnOuter rnd prob i ns a) = particles a.
Proof.
  induction ns as [|nodeA rest IH]; intros i a Hp; cbn [spawnOuter];
    [reflexivity|].
  rewrite IH by exact Hp. apply spawnInner_none; exact Hp.
Qed.

End NoSpawn.

(** X10. No spawn at rate zero: when particles are disabled, or the
    particle count is zero (or less), a frame adds no particle whatever the
    activity of the nodes: the pool after [updateParticles] is the survivors
    of the old pool. *)
Theorem no_spawn_at_zero_rate (rnd : nat -> R) (a : Animation) :
  unit_interval rnd ->
  showParticles (params a) = false \/ (particleCount (params a) <= 0)%Z ->
  exists a',
    updateParticles rnd a = Some a'
    /\ particles a' = survivors updateParticle (particles a).
Proof.
  intros Hu Hz.
  assert (Hn : forall k, 0 <= rnd k) by (intros k; apply Hu).
  unfold updateParticles.
  set (b := set_particles (survivors updateParticle (particles a)) a).
  change (survivors updateParticle (particles a)) with (particles b).
  change (params a) with (params b) in Hz.
  unfold spawnParticles.
  destruct (showParticles (params b) && Nat.ltb 1 (List.length (nodes b)))
    eqn:G; [|exists b; split; reflexivity].
  apply andb_true_iff in G. destruct G as [Gs G]. apply Nat.ltb_lt in G.
  destruct Hz as [Hz|Hz]; [congruence|].
  unfold divide. apply le_INR in G. change (INR 2) with (1 + 1) in G.
  set (n := INR (List.length (nodes b))) in *.
  assert (Htot : 1 <= n * (n - 1) / 2) by nra.
  destruct (Req_dec_T _ 0) as [E|_]; [lra|].
  eexists; split; [reflexivity|].
  apply spawnOuter_none; [exact Hn|].
  apply IZR_le in Hz.
  assert (Hnum : IZR (particleCount (params b)) * deltaTime * 2 <= 0)
    by (unfold deltaTime; lra).
  unfold Rdiv. rewrite <- (Rmult_0_l (/ (n * (n - 1) * / 2))).
  apply Rmult_le_compat_r; [|exact Hnum].
  left; apply Rinv_0_lt_compat. unfold Rdiv in Htot; lra.
Qed.

Lemma no_spawn_at_zero_rate_witness :
  exists a',
    updateParticles halves
      (set_params samplePreset (scene [wallNode; cornerNode])) = Some a'
    /\ particles a'
       = survivors updateParticle
           (particles (set_params samplePreset (scene [wallNode; cornerNode]))).
Proof.
  apply (no_spawn_at_zero_rate halves
           (set_params samplePreset (scene [wallNode; cornerNode]))
           unit_interval_halves).
  left; reflexivity.
Defined.

(** ** The node pool: what a rebuild yields *)

Section Rebuild.

Variable rnd : nat -> R.
Hypothesis rnd_unit : unit_interval rnd.

Lemma in_volume_inside_box (c : Camera) (p : THREE.Vector3) :
  in_volume (frustumWidth c) (frustumHeight c) (depth * 0.8) p ->
  inside_box c p.
Proof.
  unfold in_volume, inside_box, boundaryX, boundaryY, boundaryZ, depth.
  intros (Hx & Hy & Hz). repeat split; lra.
Qed.

Lemma newNode_fresh (c : Camera) (p : THREE.Vector3) (a : Animation) :
  inside_box c p -> freshNode c (fst (newNode rnd p a)).
Proof.
  intros Hp. unfold newNode, random; cbn.
  repeat match goal with
         | |- context [rnd ?k] =>
             lazymatch goal with
             | H : 0 <= rnd k < 1 |- _ => fail
             | _ => pose proof (rnd_unit k)
             end
         end.
  destruct Hp as (Hp1 & Hp2 & Hp3).
  unfold freshNode, inside_box; cbn.
  repeat split; try assumption; try (apply Rabs_le; lra); lra.
Qed.

Lemma pushNodes_spec (c : Camera) count positions : forall i a,
  valid_camera c ->
  Forall (in_volume (frustumWidth c) (frustumHeight c) (depth * 0.8)) positions ->
  exists fresh,
    nodes (pushNodes rnd count i positions (frustumWidth c) (frustumHeight c) a)
    = nodes a ++ fresh
    /\ List.length fresh = count
    /\ Forall (freshNode c) fresh.
Proof.
  intros i a Hc Hpos. revert i a.
  destruct (boundaries_nonneg c Hc) as (HX & HY & _).
  assert (Hw : 0 <= frustumWidth c) by (unfold boundaryX in HX; lra).
  assert (Hh : 0 <= frustumHeight c) by (unfold boundaryY in HY; lra).
  induction count as [|count IH]; intros i a; cbn [pushNodes].
  - exists []. rewrite app_nil_r. repeat split; constructor.
  - assert (Hin : in_volume (frustumWidth c) (frustumHeight c) (depth * 0.8)
                    (fst (match nth_error positions i with
                          | Some p => (p, a)
                          | None => randomPoint rnd (frustumWidth c)
                                      (frustumHeight c) (depth * 0.8) a
                          end))).
    { destruct (nth_error positions i) as [p|] eqn:E; cbn [fst].
      - rewrite Forall_forall in Hpos. apply Hpos.
        eapply nth_error_In; exact E.
      - apply randomPoint_in_volume; [exact rnd_unit | | |];
          unfold depth; lra. }
    assert (Hn0 : nodes (snd (match nth_error positions i with
                              | Some p => (p, a)
                              | None => randomPoint rnd (frustumWidth c)
                                          (frustumHeight c) (depth * 0.8) a
                              end)) = nodes a)
      by (destruct (nth_error positions i); reflexivity).
    destruct (match nth_error positions i with
              | Some p => (p, a)
              | None => randomPoint rnd (frustumWidth c) (frustumHeight c)
                          (depth * 0.8) a
              end) as [position a1]; cbn [fst snd] in Hin, Hn0.
    pose proof (newNode_fresh c position a1 (in_volume_inside_box c _ Hin)) as Hf.
    assert (Hn1 : nodes (snd (newNode rnd position a1)) = nodes a1)
      by reflexivity.
    destruct (newNode rnd position a1) as [n a2]; cbn [fst snd] in *.
    destruct (IH (S i) (set_nodes (nodes a2 ++ [n]) a2)) as (fresh & R & L & F).
    cbn [nodes set_nodes] in R.
    exists (n :: fresh). split; [|split; [cbn; lia | constructor; assumption]].
    rewrite R, Hn1, <- app_assoc. cbn [app]. f_equal. exact Hn0.
Qed.

Lemma createNodes_spec a :
  valid_camera (camera a) ->
  exists a' fresh,
    createNodes rnd a = Some a'
    /\ nodes a' = nodes a ++ fresh
    /\ List.length fresh = Z.to_nat (nodeCount (params a))
    /\ Forall (freshNode (camera a)) fresh
    /\ only_nodes_rng a a'.
Proof.
  intros Hc. unfold createNodes.
  destruct (boundaries_nonneg _ Hc) as (HX & HY & _).
  assert (Hw : 0 <= frustumWidth (camera a)) by (unfold boundaryX in HX; lra).
  assert (Hh : 0 <= frustumHeight (camera a)) by (unfold boundaryY in HY; lra).
  destruct (generatePoissonDiskSampling_total rnd (nodeCount (params a))
              (frustumWidth (camera a)) (frustumHeight (camera a))
              (depth * 0.8) a) as (positions & a1 & Hrun & _ & Hr & Hin).
  rewrite (Hrun _ (Nat.le_refl _)).
  destruct (pushNodes_spec (camera a) (Z.to_nat (nodeCount (params a)))
              positions 0%nat a1 Hc) as (fresh & R & L & F).
  { apply Hin; [exact rnd_unit | exact Hw | exact Hh | unfold depth; lra]. }
  eexists; exists fresh. split; [reflexivity|].
  split; [rewrite R, Hr; reflexivity|]. split; [exact L|]. split; [exact F|].
  eapply only_nodes_rng_trans; [apply only_rng_nodes; exact Hr|].
  apply only_nodes_rng_pushNodes.
Qed.

End Rebuild.

Lemma only_nodes_rng_pools a a' :
  only_nodes_rng a a' ->
  particles a' = particles a /\ ripples a' = ripples a /\ camera a' = camera a.
Proof. intros ->; repeat split. Qed.

(** X11. Rebuilding the node pool: [createNodes] appends to the pool as
    many nodes as the node count says (none when it is zero or negative),
    each placed inside the collision box, with velocity components of at
    most 0.15, 0.15 and 0.1, activity in [0, 1), mass in [1, 1.5),
    restitution in [0.6, 0.9), friction in [0.9, 1) and no collision so
    far; [recreateNodes] discards the old pool first, so the pool then has
    exactly that many nodes.  Nothing but the node pool and the random
    cursor changes. *)
Theorem recreateNodes_pool (rnd : nat -> R) (a : Animation) :
  unit_interval rnd ->
  valid_camera (camera a) ->
  (exists a' fresh,
     createNodes rnd a = Some a'
     /\ nodes a' = nodes a ++ fresh
     /\ List.length fresh = Z.to_nat (nodeCount (params a))
     /\ Forall (freshNode (camera a)) fresh)
  /\ exists a',
       recreateNodes rnd a = Some a'
       /\ List.length (nodes a') = Z.to_nat (nodeCount (params a))
       /\ Forall (freshNode (camera a)) (nodes a')
       /\ a' = set_nodes (nodes a') (set_rng (rng a') a).
Proof.
  intros Hu Hc. split.
  - destruct (createNodes_spec rnd Hu a Hc) as (a' & fresh & E & R & L & F & _).
    exists a', fresh. auto.
  - unfold recreateNodes.
    destruct (createNodes_spec rnd Hu (set_nodes [] a) Hc)
      as (a' & fresh & E & R & L & F & O).
    cbn [nodes set_nodes app] in R. exists a'.
    split; [exact E|]. rewrite R. split; [exact L|]. split; [exact F|].
    rewrite <- R. unfold only_nodes_rng in O. rewrite O at 1.
    destruct a; reflexivity.
Qed.

Lemma recreateNodes_pool_witness :
  exists a',
    recreateNodes halves (scene [wallNode]) = Some a'
    /\ List.length (nodes a') = 12%nat
    /\ Forall (freshNode sampleCamera) (nodes a')
    /\ a' = set_nodes (nodes a') (set_rng (rng a') (scene [wallNode])).
Proof.
  exact (proj2 (recreateNodes_pool halves (scene [wallNode])
                  unit_interval_halves valid_sampleCamera)).
Defined.

(** X12. Applying a preset: [applyPreset] makes the preset the current
    parameter set, so that [getCurrentPreset] returns it unchanged, empties
    the particle and the ripple pool, and replaces the node pool by as many
    fresh nodes as the preset's node count; a transition in flight is not
    cancelled (its stored presets, timing and flag are untouched). *)
Theorem applyPreset_round_trip (rnd : nat -> R) (preset : PresetData)
    (a : Animation) :
  unit_interval rnd ->
  valid_camera (camera a) ->
  exists a',
    applyPreset rnd preset a = Some a'
    /\ getCurrentPreset a' = preset
    /\ particles a' = []
    /\ ripples a' = []
    /\ List.length (nodes a') = Z.to_nat (nodeCount preset)
    /\ Forall (freshNode (camera a)) (nodes a')
    /\ isTransitioning a' = isTransitioning a
    /\ fromPreset a' = fromPreset a
    /\ toPreset a' = toPreset a
    /\ transitionStartTime a' = transitionStartTime a.
Proof.
  intros Hu Hc. unfold applyPreset.
  set (a5 := clearAllRipples _).
  assert (H5 : params a5 = preset /\ camera a5 = camera a
               /\ particles a5 = [] /\ ripples a5 = []
               /\ isTransitioning a5 = isTransitioning a
               /\ fromPreset a5 = fromPreset a /\ toPreset a5 = toPreset a
               /\ transitionStartTime a5 = transitionStartTime a).
  { subst a5. unfold updateRippleVisibility, updateParticleVisibility.
    cbn [params set_params]. destruct (showParticles preset);
      cbn [params set_params clearAllParticles set_particles];
      destruct (showRipples preset); repeat split. }
  destruct H5 as (Hp & Hcam & Hpa & Hri & Ht & Hf & Hto & Hs).
  unfold recreateNodes.
  destruct (createNodes_spec rnd Hu (set_nodes [] a5))
    as (b & fresh & E & R & L & F & O);
    [cbn [camera set_nodes]; rewrite Hcam; exact Hc|].
  cbn [nodes set_nodes app camera params] in R, L, F.
  destruct (only_nodes_rng_fields _ _ O) as (Op & Ot & Os & _ & _ & Of & Oto).
  destruct (only_nodes_rng_pools _ _ O) as (Opa & Ori & _).
  cbn [params set_nodes isTransitioning transitionStartTime fromPreset
        toPreset particles ripples] in Op, Ot, Os, Of, Oto, Opa, Ori.
  exists b. split; [exact E|]. unfold getCurrentPreset.
  rewrite Op, Opa, Ori, R, L, Hp, Ot, Of, Oto, Os. rewrite Hcam in F.
  repeat split; assumption.
Qed.

Lemma applyPreset_round_trip_witness :
  exists a',
    applyPreset halves samplePreset inFlight = Some a'
    /\ getCurrentPreset a' = samplePreset
    /\ particles a' = []
    /\ ripples a' = []
    /\ List.length (nodes a') = 20%nat
    /\ Forall (freshNode sampleCamera) (nodes a')
    /\ isTransitioning a' = true
    /\ fromPreset a' = Some Default
    /\ toPreset a' = Some samplePreset
    /\ transitionStartTime a' = 0.
Proof.
  exact (applyPreset_round_trip halves samplePreset inFlight
           unit_interval_halves valid_sampleCamera).
Defined.

(** ** The spatial sampler: separation and cost *)

Section Separation.

Variable rnd : nat -> R.

Lemma validPosition_true candidate points dist :
  validPosition candidate points dist = true
  <-> Forall (fun e => THREE.distanceTo candidate e >= dist) points.
Proof.
  unfold validPosition. rewrite forallb_forall, Forall_forall.
  split; intros H e Hin; specialize (H e Hin).
  - destruct (Rlt_b_spec (THREE.distanceTo candidate e) dist);
      [discriminate | lra].
  - apply negb_true_iff, Rlt_b_false. lra.
Qed.

Lemma rng_randomPoint w h d a :
  rng (snd (randomPoint rnd w h d a)) = (rng a + 3)%nat.
Proof. cbn. lia. Qed.

Lemma tryPlace_draws k dist w h d points : forall a,
  match fst (tryPlace rnd k dist w h d points a) with
  | Some c =>
      Forall (fun e => THREE.distanceTo c e >= dist) points
      /\ exists j, (1 <= j <= k)%nat
                   /\ rng (snd (tryPlace rnd k dist w h d points a))
                      = (rng a + 3 * j)%nat
  | None =>
      rng (snd (tryPlace rnd k dist w h d points a)) = (rng a + 3 * k)%nat
  end.
Proof.
  induction k as [|k IH]; intros a; cbn [tryPlace].
  - cbn. lia.
  - pose proof (rng_randomPoint w h d a) as Hr.
    destruct (randomPoint rnd w h d a) as [candidate a1]; cbn [snd] in Hr.
    destruct (validPosition candidate points dist) eqn:V.
    + cbn [fst snd]. split; [apply validPosition_true; exact V|].
      exists 1%nat. split; lia.
    + specialize (IH a1).
      destruct (fst (tryPlace rnd k dist w h d points a1)).
      * destruct IH as (HF & j & Hj & Hrng). split; [exact HF|].
        exists (S j). split; lia.
      * lia.
Qed.

End Separation.

(** X13. Separation and cost of one placement: the body of the sampling
    loop appends one point, which either was accepted among the first 30
    candidates (at most 90 random draws) and keeps the target distance to
    every point placed before, or was accepted among the next 30 (more than
    90, at most 180 draws) and keeps 0.9 times that distance, or is the
    untested fallback, after exactly 183 draws. *)
Theorem placePoint_separation (rnd : nat -> R)
    (minDistance width height depth : R)
    (points : list THREE.Vector3) (a : Animation) :
  exists p,
    fst (placePoint rnd minDistance width height depth points a)
    = points ++ [p]
    /\ ((Forall (fun e => THREE.distanceTo p e >= minDistance) points
         /\ (rng a < rng (snd (placePoint rnd minDistance width height depth
                                 points a)) <= rng a + 90)%nat)
        \/ (Forall (fun e => THREE.distanceTo p e >= minDistance * 0.9) points
            /\ (rng a + 90 < rng (snd (placePoint rnd minDistance width height
                                         depth points a)) <= rng a + 180)%nat)
        \/ rng (snd (placePoint rnd minDistance width height depth points a))
           = (rng a + 183)%nat).
Proof.
  unfold placePoint, maxAttempts.
  pose proof (tryPlace_draws rnd 30 minDistance width height depth points a) as H1.
  destruct (tryPlace rnd 30 minDistance width height depth points a)
    as [[c|] a1]; cbn [fst snd] in *.
  - destruct H1 as (HF & j & Hj & Hr). exists c. split; [reflexivity|].
    left. split; [exact HF | lia].
  - pose proof (tryPlace_draws rnd 30 (minDistance * 0.9) width height depth
                  points a1) as H2.
    destruct (tryPlace rnd 30 (minDistance * 0.9) width height depth points a1)
      as [[c|] a2]; cbn [fst snd] in *.
    + destruct H2 as (HF & j & Hj & Hr). exists c. split; [reflexivity|].
      right; left. split; [exact HF | lia].
    + pose proof (rng_randomPoint rnd width height depth a2) as H3.
      destruct (randomPoint rnd width height depth a2) as [p a3];
        cbn [fst snd] in *.
      exists p. split; [reflexivity|]. right; right. lia.
Qed.

(** ** Easing curves: range and shape *)

Lemma bounce_unit (p : R) : 0 <= p <= 1 -> 0 <= bounce p <= 1.
Proof.
  intros Hp. unfold bounce.
  destruct (Rlt_b_spec p (1 / 2.75)).
  { split; nra. }
  destruct (Rlt_b_spec p (2 / 2.75)).
  { assert (- (0.5 / 2.75) <= p - 1.5 / 2.75 <= 0.5 / 2.75) by lra.
    split; nra. }
  destruct (Rlt_b_spec p (2.5 / 2.75)).
  { assert (- (0.25 / 2.75) <= p - 2.25 / 2.75 <= 0.25 / 2.75) by lra.
    split; nra. }
  assert (- (0.125 / 2.75) <= p - 2.625 / 2.75 <= 0.125 / 2.75) by lra.
  split; nra.
Qed.

Lemma cube_unit (q : R) : 0 <= q <= 1 -> 0 <= q * q * q <= 1.
Proof. intros Hq. assert (0 <= q * q <= 1) by nra. nra. Qed.

(** Every curve but the elastic one maps the unit interval into itself. *)
Lemma easing_unit (type : string) (p : R) :
  type <> "elastic"%string ->
  0 <= p <= 1 ->
  0 <= getEasingFunction type p <= 1.
Proof.
  intros Hne Hp. unfold getEasingFunction.
  destruct (String.eqb type "linear"); [lra|].
  destruct (String.eqb type "ease-in"); [apply cube_unit; exact Hp|].
  destruct (String.eqb type "ease-out").
  { rewrite Math_pow_3. pose proof (cube_unit (1 - p)). lra. }
  destruct (String.eqb type "ease-in-out").
  { destruct (Rlt_b_spec p 0.5).
    - pose proof (cube_unit (2 * p)).
      replace (4 * p * p * p) with (2 * p * (2 * p) * (2 * p) / 2) by field.
      lra.
    - rewrite Math_pow_3. pose proof (cube_unit (-2 * p + 2)). lra. }
  destruct (String.eqb type "bounce"); [apply bounce_unit; exact Hp|].
  destruct (String.eqb_spec type "elastic"); [contradiction | lra].
Qed.

(** X14. Shape of the cubic curves: ease-in-out is symmetric about the
    point (1/2, 1/2), where its two branches meet, and ease-out is ease-in
    mirrored: easeOut(t) = 1 - easeIn(1 - t). *)
Theorem cubic_easing_symmetry (t : R) :
  getEasingFunction "ease-in-out" (1 - t)
  = 1 - getEasingFunction "ease-in-out" t
  /\ getEasingFunction "ease-in-out" 0.5 = 0.5
  /\ getEasingFunction "ease-out" t
     = 1 - getEasingFunction "ease-in" (1 - t).
Proof.
  change (getEasingFunction "ease-in-out")
    with (fun t => if Rlt_b t 0.5 then 4 * t * t * t
                   else 1 - Math.pow (-2 * t + 2) 3 / 2).
  change (getEasingFunction "ease-out") with (fun t => 1 - Math.pow (1 - t) 3).
  change (getEasingFunction "ease-in") with (fun t : R => t * t * t).
  cbv beta. rewrite !Math_pow_3.
  split; [|split; [rewrite Rlt_b_false by lra; lra | lra]].
  destruct (Rlt_b_spec t 0.5); destruct (Rlt_b_spec (1 - t) 0.5); try lra.
  assert (t = 0.5) by lra. subst t. lra.
Qed.

(** ** The whole transition frame *)

Lemma lerp_0 (s e : R) : lerp s e 0 = s.
Proof. unfold lerp; ring. Qed.

Lemma lerpColor_0 (c1 c2 : THREE.Color) : lerpColor c1 c2 0 = c1.
Proof.
  unfold lerpColor, lerpChannel. rewrite !lerp_0, !toChannel_channel.
  destruct c1; reflexivity.
Qed.

Lemma interpolate_0 (current from to : PresetData) :
  interpolate current from to 0 = set_name (name current) from.
Proof.
  unfold interpolate, set_name.
  rewrite !lerp_0, !lerpColor_0, !Math_round_IZR, Rge_b_false by lra.
  reflexivity.
Qed.

Lemma lerp_between (s e t : R) :
  0 <= t <= 1 -> Rmin s e <= lerp s e t <= Rmax s e.
Proof.
  intros Ht. unfold lerp, Rmin, Rmax.
  destruct (Rle_dec s e); split; nra.
Qed.

Lemma Math_round_between (lo hi : Z) (v : R) :
  IZR lo <= v <= IZR hi -> (lo <= Math.round v <= hi)%Z.
Proof.
  intros [Hlo Hhi]. unfold Math.round.
  pose proof (Zfloor_bound (v + 1 / 2)) as [Hb1 Hb2].
  split.
  - apply Zfloor_lub. lra.
  - assert (H : IZR (Zfloor (v + 1 / 2)) < IZR (hi + 1))
      by (rewrite plus_IZR; lra).
    apply lt_IZR in H. lia.
Qed.

(** A rounded count stays within the two counts it is interpolated
    between, with room to spare: a value up to one half outside of them is
    rounded back. *)
Lemma rounded_lerp_between (x y : Z) (t : R) :
  0 <= t <= 1 ->
  (Z.min x y <= Math.round (lerp (IZR x) (IZR y) t) <= Z.max x y)%Z.
Proof.
  intros Hu. apply Math_round_between.
  pose proof (lerp_between (IZR x) (IZR y) t Hu) as Hl.
  unfold Rmin, Rmax in Hl.
  destruct (Rle_dec (IZR x) (IZR y)) as [Hle|Hgt].
  - apply le_IZR in Hle. rewrite Z.min_l, Z.max_r by lia. exact Hl.
  - assert (y <= x)%Z by (apply le_IZR; lra).
    rewrite Z.min_r, Z.max_l by lia. exact Hl.
Qed.

(** X15. The frame of a transition in flight: [updateTransition] returns
    whenever the raw progress is a number; it empties the particle pool
    when the interpolated particle toggle is off and leaves it alone
    otherwise, and likewise the ripple pool; the raw progress is at most 1;
    while it is below 1 the transition stays in flight with its stored
    presets and the name of the current preset; when it is 1, which it is
    at once for a duration of zero, the stored presets are cleared, the
    name is the target's and the engine is idle. *)
Theorem transition_frame (rnd : nat -> R) (now : R) (a : Animation)
    (from to : PresetData) (p : R) :
  isTransitioning a = true ->
  fromPreset a = Some from ->
  toPreset a = Some to ->
  rawProgress now a = Some p ->
  exists a',
    updateTransition rnd now a = Some a'
    /\ particles a' = (if showParticles (params a') then particles a else [])
    /\ ripples a' = (if showRipples (params a') then ripples a else [])
    /\ p <= 1
    /\ (transitionDuration a = 0 -> p = 1)
    /\ (p < 1 ->
        isTransitioning a' = true
        /\ fromPreset a' = Some from /\ toPreset a' = Some to
        /\ name (params a') = name (params a))
    /\ (p = 1 ->
        isTransitioning a' = false
        /\ fromPreset a' = None /\ toPreset a' = None
        /\ name (params a') = name to).
Proof.
  intros Ht Hf Hto Hp.
  destruct (updateTransition_step rnd now a from to p Ht Hf Hto Hp)
    as (a3 & Hrun & Hpar & Hpa & Hri & _ & Htr & _ & Hfr & Htp).
  pose proof (rawProgress_le_1 now a p Hp) as Hle.
  assert (Hzero : transitionDuration a = 0 -> p = 1).
  { intros Hd. revert Hp. unfold rawProgress, progressOf, divide.
    destruct (Req_dec_T (transitionDuration a) 0); [|contradiction].
    destruct (Rgt_b _ 0); [intros [= <-]; reflexivity | discriminate]. }
  destruct (Rge_b_spec p 1) as [Hge|Hlt].
  - exists (endTransition to a3). split; [exact Hrun|].
    destruct (endTransition_fields to a3) as (Ep & Epa & Eri & _).
    destruct (set_name_fields (name to) (params a3)) as (Sp & Sr & _).
    rewrite Ep, Epa, Eri, Sp, Sr.
    split; [exact Hpa|]. split; [exact Hri|]. split; [exact Hle|].
    split; [exact Hzero|]. split; [intros; lra|].
    intros _. repeat split.
  - exists a3. split; [exact Hrun|].
    split; [exact Hpa|]. split; [exact Hri|]. split; [exact Hle|].
    split; [exact Hzero|]. split; [|intros; lra].
    intros _. rewrite Hpar. repeat split; assumption.
Qed.

Lemma transition_frame_witness :
  exists a',
    updateTransition halves 2000 inFlight = Some a'
    /\ particles a' = (if showParticles (params a') then particles inFlight
                       else [])
    /\ ripples a' = (if showRipples (params a') then ripples inFlight else [])
    /\ 1 <= 1
    /\ (transitionDuration inFlight = 0 -> 1 = 1)
    /\ (1 < 1 ->
        isTransitioning a' = true
        /\ fromPreset a' = Some Default /\ toPreset a' = Some samplePreset
        /\ name (params a') = name (params inFlight))
    /\ (1 = 1 ->
        isTransitioning a' = false
        /\ fromPreset a' = None /\ toPreset a' = None
        /\ name (params a') = name samplePreset).
Proof.
  exact (transition_frame halves 2000 inFlight Default samplePreset 1
           eq_refl eq_refl eq_refl inFlight_done).
Defined.

Lemma rawProgress_range now a :
  0 < transitionDuration a ->
  transitionStartTime a <= now ->
  exists p, rawProgress now a = Some p /\ 0 <= p <= 1.
Proof.
  intros Hd Hn. rewrite rawProgress_nonzero by lra.
  eexists; split; [reflexivity|]. unfold Math.min.
  assert (0 <= (now - transitionStartTime a) / 1000 / transitionDuration a).
  { apply Rmult_le_pos; [lra|]. left; apply Rinv_0_lt_compat; exact Hd. }
  unfold Rmin. destruct (Rle_dec _ 1); lra.
Qed.

(** X16. The first frame of a transition: a request accepted while idle
    stores the live parameters as the source and the request as the target,
    and the frame at the time of the request (raw progress 0) leaves every
    live parameter as it was, for any easing. *)
Theorem transition_first_frame (rnd : nat -> R) (now : R)
    (target : PresetData) (a : Animation) :
  isTransitioning a = false ->
  0 < transitionDuration a ->
  rawProgress now (startTransition now target a) = Some 0
  /\ exists a',
       updateTransition rnd now (startTransition now target a) = Some a'
       /\ params a' = params a
       /\ isTransitioning a' = true
       /\ fromPreset a' = Some (params a)
       /\ toPreset a' = Some target
       /\ transitionStartTime a' = now.
Proof.
  intros Hidle Hd.
  assert (Hst : startTransition now target a
                = mkAnimation (params a) (camera a) (nodes a) (particles a)
                    (ripples a) true now (transitionDuration a)
                    (transitionEasing a) (Some (params a)) (Some target) (rng a))
    by (unfold startTransition; rewrite Hidle; reflexivity).
  rewrite Hst. set (b := mkAnimation _ _ _ _ _ _ _ _ _ _ _ _).
  assert (H0 : rawProgress now b = Some 0).
  { rewrite rawProgress_nonzero by (cbn; lra). f_equal.
    unfold Math.min; cbn [transitionStartTime transitionDuration b].
    replace ((now - now) / 1000 / transitionDuration a) with 0
      by (field; lra).
    apply Rmin_left; lra. }
  split; [exact H0|].
  destruct (updateTransition_step rnd now b (params a) target 0
              eq_refl eq_refl eq_refl H0)
    as (a3 & Hrun & Hpar & _ & _ & _ & Htr & Hs & Hfr & Htp).
  rewrite Rge_b_false in Hrun by lra.
  rewrite (proj1 (curve_endpoints _)), interpolate_0 in Hpar.
  exists a3. split; [exact Hrun|].
  split; [rewrite Hpar; cbn; destruct (params a); reflexivity|].
  repeat split; assumption.
Qed.

Lemma transition_first_frame_witness :
  rawProgress 0 (startTransition 0 samplePreset (scene [])) = Some 0
  /\ exists a',
       updateTransition halves 0 (startTransition 0 samplePreset (scene []))
       = Some a'
       /\ params a' = Default
       /\ isTransitioning a' = true
       /\ fromPreset a' = Some Default
       /\ toPreset a' = Some samplePreset
       /\ transitionStartTime a' = 0.
Proof.
  apply (transition_first_frame halves 0 samplePreset (scene []) eq_refl).
  cbn; lra.
Defined.

(** X17. No overshoot of the counts without the elastic curve: for every
    easing kind but the elastic one, at any frame of a transition at or
    after its start (with a positive duration) the node count and the
    particle count, which the frame rounds to the nearest integer, lie
    between their source and their target value. *)
Theorem bounded_easing_stays_in_span (rnd : nat -> R) (now : R)
    (a : Animation) (from to : PresetData) :
  isTransitioning a = true ->
  fromPreset a = Some from ->
  toPreset a = Some to ->
  transitionEasing a <> "elastic"%string ->
  0 < transitionDuration a ->
  transitionStartTime a <= now ->
  exists a',
    updateTransition rnd now a = Some a'
    /\ (Z.min (nodeCount from) (nodeCount to) <= nodeCount (params a')
        <= Z.max (nodeCount from) (nodeCount to))%Z
    /\ (Z.min (particleCount from) (particleCount to)
        <= particleCount (params a')
        <= Z.max (particleCount from) (particleCount to))%Z.
Proof.
  intros Ht Hf Hto He Hd Hn.
  destruct (rawProgress_range now a Hd Hn) as (p & Hp & Hrange).
  destruct (updateTransition_step rnd now a from to p Ht Hf Hto Hp)
    as (a3 & Hrun & Hpar & _).
  pose proof (easing_unit (transitionEasing a) p He Hrange) as Hu.
  set (t := getEasingFunction (transitionEasing a) p) in *.
  assert (Hspan :
    (Z.min (nodeCount from) (nodeCount to) <= nodeCount (params a3)
     <= Z.max (nodeCount from) (nodeCount to))%Z
    /\ (Z.min (particleCount from) (particleCount to)
        <= particleCount (params a3)
        <= Z.max (particleCount from) (particleCount to))%Z).
  { rewrite Hpar. cbn [interpolate nodeCount particleCount].
    split; apply rounded_lerp_between; exact Hu. }
  eexists. split; [exact Hrun|].
  destruct (Rge_b p 1); [|exact Hspan].
  destruct (endTransition_fields to a3) as (Ep & _).
  destruct (set_name_fields (name to) (params a3)) as (_ & _ & Sn & Spc & _).
  rewrite Ep, Sn, Spc. exact Hspan.
Qed.

Lemma bounded_easing_stays_in_span_witness :
  exists a',
    updateTransition halves 700 inFlight = Some a'
    /\ (Z.min 12 20 <= nodeCount (params a') <= Z.max 12 20)%Z
    /\ (Z.min 8 15 <= particleCount (params a') <= Z.max 8 15)%Z.
Proof.
  apply (bounded_easing_stays_in_span halves 700 inFlight Default samplePreset
           eq_refl eq_refl eq_refl).
  - cbn. discriminate.
  - cbn; lra.
  - cbn; lra.
Defined.

(** ** The connection graph *)

Lemma nth_error_replace_nth {A : Type} (f : A -> A) : forall k l i,
  nth_error (replace_nth k f l) i
  = if Nat.eqb i k then option_map f (nth_error l i) else nth_error l i.
Proof.
  induction k as [|k IH]; intros [|x l] [|i]; cbn; try reflexivity.
  - destruct (Nat.eqb i k); reflexivity.
  - apply IH.
Qed.

Lemma refreshInner_spec a nodeA : forall rest k lines,
  fst (refreshInner a nodeA rest k lines) = (k + List.length rest)%nat
  /\ forall i,
       nth_error (snd (refreshInner a nodeA rest k lines)) i
       = match nth_error lines i with
         | None => None
         | Some line =>
             Some (if Nat.leb k i
                   then match nth_error rest (i - k) with
                        | Some nodeB => refreshLine a nodeA nodeB line
                        | None => line
                        end
                   else line)
         end.
Proof.
  induction rest as [|nodeB rest IH]; intros k lines; cbn [refreshInner].
  - cbn [fst snd List.length]. split; [lia|].
    intros i. destruct (nth_error lines i); [|reflexivity].
    destruct (Nat.leb k i); [|reflexivity].
    destruct (i - k)%nat; reflexivity.
  - destruct (IH (S k) (replace_nth k (refreshLine a nodeA nodeB) lines))
      as (Hk & Hn).
    split; [rewrite Hk; cbn [List.length]; lia|].
    intros i. rewrite Hn, nth_error_replace_nth.
    destruct (Nat.eqb_spec i k) as [->|Hne].
    + destruct (nth_error lines k); [|reflexivity]. cbn [option_map].
      rewrite (proj2 (Nat.leb_gt (S k) k)) by lia.
      rewrite Nat.leb_refl, Nat.sub_diag. reflexivity.
    + destruct (nth_error lines i); [|reflexivity].
      destruct (Nat.leb_spec (S k) i) as [Hle|Hgt].
      * rewrite (proj2 (Nat.leb_le k i)) by lia.
        replace (i - k)%nat with (S (i - S k)) by lia. reflexivity.
      * rewrite (proj2 (Nat.leb_gt k i)) by lia. reflexivity.
Qed.

Lemma refreshOuter_spec a : forall ns k lines,
  fst (refreshOuter a ns k lines) = (k + List.length (pairs ns))%nat
  /\ forall i,
       nth_error (snd (refreshOuter a ns k lines)) i
       = match nth_error lines i with
         | None => None
         | Some line =>
             Some (if Nat.leb k i
                   then match nth_error (pairs ns) (i - k) with
                        | Some (nodeA, nodeB) => refreshLine a nodeA nodeB line
                        | None => line
                        end
                   else line)
         end.
Proof.
  induction ns as [|nodeA rest IH]; intros k lines;
    cbn [refreshOuter pairs].
  - cbn [fst snd List.length]. split; [lia|].
    intros i. destruct (nth_error lines i); [|reflexivity].
    destruct (Nat.leb k i); [|reflexivity].
    destruct (i - k)%nat; reflexivity.
  - destruct (refreshInner_spec a nodeA rest k lines) as (Hk1 & Hn1).
    destruct (refreshInner a nodeA rest k lines) as [k1 lines1].
    cbn [fst snd] in Hk1, Hn1. subst k1.
    destruct (IH (k + List.length rest)%nat lines1) as (Hk2 & Hn2).
    split.
    { rewrite Hk2, length_app, length_map. lia. }
    intros i. rewrite Hn2, Hn1.
    destruct (nth_error lines i) as [line|]; [|reflexivity]. f_equal.
    destruct (Nat.leb_spec k i) as [Hki|Hki].
    + destruct (Nat.leb_spec (k + List.length rest) i) as [Hri|Hri].
      * rewrite nth_error_app2 by (rewrite length_map; lia).
        rewrite length_map.
        replace (i - (k + List.length rest))%nat
          with (i - k - List.length rest)%nat by lia.
        assert (Hnone : nth_error rest (i - k) = None)
          by (apply nth_error_None; lia).
        rewrite Hnone. reflexivity.
      * rewrite nth_error_app1 by (rewrite length_map; lia).
        rewrite nth_error_map.
        destruct (nth_error rest (i - k)); reflexivity.
    + rewrite (proj2 (Nat.leb_gt (k + List.length rest) i)) by lia.
      reflexivity.
Qed.

Lemma connectAll_pairs a : forall ns,
  connectAll a ns = map (fun p => newLine a (fst p) (snd p)) (pairs ns).
Proof.
  induction ns as [|x rest IH]; cbn [connectAll pairs map]; [reflexivity|].
  rewrite map_app, map_map, IH. reflexivity.
Qed.

Lemma pairs_count {A : Type} : forall l : list A,
  (2 * List.length (pairs l) = List.length l * (List.length l - 1))%nat.
Proof.
  induction l as [|x rest IH]; cbn [pairs List.length]; [reflexivity|].
  rewrite length_app, length_map.
  destruct rest as [|y rest']; [reflexivity|].
  cbn [List.length] in *. nia.
Qed.

Lemma pairs_In {A : Type} : forall (l : list A) x y,
  In (x, y) (pairs l) -> In x l /\ In y l.
Proof.
  induction l as [|z rest IH]; intros x y H; cbn [pairs] in H; [contradiction|].
  apply in_app_or in H. destruct H as [H|H].
  - apply in_map_iff in H. destruct H as (w & [= <- <-] & Hw).
    split; [left; reflexivity | right; exact Hw].
  - destruct (IH _ _ H). split; right; assumption.
Qed.

Lemma updateNodes_pool (rnd : nat -> R) (time : R) (a : Animation) :
  List.length (nodes (updateNodes rnd time a)) = List.length (nodes a)
  /\ params (updateNodes rnd time a) = params a
  /\ forall n', In n' (nodes (updateNodes rnd time a)) ->
       0 <= Node.activity n' <= 1.
Proof.
  unfold updateNodes.
  pose proof (forEachNode_activity rnd time (nodes a) 0 a) as Hact.
  destruct (forEachNode_pool rnd time (nodes a) 0%nat a)
    as (_ & _ & _ & _ & _ & P & _).
  assert (Hlen : forall ns index b,
            List.length (fst (forEachNode rnd time index ns b)) = List.length ns).
  { induction ns as [|n rest IH]; intros index b; cbn [forEachNode];
      [reflexivity|].
    specialize (IH (S index) (world (updateNode rnd time index b n))).
    destruct (forEachNode rnd time (S index) rest _) as [rest' b'].
    cbn [fst] in *. cbn. now rewrite IH. }
  specialize (Hlen (nodes a) 0%nat a).
  destruct (forEachNode rnd time 0 (nodes a) a) as [ns a'].
  cbn [fst snd nodes params set_nodes] in *.
  split; [exact Hlen|]. split; [destruct a'; exact P|].
  intros n' Hin. apply In_nth_error in Hin. destruct Hin as (i & Hi).
  rewrite (Hact i n' Hi).
  pose proof (SIN_bound (time * activitySpeed (params a) + INR (0 + i))). lra.
Qed.

(** X18. The complete graph: with connections enabled [updateConnections]
    builds one line for every unordered pair of nodes, n * (n - 1) / 2 lines
    for n nodes, the line of the pair (i, j), i < j, in loop order, from the
    position of node i to the position of node j with the connection colour
    and opacity; with connections disabled it builds none. *)
Theorem updateConnections_complete_graph (a : Animation) :
  (if showAllConnections (params a)
   then (2 * List.length (updateConnections a)
         = List.length (nodes a) * (List.length (nodes a) - 1))%nat
   else updateConnections a = [])
  /\ forall i line,
       nth_error (updateConnections a) i = Some line ->
       exists nodeA nodeB,
         nth_error (pairs (nodes a)) i = Some (nodeA, nodeB)
         /\ In nodeA (nodes a) /\ In nodeB (nodes a)
         /\ Line.startPoint line = Node.position nodeA
         /\ Line.endPoint line = Node.position nodeB
         /\ Line.color line = connectionColor (params a)
         /\ Line.opacity line = connectionOpacity (params a).
Proof.
  unfold updateConnections. split.
  - destruct (showAllConnections (params a)); [|reflexivity].
    rewrite connectAll_pairs, length_map. apply pairs_count.
  - intros i line H.
    destruct (showAllConnections (params a)); [|destruct i; discriminate].
    rewrite connectAll_pairs, nth_error_map in H.
    destruct (nth_error (pairs (nodes a)) i) as [[x y]|] eqn:E;
      [|discriminate].
    injection H as <-. exists x, y.
    destruct (pairs_In _ _ _ (nth_error_In _ _ E)) as (Hx & Hy).
    repeat split; assumption.
Qed.

Lemma updateConnections_complete_graph_witness :
  (if showAllConnections (params (scene [wallNode; cornerNode; wallNode]))
   then (2 * List.length (updateConnections (scene [wallNode; cornerNode; wallNode]))
         = List.length (nodes (scene [wallNode; cornerNode; wallNode]))
           * (List.length (nodes (scene [wallNode; cornerNode; wallNode])) - 1))%nat
   else updateConnections (scene [wallNode; cornerNode; wallNode]) = [])
  /\ forall i line,
       nth_error (updateConnections (scene [wallNode; cornerNode; wallNode])) i
       = Some line ->
       exists nodeA nodeB,
         nth_error (pairs (nodes (scene [wallNode; cornerNode; wallNode]))) i
         = Some (nodeA, nodeB)
         /\ In nodeA (nodes (scene [wallNode; cornerNode; wallNode]))
         /\ In nodeB (nodes (scene [wallNode; cornerNode; wallNode]))
         /\ Line.startPoint line = Node.position nodeA
         /\ Line.endPoint line = Node.position nodeB
         /\ Line.color line
            = connectionColor (params (scene [wallNode; cornerNode; wallNode]))
         /\ Line.opacity line
            = connectionOpacity (params (scene [wallNode; cornerNode; wallNode])).
Proof.
  exact (updateConnections_complete_graph (scene [wallNode; cornerNode; wallNode])).
Defined.

(** X19. Refreshing the lines: [updateConnectionGeometry] never adds or
    removes a line; the line at index i is redrawn between the two nodes of
    the i-th pair in loop order and gets the opacity connectionOpacity *
    (0.3 + 0.7 * mean activity of the two nodes), its colour kept; a line
    whose index has no pair is left as it is. *)
Theorem updateConnectionGeometry_lines (a : Animation) (lines : list Line.t) :
  List.length (updateConnectionGeometry a lines) = List.length lines
  /\ forall i,
       nth_error (updateConnectionGeometry a lines) i
       = match nth_error lines i with
         | None => None
         | Some line =>
             Some match nth_error (pairs (nodes a)) i with
                  | Some (nodeA, nodeB) =>
                      Line.mk (Node.position nodeA) (Node.position nodeB)
                        (Line.color line)
                        (connectionOpacity (params a)
                         * (0.3 + 0.7 * ((Node.activity nodeA
                                          + Node.activity nodeB) / 2)))
                  | None => line
                  end
         end.
Proof.
  unfold updateConnectionGeometry.
  destruct (refreshOuter_spec a (nodes a) 0 lines) as (_ & Hn).
  assert (Hi : forall i,
    nth_error (snd (refreshOuter a (nodes a) 0 lines)) i
    = match nth_error lines i with
      | None => None
      | Some line =>
          Some match nth_error (pairs (nodes a)) i with
               | Some (nodeA, nodeB) =>
                   Line.mk (Node.position nodeA) (Node.position nodeB)
                     (Line.color line)
                     (connectionOpacity (params a)
                      * (0.3 + 0.7 * ((Node.activity nodeA
                                       + Node.activity nodeB) / 2)))
               | None => line
               end
      end).
  { intros i. rewrite Hn. destruct (nth_error lines i); [|reflexivity].
    cbn [Nat.leb]. rewrite Nat.sub_0_r.
    destruct (nth_error (pairs (nodes a)) i) as [[x y]|]; [|reflexivity].
    unfold refreshLine. do 2 f_equal. lra. }
  split; [|exact Hi].
  set (out := snd (refreshOuter a (nodes a) 0 lines)) in *.
  destruct (Nat.lt_trichotomy (List.length out) (List.length lines))
    as [Hlt|[Heq|Hgt]]; [|exact Heq|].
  - specialize (Hi (List.length out)).
    rewrite (proj2 (nth_error_None out _)) in Hi by lia.
    destruct (nth_error lines (List.length out)) eqn:E; [discriminate|].
    apply nth_error_None in E. lia.
  - specialize (Hi (List.length lines)).
    rewrite (proj2 (nth_error_None lines _)) in Hi by lia.
    apply nth_error_None in Hi. lia.
Qed.

(** X20. Connections after a frame: when the lines were built for the
    current pool and the connection opacity is not negative, then after
    [updateNodes] and the refresh that ends it there are as many lines as
    before, every line joins the new positions of the two nodes of its
    pair, keeps the connection colour, and has an opacity between 0.3
    times the connection opacity and the connection opacity. *)
Theorem connections_follow_nodes (rnd : nat -> R) (time : R) (a : Animation) :
  0 <= connectionOpacity (params a) ->
  let a' := updateNodes rnd time a in
  let lines' := updateConnectionGeometry a' (updateConnections a) in
  List.length lines' = List.length (updateConnections a)
  /\ forall i line,
       nth_error lines' i = Some line ->
       exists nodeA nodeB,
         nth_error (pairs (nodes a')) i = Some (nodeA, nodeB)
         /\ Line.startPoint line = Node.position nodeA
         /\ Line.endPoint line = Node.position nodeB
         /\ Line.color line = connectionColor (params a)
         /\ 0.3 * connectionOpacity (params a) <= Line.opacity line
            <= connectionOpacity (params a).
Proof.
  intros Hop a' lines'.
  destruct (updateNodes_pool rnd time a) as (Hlen & Hp & Hact).
  fold a' in Hlen, Hp, Hact.
  destruct (refreshOuter_spec a' (nodes a') 0 (updateConnections a))
    as (_ & Hn).
  fold (updateConnectionGeometry a' (updateConnections a)) in Hn.
  fold lines' in Hn.
  assert (Hsame : forall i,
            nth_error (updateConnections a) i = None <-> nth_error lines' i = None).
  { intros i. rewrite Hn. destruct (nth_error (updateConnections a) i);
      split; intros; congruence. }
  split.
  { destruct (Nat.lt_trichotomy (List.length lines')
                (List.length (updateConnections a))) as [Hlt|[Heq|Hgt]];
      [|exact Heq|].
    - pose proof (proj2 (Hsame (List.length lines'))
                    (proj2 (nth_error_None _ _) (Nat.le_refl _))) as E.
      apply nth_error_None in E. lia.
    - pose proof (proj1 (Hsame (List.length (updateConnections a)))
                    (proj2 (nth_error_None _ _) (Nat.le_refl _))) as E.
      apply nth_error_None in E. lia. }
  intros i line H. rewrite Hn in H.
  destruct (nth_error (updateConnections a) i) as [line0|] eqn:E0;
    [|discriminate].
  cbn [Nat.leb] in H. rewrite Nat.sub_0_r in H.
  assert (Hcol : Line.color line0 = connectionColor (params a)
                 /\ (i < List.length (pairs (nodes a)))%nat).
  { unfold updateConnections in E0.
    destruct (showAllConnections (params a)); [|destruct i; discriminate].
    rewrite connectAll_pairs, nth_error_map in E0.
    destruct (nth_error (pairs (nodes a)) i) as [[x y]|] eqn:E;
      [|discriminate].
    injection E0 as <-. split; [reflexivity|].
    apply nth_error_Some. congruence. }
  destruct Hcol as (Hcol & Hi).
  assert (Hi' : (i < List.length (pairs (nodes a')))%nat).
  { pose proof (pairs_count (nodes a)). pose proof (pairs_count (nodes a')).
    rewrite Hlen in *. lia. }
  destruct (nth_error (pairs (nodes a')) i) as [[x y]|] eqn:E;
    [|apply nth_error_None in E; lia].
  injection H as <-. exists x, y.
  destruct (pairs_In _ _ _ (nth_error_In _ _ E)) as (Hx & Hy).
  pose proof (Hact x Hx). pose proof (Hact y Hy).
  unfold refreshLine. cbn [Line.startPoint Line.endPoint Line.color Line.opacity].
  rewrite Hp. repeat split; try assumption; try reflexivity; nra.
Qed.

Lemma connections_follow_nodes_witness :
  let a' := updateNodes halves 1 (scene [wallNode; cornerNode; wallNode]) in
  let lines' := updateConnectionGeometry a'
                  (updateConnections (scene [wallNode; cornerNode; wallNode])) in
  List.length lines'
  = List.length (updateConnections (scene [wallNode; cornerNode; wallNode]))
  /\ forall i line,
       nth_error lines' i = Some line ->
       exists nodeA nodeB,
         nth_error (pairs (nodes a')) i = Some (nodeA, nodeB)
         /\ Line.startPoint line = Node.position nodeA
         /\ Line.endPoint line = Node.position nodeB
         /\ Line.color line
            = connectionColor (params (scene [wallNode; cornerNode; wallNode]))
         /\ 0.3 * connectionOpacity (params (scene [wallNode; cornerNode; wallNode]))
            <= Line.opacity line
            <= connectionOpacity (params (scene [wallNode; cornerNode; wallNode])).
Proof.
  apply (connections_follow_nodes halves 1 (scene [wallNode; cornerNode; wallNode])).
  cbn; lra.
Defined.

Lemma updateNodes_ripples_witness :
  exists extra,
    ripples (updateNodes halves 1 (scene [wallNode; cornerNode]))
    = ripples (scene [wallNode; cornerNode]) ++ extra
    /\ (List.length extra <= List.length (nodes (scene [wallNode; cornerNode])))%nat
    /\ (showRipples (params (scene [wallNode; cornerNode])) = false -> extra = [])
    /\ Forall (fun r =>
                 coord (wallAxis (Ripple.wallType r)) (Ripple.position r)
                 = wallCoordinate (camera (scene [wallNode; cornerNode]))
                     (Ripple.wallType r)
                 /\ Ripple.normal r = inwardNormal (Ripple.wallType r)
                 /\ Ripple.age r = 0
                 /\ Ripple.maxAge r
                    = rippleDuration (params (scene [wallNode; cornerNode]))
                 /\ Ripple.maxRadius r
                    = 4.0 * rippleIntensity (params (scene [wallNode; cornerNode]))
                      * rippleSize (params (scene [wallNode; cornerNode])))
         extra.
Proof.
  exact (updateNodes_ripples halves 1 (scene [wallNode; cornerNode])).
Defined.

Lemma updateNodes_activity_witness :
  List.length (nodes (updateNodes halves 1 (scene [wallNode; cornerNode])))
  = List.length (nodes (scene [wallNode; cornerNode]))
  /\ forall i n',
       nth_error (nodes (updateNodes halves 1 (scene [wallNode; cornerNode]))) i
       = Some n' ->
       Node.activity n'
       = (sin (1 * activitySpeed (params (scene [wallNode; cornerNode])) + INR i)
          + 1) * 0.5
       /\ 0 <= Node.activity n' <= 1.
Proof.
  exact (updateNodes_activity halves 1 (scene [wallNode; cornerNode])).
Defined.
